(** * objsync: a distributed mutex on top of object storage

    A shallow embedding of [mutex.go] and of the provider contract it is
    written against ([provider/provider.go], with the shape of the two
    adapters, [provider/s3/s3.go] and the GCS one), followed by the
    properties of the locking protocol.

    Conventions of the embedding.
    - A Go [string] or [[]byte] is a [string] (a sequence of bytes).
    - [int64] is [Z] with the wrap-around of [content.Fence++] written out
      ([wrap64]).
    - [time.Time] is the instant it denotes, in nanoseconds since the Unix
      epoch; every time the mutex writes went through [.UTC()], which drops
      the location and the monotonic reading, so nothing else is left of it.
    - [time.Now()] is an explicit argument of whatever reads the clock.
    - The closure variable [newFencingToken] is returned next to the result
      of the closure.
    - Go's [error] is the inductive [error]; [errors.Is] is [errors_Is]. *)

From Stdlib Require Import ZArith List String Ascii Bool Lia Sorted.
Import ListNotations.

Local Open Scope string_scope.
Local Open Scope Z_scope.

(** ** Bytes *)

Definition byte (a : ascii) : Z := Z.of_N (N_of_ascii a).
Definition chr (z : Z) : ascii := ascii_of_N (Z.to_N z).

Definition len (s : string) : Z := Z.of_nat (String.length s).

Fixpoint drop (n : nat) (s : string) : string :=
  match n, s with
  | O, _ => s
  | S n', String _ t => drop n' t
  | S _, EmptyString => EmptyString
  end.

Fixpoint take (n : nat) (s : string) : string :=
  match n, s with
  | O, _ => EmptyString
  | S n', String a t => String a (take n' t)
  | S _, EmptyString => EmptyString
  end.

(** A string between double quotes. *)
Definition quoted (s : string) : string :=
  String "034" (s ++ String "034" EmptyString).

(** JSON text written with apostrophes in the place of its double
    quotes. *)
Fixpoint json_text (s : string) : string :=
  match s with
  | EmptyString => EmptyString
  | String a t =>
    String (if Ascii.eqb a "'" then "034"%char else a) (json_text t)
  end.

(** ** Results *)

Inductive result (E A : Type) : Type :=
| Ok (a : A)
| Err (e : E).
Arguments Ok {E A} a.
Arguments Err {E A} e.

(** ** unicode/utf8 *)

Module utf8.

Definition RuneError : Z := 65533.   (* U+FFFD *)
Definition MaxRune : Z := 1114111.   (* U+10FFFF *)
Definition RuneSelf : Z := 128.

(** Continuation bytes: [locb <= b <= hicb]. *)
Definition cont (b : Z) : bool := (128 <=? b) && (b <=? 191).

(** The second byte's accepted range depends on the first
    ([acceptRanges]). *)
Definition accept_lo (s0 : Z) : Z :=
  if s0 =? 224 then 160 else if s0 =? 240 then 144 else 128.
Definition accept_hi (s0 : Z) : Z :=
  if s0 =? 237 then 159 else if s0 =? 244 then 143 else 191.

(** [DecodeRuneInString]: the first rune of [s] and its width in bytes;
    [(RuneError, 1)] on an invalid or short encoding, [(RuneError, 0)] on
    the empty string.  Masks and shifts are written as the subtractions
    and multiplications they amount to on the accepted ranges. *)
Definition DecodeRuneInString (s : string) : Z * nat :=
  match s with
  | EmptyString => (RuneError, 0%nat)
  | String a0 t0 =>
    let s0 := byte a0 in
    if s0 <? 128 then (s0, 1%nat)
    else if (s0 <? 194) || (244 <? s0) then (RuneError, 1%nat)
    else
      match t0 with
      | EmptyString => (RuneError, 1%nat)
      | String a1 t1 =>
        let s1 := byte a1 in
        if (s1 <? accept_lo s0) || (accept_hi s0 <? s1) then (RuneError, 1%nat)
        else if s0 <? 224 then ((s0 - 192) * 64 + (s1 - 128), 2%nat)
        else
          match t1 with
          | EmptyString => (RuneError, 1%nat)
          | String a2 t2 =>
            let s2 := byte a2 in
            if negb (cont s2) then (RuneError, 1%nat)
            else if s0 <? 240 then
              ((s0 - 224) * 4096 + (s1 - 128) * 64 + (s2 - 128), 3%nat)
            else
              match t2 with
              | EmptyString => (RuneError, 1%nat)
              | String a3 _ =>
                let s3 := byte a3 in
                if negb (cont s3) then (RuneError, 1%nat)
                else ((s0 - 240) * 262144 + (s1 - 128) * 4096
                      + (s2 - 128) * 64 + (s3 - 128), 4%nat)
              end
          end
      end
  end.

(** [EncodeRune] / [AppendRune]: surrogates and out-of-range runes are
    written as U+FFFD. *)
Definition encode3 (r : Z) : string :=
  String (chr (224 + r / 4096))
    (String (chr (128 + (r / 64) mod 64))
       (String (chr (128 + r mod 64)) EmptyString)).

Definition EncodeRune (r : Z) : string :=
  if (0 <=? r) && (r <=? 127) then String (chr r) EmptyString
  else if (0 <=? r) && (r <=? 2047) then
    String (chr (192 + r / 64)) (String (chr (128 + r mod 64)) EmptyString)
  else if (r <? 0) || (MaxRune <? r) || ((55296 <=? r) && (r <=? 57343)) then
    encode3 RuneError
  else if r <=? 65535 then encode3 r
  else
    String (chr (240 + r / 262144))
      (String (chr (128 + (r / 4096) mod 64))
         (String (chr (128 + (r / 64) mod 64))
            (String (chr (128 + r mod 64)) EmptyString))).

(** [ValidString]. *)
Fixpoint valid_fuel (fuel : nat) (s : string) : bool :=
  match fuel with
  | O => match s with EmptyString => true | _ => false end
  | S fuel' =>
    match s with
    | EmptyString => true
    | String a t =>
      if byte a <? 128 then valid_fuel fuel' t
      else
        let '(r, size) := DecodeRuneInString s in
        if (r =? RuneError) && Nat.eqb size 1 then false
        else valid_fuel fuel' (drop size s)
    end
  end.

Definition ValidString (s : string) : bool := valid_fuel (String.length s) s.

(** The coercion to valid UTF-8 that [encoding/json] performs on the
    strings it writes: every byte that does not start a well-formed
    encoding becomes U+FFFD, one replacement for each such byte. *)
Fixpoint coerce_fuel (fuel : nat) (s : string) : string :=
  match fuel with
  | O => EmptyString
  | S fuel' =>
    match s with
    | EmptyString => EmptyString
    | String a t =>
      if byte a <? 128 then String a (coerce_fuel fuel' t)
      else
        let '(r, size) := DecodeRuneInString s in
        if (r =? RuneError) && Nat.eqb size 1
        then encode3 RuneError ++ coerce_fuel fuel' t
        else take size s ++ coerce_fuel fuel' (drop size s)
    end
  end.

Definition coerce (s : string) : string := coerce_fuel (String.length s) s.

End utf8.


(** ** strconv *)

Module strconv.

Definition isDigit (a : ascii) : bool := (48 <=? byte a) && (byte a <=? 57).
Definition digit (d : Z) : ascii := chr (48 + d).
Definition digit_val (a : ascii) : Z := byte a - 48.

(** [formatBits] in base 10: the digits of a non-negative number, most
    significant first.  Twenty rounds cover every 64-bit value. *)
Fixpoint digits_fuel (fuel : nat) (n : Z) (acc : string) : string :=
  match fuel with
  | O => acc
  | S fuel' =>
    let acc' := String (digit (n mod 10)) acc in
    if n <? 10 then acc' else digits_fuel fuel' (n / 10) acc'
  end.

Definition FormatUint (n : Z) : string := digits_fuel 20 n EmptyString.

(** [FormatInt(i, 10)]. *)
Definition FormatInt (i : Z) : string :=
  if i <? 0 then String "-" (FormatUint (- i)) else FormatUint i.

(** The value of a string of decimal digits, [None] on any other byte. *)
Fixpoint parse_digits (acc : Z) (s : string) : option Z :=
  match s with
  | EmptyString => Some acc
  | String a t =>
    if isDigit a then parse_digits (acc * 10 + digit_val a) t else None
  end.

Definition MinInt64 : Z := - 9223372036854775808.
Definition MaxInt64 : Z := 9223372036854775807.

(** [ParseInt(s, 10, 64)]: an optional sign, at least one digit, nothing
    else, and a value that fits. *)
Definition ParseInt (s : string) : option Z :=
  let '(neg, body) :=
    match s with
    | String "-" t => (true, t)
    | String "+" t => (false, t)
    | _ => (false, s)
    end in
  match body with
  | EmptyString => None
  | _ =>
    match parse_digits 0 body with
    | None => None
    | Some v =>
      let i := if neg then - v else v in
      if (MinInt64 <=? i) && (i <=? MaxInt64) then Some i else None
    end
  end.

(** [appendInt(b, x, width)] of package time for [0 <= x < 10^width]:
    exactly [width] digits, zero padded. *)
Fixpoint fixed (width : nat) (x : Z) : string :=
  match width with
  | O => EmptyString
  | S w => fixed w (x / 10) ++ String (digit (x mod 10)) EmptyString
  end.

(** Exactly [width] digits off the front of [s], as a number. *)
Fixpoint take_digits (width : nat) (acc : Z) (s : string) : option (Z * string) :=
  match width with
  | O => Some (acc, s)
  | S w =>
    match s with
    | String a t =>
      if isDigit a then take_digits w (acc * 10 + digit_val a) t else None
    | EmptyString => None
    end
  end.

End strconv.

(** ** int64 *)

Definition wrap64 (z : Z) : Z :=
  (z + 9223372036854775808) mod 18446744073709551616 - 9223372036854775808.

Definition int64_ok (z : Z) : Prop :=
  strconv.MinInt64 <= z <= strconv.MaxInt64.

(** ** time *)

Module time.

(** An instant, in nanoseconds since 1970-01-01T00:00:00Z. *)
Definition Time : Type := Z.
(** A [Duration] is an [int64] count of nanoseconds. *)
Definition Duration : Type := Z.

Definition Second : Duration := 1000000000.

(** [t.After(u)]. *)
Definition After (t u : Time) : bool := u <? t.
(** [t.Add(d)]. *)
Definition Add (t : Time) (d : Duration) : Time := t + d.
(** [t.UTC()]: the same instant. *)
Definition UTC (t : Time) : Time := t.

Definition isLeap (year : Z) : bool :=
  (year mod 4 =? 0) && (negb (year mod 100 =? 0) || (year mod 400 =? 0)).

(** [daysBefore[m]]: days of a non-leap year before month [m + 1]. *)
Definition daysBefore (m : Z) : Z :=
  if m <=? 0 then 0
  else if m =? 1 then 31
  else if m =? 2 then 59
  else if m =? 3 then 90
  else if m =? 4 then 120
  else if m =? 5 then 151
  else if m =? 6 then 181
  else if m =? 7 then 212
  else if m =? 8 then 243
  else if m =? 9 then 273
  else if m =? 10 then 304
  else if m =? 11 then 334
  else 365.

(** [daysIn(m, year)]. *)
Definition daysIn (m year : Z) : Z :=
  if (m =? 2) && isLeap year then 29 else daysBefore m - daysBefore (m - 1).

Definition daysPer400Years : Z := 146097.
Definition daysPer100Years : Z := 36524.
Definition daysPer4Years : Z := 1461.

(** Days from 0001-01-01 to the first of January of [year]
    ([daysSinceEpoch], counted from year 1, where Go counts from a year
    that is 1 modulo 400). *)
Definition daysSinceYear1 (year : Z) : Z :=
  let y := year - 1 in
  let n400 := y / 400 in
  let y1 := y - 400 * n400 in
  let n100 := y1 / 100 in
  let y2 := y1 - 100 * n100 in
  let n4 := y2 / 4 in
  let y3 := y2 - 4 * n4 in
  daysPer400Years * n400 + daysPer100Years * n100 + daysPer4Years * n4
  + 365 * y3.

(** Days from 0001-01-01 to 1970-01-01. *)
Definition unixEpochDay : Z := 719162.

(** [Date(year, month, day, 0, 0, 0, 0, UTC)] as a day number counted
    from the Unix epoch. *)
Definition daysFromCivil (year month day : Z) : Z :=
  daysSinceYear1 year + daysBefore (month - 1)
  + (if isLeap year && (3 <=? month) then 1 else 0)
  + (day - 1) - unixEpochDay.

(** [absDate]: year, month and day of month of a day number counted from
    0001-01-01. *)
Definition absDate (d0 : Z) : Z * Z * Z :=
  let n400 := d0 / daysPer400Years in
  let d1 := d0 - daysPer400Years * n400 in
  let n100 := d1 / daysPer100Years in
  let n100 := n100 - n100 / 4 in
  let d2 := d1 - daysPer100Years * n100 in
  let n4 := d2 / daysPer4Years in
  let d3 := d2 - daysPer4Years * n4 in
  let n1 := d3 / 365 in
  let n1 := n1 - n1 / 4 in
  let yday := d3 - 365 * n1 in
  let year := 400 * n400 + 100 * n100 + 4 * n4 + n1 + 1 in
  if isLeap year && (yday =? 59) then (year, 2, 29)
  else
    let day := if isLeap year && (59 <? yday) then yday - 1 else yday in
    let m := day / 31 in
    let e := daysBefore (m + 1) in
    if e <=? day then (year, m + 2, day - e + 1)
    else (year, m + 1, day - daysBefore m + 1).

Definition civil (t : Time) : Z * Z * Z :=
  absDate ((t / Second) / 86400 + unixEpochDay).

(** [t.Year()]. *)
Definition Year (t : Time) : Z := let '(year, _, _) := civil t in year.

(** The fraction of [appendNano] with the layout [.999999999]: nine
    digits with the trailing zeros trimmed, nothing at all for zero. *)
Fixpoint trim_zeros (n : nat) (width : nat) (x : Z) : string :=
  match n with
  | O => strconv.fixed width x
  | S n' =>
    match width with
    | O => EmptyString
    | S w => if x mod 10 =? 0 then trim_zeros n' w (x / 10)
             else strconv.fixed width x
    end
  end.

Definition appendNano (nsec : Z) : string :=
  if nsec =? 0 then EmptyString else String "." (trim_zeros 9 9 nsec).

(** [appendFormatRFC3339(b, true)] of a UTC time. *)
Definition formatRFC3339 (t : Time) : string :=
  let sec := t / Second in
  let nsec := t mod Second in
  let sod := sec mod 86400 in
  let '(year, month, day) := civil t in
  strconv.fixed 4 year ++ "-" ++ strconv.fixed 2 month ++ "-"
  ++ strconv.fixed 2 day ++ "T"
  ++ strconv.fixed 2 (sod / 3600) ++ ":"
  ++ strconv.fixed 2 ((sod / 60) mod 60) ++ ":"
  ++ strconv.fixed 2 (sod mod 60)
  ++ appendNano nsec ++ "Z".

(** [Time.MarshalJSON]: the quoted RFC 3339 text, an error when the year
    does not fit four digits. *)
Definition MarshalJSON (t : Time) : option string :=
  let '(year, _, _) := civil t in
  if (0 <=? year) && (year <=? 9999)
  then Some (String "034" (formatRFC3339 t ++ String "034" EmptyString))
  else None.

(** [parseNanoseconds]: the value of a run of fraction digits in
    nanoseconds; only the first nine digits count.  Returns the rest of
    the input after the run. *)
Fixpoint parseNanoseconds (room : nat) (acc : Z) (s : string) : Z * string :=
  match s with
  | String a t =>
    if strconv.isDigit a then
      match room with
      | S r => parseNanoseconds r (acc * 10 + strconv.digit_val a) t
      | O => parseNanoseconds O acc t
      end
    else (acc * 10 ^ Z.of_nat room, s)
  | EmptyString => (acc * 10 ^ Z.of_nat room, s)
  end.

(** The zone of an RFC 3339 timestamp, as an offset in seconds: [Z], or a
    sign, two digits of hours, a colon and two digits of minutes, with
    nothing after it. *)
Definition parseZone (s : string) : option Z :=
  match s with
  | String "Z" EmptyString => Some 0
  | String sign s1 =>
    match strconv.take_digits 2 0 s1 with
    | Some (hr, String ":" s2) =>
      match strconv.take_digits 2 0 s2 with
      | Some (mm, EmptyString) =>
        if (hr <=? 23) && (mm <=? 59) then
          if Ascii.eqb sign "+" then Some ((hr * 60 + mm) * 60)
          else if Ascii.eqb sign "-" then Some (- ((hr * 60 + mm) * 60))
          else None
        else None
      | _ => None
      end
    | _ => None
    end
  | EmptyString => None
  end.

(** [parseRFC3339]: the strict parser that [Time.UnmarshalJSON] tries
    first. *)
Definition parseRFC3339 (s : string) : option Time :=
  match strconv.take_digits 4 0 s with
  | Some (year, String "-" s1) =>
    match strconv.take_digits 2 0 s1 with
    | Some (month, String "-" s2) =>
      match strconv.take_digits 2 0 s2 with
      | Some (day, String "T" s3) =>
        match strconv.take_digits 2 0 s3 with
        | Some (hour, String ":" s4) =>
          match strconv.take_digits 2 0 s4 with
          | Some (min, String ":" s5) =>
            match strconv.take_digits 2 0 s5 with
            | Some (sec, s6) =>
              if (1 <=? month) && (month <=? 12)
                 && (1 <=? day) && (day <=? daysIn month year)
                 && (hour <=? 23) && (min <=? 59) && (sec <=? 59)
              then
                let '(nsec, s7) :=
                  match s6 with
                  | String "." (String a t) =>
                    if strconv.isDigit a then parseNanoseconds 9 0 (String a t)
                    else (0, s6)
                  | _ => (0, s6)
                  end in
                match parseZone s7 with
                | Some offset =>
                  Some ((daysFromCivil year month day * 86400
                         + hour * 3600 + min * 60 + sec - offset) * Second
                        + nsec)
                | None => None
                end
              else None
            | None => None
            end
          | _ => None
          end
        | _ => None
        end
      | _ => None
      end
    | _ => None
    end
  | _ => None
  end.

(** [getnum(s, fixed)]: one or two digits off the front of [s], and the
    rest; two digits are required when [fixed]. *)
Definition getnum (fixed : bool) (s : string) : option (Z * string) :=
  match s with
  | String a t =>
    if strconv.isDigit a then
      match t with
      | String b t' =>
        if strconv.isDigit b
        then Some (strconv.digit_val a * 10 + strconv.digit_val b, t')
        else if fixed then None else Some (strconv.digit_val a, t)
      | EmptyString => if fixed then None else Some (strconv.digit_val a, t)
      end
    else None
  | EmptyString => None
  end.

Definition commaOrPeriod (a : ascii) : bool :=
  Ascii.eqb a "." || Ascii.eqb a ",".

(** The element [Z07:00] of a layout: [Z], or a sign, two digits of
    hours, a colon and two digits of minutes; hours up to 24 and minutes
    up to 60 pass.  Returns the offset in seconds and the rest. *)
Definition parseZoneLayout (s : string) : option (Z * string) :=
  match s with
  | String "Z" r => Some (0, r)
  | String sign (String h1 (String h2 (String ":" (String m1 (String m2 r))))) =>
    match getnum true (String h1 (String h2 EmptyString)),
          getnum true (String m1 (String m2 EmptyString)) with
    | Some (hr, _), Some (mm, _) =>
      if (hr <=? 24) && (mm <=? 60) then
        if Ascii.eqb sign "+" then Some ((hr * 60 + mm) * 60, r)
        else if Ascii.eqb sign "-" then Some (- ((hr * 60 + mm) * 60), r)
        else None
      else None
    | _, _ => None
    end
  | _ => None
  end.

(** [Parse(RFC3339, s)], the parser by layout that [Time.UnmarshalJSON]
    falls back on: the layout is [2006-01-02T15:04:05Z07:00].  The hour
    may have one digit, a fraction of the second may follow after a comma
    or a period although the layout has none, and the day is checked
    against the month at the end. *)
Definition Parse (s : string) : option Time :=
  match strconv.take_digits 4 0 s with
  | Some (year, String "-" s1) =>
    match getnum true s1 with
    | Some (month, String "-" s2) =>
      match getnum true s2 with
      | Some (day, String "T" s3) =>
        match getnum false s3 with
        | Some (hour, String ":" s4) =>
          match getnum true s4 with
          | Some (min, String ":" s5) =>
            match getnum true s5 with
            | Some (sec, s6) =>
              if (1 <=? month) && (month <=? 12)
                 && (hour <? 24) && (min <? 60) && (sec <? 60)
              then
                let '(nsec, s7) :=
                  match s6 with
                  | String c (String a t) =>
                    if commaOrPeriod c && strconv.isDigit a
                    then parseNanoseconds 9 0 (String a t)
                    else (0, s6)
                  | _ => (0, s6)
                  end in
                match parseZoneLayout s7 with
                | Some (offset, EmptyString) =>
                  if (1 <=? day) && (day <=? daysIn month year)
                  then Some ((daysFromCivil year month day * 86400
                              + hour * 3600 + min * 60 + sec - offset) * Second
                             + nsec)
                  else None
                | _ => None
                end
              else None
            | None => None
            end
          | _ => None
          end
        | _ => None
        end
      | _ => None
      end
    | _ => None
    end
  | _ => None
  end.

(** [Time.UnmarshalJSON] on the bytes between the quotes of a JSON
    string (they are not unescaped): [parseStrictRFC3339], which tries
    [parseRFC3339] and falls back on [Parse(RFC3339, s)], whose result it
    returns as it is. *)
Definition UnmarshalJSON (raw : string) : option Time :=
  match parseRFC3339 raw with
  | Some t => Some t
  | None => Parse raw
  end.

End time.

(** ** encoding/json, as far as [mutexContent] exercises it *)

Module json.

Definition hex (d : Z) : ascii := if d <? 10 then chr (48 + d) else chr (87 + d).

(** [htmlSafeSet]: the ASCII bytes written as they are. *)
Definition htmlSafe (b : Z) : bool :=
  (32 <=? b) && (b <? 128)
  && negb ((b =? 34) || (b =? 38) || (b =? 60) || (b =? 62) || (b =? 92)).

(** One ASCII byte of [appendString] with [escapeHTML] set. *)
Definition escape (a : ascii) : string :=
  let b := byte a in
  if htmlSafe b then String a EmptyString
  else if (b =? 92) || (b =? 34) then String "\" (String a EmptyString)
  else if b =? 8 then "\b"
  else if b =? 12 then "\f"
  else if b =? 10 then "\n"
  else if b =? 13 then "\r"
  else if b =? 9 then "\t"
  else String "\" (String "u" (String "0" (String "0"
         (String (hex (b / 16)) (String (hex (b mod 16)) EmptyString))))).

(** The loop of [appendString] over the bytes of [s]. *)
Fixpoint quote_fuel (fuel : nat) (s : string) : string :=
  match fuel with
  | O => EmptyString
  | S fuel' =>
    match s with
    | EmptyString => EmptyString
    | String a t =>
      if byte a <? utf8.RuneSelf then escape a ++ quote_fuel fuel' t
      else
        let '(c, size) := utf8.DecodeRuneInString s in
        if (c =? utf8.RuneError) && Nat.eqb size 1
        then "\ufffd" ++ quote_fuel fuel' t
        else if (c =? 8232) || (c =? 8233)
        then "\u202" ++ String (hex (c mod 16)) (quote_fuel fuel' (drop size s))
        else take size s ++ quote_fuel fuel' (drop size s)
    end
  end.

Definition appendString (s : string) : string :=
  String "034" (quote_fuel (String.length s) s ++ String "034" EmptyString).

(** White space between tokens ([isSpace]). *)
Definition isSpace (a : ascii) : bool :=
  let b := byte a in (b =? 32) || (b =? 9) || (b =? 13) || (b =? 10).

Fixpoint skip_ws (s : string) : string :=
  match s with
  | String a t => if isSpace a then skip_ws t else s
  | EmptyString => s
  end.

Definition isHex (a : ascii) : bool :=
  let b := byte a in
  ((48 <=? b) && (b <=? 57)) || ((97 <=? b) && (b <=? 102))
  || ((65 <=? b) && (b <=? 70)).

Definition hex_val (a : ascii) : Z :=
  let b := byte a in
  if b <=? 57 then b - 48 else if 97 <=? b then b - 87 else b - 55.

(** The scanner inside a string literal ([stateInString],
    [stateInStringEsc], [stateInStringEscU...]). *)
Inductive strState : Type :=
| InString
| InStringEsc
| InStringEscU (more : nat).

(** Scans from just after the opening quote: the bytes of the literal up
    to its closing quote, and the input after that quote. *)
Fixpoint scan_string (st : strState) (s : string) : option (string * string) :=
  match s with
  | EmptyString => None
  | String a t =>
    let keep st' :=
      match scan_string st' t with
      | Some (raw, rest) => Some (String a raw, rest)
      | None => None
      end in
    match st with
    | InString =>
      if byte a =? 34 then Some (EmptyString, t)
      else if byte a =? 92 then keep InStringEsc
      else if byte a <? 32 then None
      else keep InString
    | InStringEsc =>
      let b := byte a in
      if (b =? 98) || (b =? 102) || (b =? 110) || (b =? 114) || (b =? 116)
         || (b =? 92) || (b =? 47) || (b =? 34)
      then keep InString
      else if b =? 117 then keep (InStringEscU 3)
      else None
    | InStringEscU more =>
      if isHex a then
        match more with
        | O => keep InString
        | S m => keep (InStringEscU m)
        end
      else None
    end
  end.

(** [getu4]: the number written by a [\uXXXX] at the front of [s]. *)
Definition getu4 (s : string) : option Z :=
  match s with
  | String "\" (String "u" (String h1 (String h2 (String h3 (String h4 _))))) =>
    if isHex h1 && isHex h2 && isHex h3 && isHex h4
    then Some (hex_val h1 * 4096 + hex_val h2 * 256 + hex_val h3 * 16 + hex_val h4)
    else None
  | _ => None
  end.

(** [utf16.DecodeRune]. *)
Definition utf16_DecodeRune (r1 : Z) (r2 : option Z) : Z :=
  match r2 with
  | Some r2 =>
    if (55296 <=? r1) && (r1 <? 56320) && (56320 <=? r2) && (r2 <? 57344)
    then (r1 - 55296) * 1024 + (r2 - 56320) + 65536
    else utf8.RuneError
  | None => utf8.RuneError
  end.

Definition utf16_IsSurrogate (r : Z) : bool := (55296 <=? r) && (r <? 57344).

(** [unquoteBytes] on the bytes between the quotes. *)
Fixpoint unquote_fuel (fuel : nat) (s : string) : option string :=
  match s with
  | EmptyString => Some EmptyString
  | String a t =>
    match fuel with
    | O => None
    | S fuel' =>
      let b := byte a in
      if b =? 92 then
        match t with
        | EmptyString => None
        | String e t' =>
          let c := byte e in
          let lit (x : ascii) :=
            match unquote_fuel fuel' t' with
            | Some r => Some (String x r)
            | None => None
            end in
          if (c =? 34) || (c =? 92) || (c =? 47) || (c =? 39) then lit e
          else if c =? 98 then lit (chr 8)
          else if c =? 102 then lit (chr 12)
          else if c =? 110 then lit (chr 10)
          else if c =? 114 then lit (chr 13)
          else if c =? 116 then lit (chr 9)
          else if c =? 117 then
            match getu4 s with
            | None => None
            | Some rr =>
              let s6 := drop 6 s in
              if utf16_IsSurrogate rr then
                let dec := utf16_DecodeRune rr (getu4 s6) in
                if negb (dec =? utf8.RuneError) then
                  match unquote_fuel fuel' (drop 6 s6) with
                  | Some r => Some (utf8.EncodeRune dec ++ r)
                  | None => None
                  end
                else
                  match unquote_fuel fuel' s6 with
                  | Some r => Some (utf8.EncodeRune utf8.RuneError ++ r)
                  | None => None
                  end
              else
                match unquote_fuel fuel' s6 with
                | Some r => Some (utf8.EncodeRune rr ++ r)
                | None => None
                end
            end
          else None
        end
      else if (b =? 34) || (b <? 32) then None
      else if b <? utf8.RuneSelf then
        match unquote_fuel fuel' t with
        | Some r => Some (String a r)
        | None => None
        end
      else
        let '(rr, size) := utf8.DecodeRuneInString s in
        match unquote_fuel fuel' (drop size s) with
        | Some r => Some (utf8.EncodeRune rr ++ r)
        | None => None
        end
    end
  end.

Definition unquote (raw : string) : option string :=
  unquote_fuel (String.length raw) raw.

(** The scanner inside a number ([stateNeg], [state0], [state1],
    [stateDot], [stateDot0], [stateE], [stateESign], [stateE0]). *)
Inductive numState : Type :=
| NumBegin | NumNeg | Num0 | Num1 | NumDot | NumDot0 | NumE | NumESign | NumE0.

Definition numFinal (st : numState) : bool :=
  match st with
  | Num0 | Num1 | NumDot0 | NumE0 => true
  | _ => false
  end.

Definition numStep (st : numState) (a : ascii) : option numState :=
  let b := byte a in
  let dig := (48 <=? b) && (b <=? 57) in
  let exp := (b =? 101) || (b =? 69) in
  match st with
  | NumBegin =>
    if b =? 45 then Some NumNeg
    else if b =? 48 then Some Num0
    else if dig then Some Num1 else None
  | NumNeg => if b =? 48 then Some Num0 else if dig then Some Num1 else None
  | Num0 => if b =? 46 then Some NumDot else if exp then Some NumE else None
  | Num1 =>
    if dig then Some Num1
    else if b =? 46 then Some NumDot else if exp then Some NumE else None
  | NumDot => if dig then Some NumDot0 else None
  | NumDot0 => if dig then Some NumDot0 else if exp then Some NumE else None
  | NumE =>
    if (b =? 43) || (b =? 45) then Some NumESign
    else if dig then Some NumE0 else None
  | NumESign => if dig then Some NumE0 else None
  | NumE0 => if dig then Some NumE0 else None
  end.

(** The longest number literal at the front of [s], and the input after
    it; [None] when the scanner stops in a state that is not final. *)
Fixpoint scan_number (st : numState) (s : string) : option (string * string) :=
  let stop := if numFinal st then Some (EmptyString, s) else None in
  match s with
  | EmptyString => stop
  | String a t =>
    match numStep st a with
    | Some st' =>
      match scan_number st' t with
      | Some (lit, rest) => Some (String a lit, rest)
      | None => None
      end
    | None => stop
    end
  end.

Definition maxNestingDepth : Z := 10000.

(** The scanner over one value of any kind, for the members that
    [mutexContent] has no field for: the input after the value, [None] on
    a syntax error.  [depth] counts the arrays and objects that are open. *)
Fixpoint skip_value (fuel : nat) (depth : Z) (s : string) : option string :=
  match fuel with
  | O => None
  | S fuel' =>
    match s with
    | String "{" t =>
      if depth <? maxNestingDepth then
        match skip_ws t with
        | String "}" r => Some r
        | r => skip_members fuel' (depth + 1) r
        end
      else None
    | String "[" t =>
      if depth <? maxNestingDepth then
        match skip_ws t with
        | String "]" r => Some r
        | r => skip_elements fuel' (depth + 1) r
        end
      else None
    | String "034" t =>
      match scan_string InString t with
      | Some (_, r) => Some r
      | None => None
      end
    | String "t" (String "r" (String "u" (String "e" r))) => Some r
    | String "f" (String "a" (String "l" (String "s" (String "e" r)))) => Some r
    | String "n" (String "u" (String "l" (String "l" r))) => Some r
    | _ =>
      match scan_number NumBegin s with
      | Some (_, r) => Some r
      | None => None
      end
    end
  end

with skip_members (fuel : nat) (depth : Z) (s : string) : option string :=
  match fuel with
  | O => None
  | S fuel' =>
    match s with
    | String "034" t =>
      match scan_string InString t with
      | Some (_, r) =>
        match skip_ws r with
        | String ":" r1 =>
          match skip_value fuel' depth (skip_ws r1) with
          | Some r2 =>
            match skip_ws r2 with
            | String "," r3 => skip_members fuel' depth (skip_ws r3)
            | String "}" r3 => Some r3
            | _ => None
            end
          | None => None
          end
        | _ => None
        end
      | None => None
      end
    | _ => None
    end
  end

with skip_elements (fuel : nat) (depth : Z) (s : string) : option string :=
  match fuel with
  | O => None
  | S fuel' =>
    match skip_value fuel' depth s with
    | Some r =>
      match skip_ws r with
      | String "," r1 => skip_elements fuel' depth (skip_ws r1)
      | String "]" r1 => Some r1
      | _ => None
      end
    | None => None
    end
  end.

(** [foldName]: the key under which field names are compared when no
    field has exactly the name.  ASCII letters are upper-cased; of the
    other runes only U+017F and U+212A fold to an ASCII letter (S and K). *)
Fixpoint foldName (s : string) : string :=
  match s with
  | EmptyString => EmptyString
  | String a t =>
    let b := byte a in
    if (97 <=? b) && (b <=? 122) then String (chr (b - 32)) (foldName t)
    else
      match t with
      | String a1 t1 =>
        if (b =? 197) && (byte a1 =? 191) then String "S" (foldName t1)
        else
          match t1 with
          | String a2 t2 =>
            if (b =? 226) && (byte a1 =? 132) && (byte a2 =? 170)
            then String "K" (foldName t2)
            else String a (foldName t)
          | EmptyString => String a (foldName t)
          end
      | EmptyString => String a (foldName t)
      end
  end.

End json.

(** ** Errors *)

(** The error values the mutex can meet.  [ErrConflict] is
    [provider.ErrConflict]; [errLockHeld] is the value that [TryLock]
    creates for its own closure; [jsonError] is any error of
    [json.Unmarshal] or [json.Marshal]; [apiError] is any failure of the
    storage client; [contextError] is [ctx.Err()];
    [unrecoverableError e] is [retry.Unrecoverable(e)], which unwraps to
    [e]. *)
Inductive error : Type :=
| ErrConflict
| errLockHeld
| jsonError
| apiError (code : string)
| contextError (what : string)
| acquireError
| unrecoverableError (e : error).

Fixpoint error_eqb (e1 e2 : error) : bool :=
  match e1, e2 with
  | ErrConflict, ErrConflict => true
  | errLockHeld, errLockHeld => true
  | jsonError, jsonError => true
  | apiError c1, apiError c2 => String.eqb c1 c2
  | contextError c1, contextError c2 => String.eqb c1 c2
  | acquireError, acquireError => true
  | unrecoverableError a, unrecoverableError b => error_eqb a b
  | _, _ => false
  end.

(** [errors.Is(err, target)]: [target] is met somewhere on the chain of
    [Unwrap]s of [err]. *)
Fixpoint errors_Is (err target : error) : bool :=
  error_eqb err target
  || match err with
     | unrecoverableError e => errors_Is e target
     | _ => false
     end.

(** [retry.IsRecoverable]. *)
Definition IsRecoverable (err : error) : bool :=
  match err with
  | unrecoverableError _ => false
  | _ => true
  end.

(** ** The JSON content of the mutex object *)

(** [type mutexContent struct]; a nil [Expires] is [None]. *)
Record mutexContent : Type := {
  ID : string;
  Expires : option time.Time;
  Fence : Z
}.

(** [var content mutexContent]. *)
Definition zeroContent : mutexContent :=
  {| ID := EmptyString; Expires := None; Fence := 0 |}.

(** The members of the object, in the order of the fields; a member whose
    field is empty is left out ([omitempty]). *)
Definition member_ID (c : mutexContent) : list string :=
  if String.eqb (ID c) EmptyString then []
  else [quoted "id" ++ ":" ++ json.appendString (ID c)].

Definition member_Expires (c : mutexContent) : option (list string) :=
  match Expires c with
  | None => Some []
  | Some t =>
    match time.MarshalJSON t with
    | Some text => Some [quoted "expires" ++ ":" ++ text]
    | None => None
    end
  end.

Definition member_Fence (c : mutexContent) : list string :=
  if Fence c =? 0 then []
  else [quoted "fence" ++ ":" ++ strconv.FormatInt (Fence c)].

(** [json.Marshal(content)]. *)
Definition Marshal (c : mutexContent) : result error string :=
  match member_Expires c with
  | None => Err jsonError
  | Some e =>
    Ok ("{" ++ String.concat "," (member_ID c ++ e ++ member_Fence c) ++ "}")
  end.

Inductive field : Type := fieldID | fieldExpires | fieldFence.

(** The field a key names: the one with exactly that name, else the one
    with the same name up to case. *)
Definition field_of (key : string) : option field :=
  if String.eqb key "id" then Some fieldID
  else if String.eqb key "expires" then Some fieldExpires
  else if String.eqb key "fence" then Some fieldFence
  else
    let k := json.foldName key in
    if String.eqb k "ID" then Some fieldID
    else if String.eqb k "EXPIRES" then Some fieldExpires
    else if String.eqb k "FENCE" then Some fieldFence
    else None.

Definition is_null (s : string) : option string :=
  match s with
  | String "n" (String "u" (String "l" (String "l" r))) => Some r
  | _ => None
  end.

(** Decodes the value at the front of [s] into the field [f] of [c]:
    the record and the input after the value, [None] on any error. *)
Definition decode_field (fuel : nat) (c : mutexContent) (f : option field)
    (s : string) : option (mutexContent * string) :=
  match f with
  | None =>
    match json.skip_value fuel 1 s with
    | Some r => Some (c, r)
    | None => None
    end
  | Some fieldID =>
    match is_null s with
    | Some r => Some (c, r)
    | None =>
      match s with
      | String "034" t =>
        match json.scan_string json.InString t with
        | Some (raw, r) =>
          match json.unquote raw with
          | Some v => Some ({| ID := v; Expires := Expires c; Fence := Fence c |}, r)
          | None => None
          end
        | None => None
        end
      | _ => None
      end
    end
  | Some fieldExpires =>
    match is_null s with
    | Some r => Some ({| ID := ID c; Expires := None; Fence := Fence c |}, r)
    | None =>
      match s with
      | String "034" t =>
        match json.scan_string json.InString t with
        | Some (raw, r) =>
          match time.UnmarshalJSON raw with
          | Some v =>
            Some ({| ID := ID c; Expires := Some v; Fence := Fence c |}, r)
          | None => None
          end
        | None => None
        end
      | _ => None
      end
    end
  | Some fieldFence =>
    match is_null s with
    | Some r => Some (c, r)
    | None =>
      match json.scan_number json.NumBegin s with
      | Some (lit, r) =>
        match strconv.ParseInt lit with
        | Some v => Some ({| ID := ID c; Expires := Expires c; Fence := v |}, r)
        | None => None
        end
      | None => None
      end
    end
  end.

(** The members of the object, from the first key to the closing brace. *)
Fixpoint decode_members (fuel : nat) (c : mutexContent) (s : string)
    : option (mutexContent * string) :=
  match fuel with
  | O => None
  | S fuel' =>
    match s with
    | String "034" t =>
      match json.scan_string json.InString t with
      | Some (rawkey, r) =>
        match json.unquote rawkey with
        | Some key =>
          match json.skip_ws r with
          | String ":" r1 =>
            match decode_field fuel' c (field_of key) (json.skip_ws r1) with
            | Some (c', r2) =>
              match json.skip_ws r2 with
              | String "," r3 => decode_members fuel' c' (json.skip_ws r3)
              | String "}" r3 => Some (c', r3)
              | _ => None
              end
            | None => None
            end
          | _ => None
          end
        | None => None
        end
      | None => None
      end
    | _ => None
    end
  end.

(** [json.Unmarshal(data, &content)] into a zero [content]: an object
    fills the fields its keys name, [null] leaves the record as it is,
    any other value and any syntax error is an error. *)
Definition Unmarshal (data : string) : result error mutexContent :=
  let fuel := S (String.length data) in
  let finish (r : option (mutexContent * string)) :=
    match r with
    | Some (c, rest) =>
      match json.skip_ws rest with
      | EmptyString => Ok c
      | _ => Err jsonError
      end
    | None => Err jsonError
    end in
  match json.skip_ws data with
  | String "{" t =>
    match json.skip_ws t with
    | String "}" r => finish (Some (zeroContent, r))
    | r => finish (decode_members fuel zeroContent r)
    end
  | s =>
    match is_null s with
    | Some r => finish (Some (zeroContent, r))
    | None => Err jsonError
    end
  end.

(** ** provider *)

(** What the storage does to one call of [AtomicUpdateObject], as both
    adapters are written: the object is read first (a failure ends the
    call; an absent object reads as an empty tag and no bytes), then the
    callback runs, then its bytes are written back on the condition that
    the object is still at the tag that was read.  The write is accepted,
    refused because the condition does not hold, or fails otherwise; the
    GCS adapter asks for the attributes of the object once more after the
    write to learn the new tag, and fails, with the bytes stored, when it
    cannot have them. *)
Inductive put_outcome : Type :=
| PutOk (newETag : string)
| PutPreconditionFailed
| PutFailed (code : string)
| PutOkAttrsFailed (code : string).

Record exchange : Type := {
  x_get : result string (string * string);
  x_put : put_outcome
}.

(** [provider.UpdateObjectFunc], with the variables the closure assigns
    returned in [V]. *)
Definition UpdateObjectFunc (V : Type) : Type :=
  string -> string -> result error string * V.

(** The outcome of a call: what it returns, what the closure assigned (if
    it ran) and the bytes that were stored (if any were). *)
Record outcome (V : Type) : Type := {
  returned : result error string;
  captured : option V;
  written : option string
}.
Arguments returned {V} o.
Arguments captured {V} o.
Arguments written {V} o.

(** [Provider.AtomicUpdateObject(ctx, bucket, key, fn)]. *)
Definition AtomicUpdateObject {V : Type} (x : exchange) (fn : UpdateObjectFunc V)
    : outcome V :=
  match x_get x with
  | Err code =>
    {| returned := Err (apiError code); captured := None; written := None |}
  | Ok (currentETag, currentData) =>
    match fn currentETag currentData with
    | (Err e, v) =>
      {| returned := Err e; captured := Some v; written := None |}
    | (Ok newData, v) =>
      match x_put x with
      | PutOk newETag =>
        {| returned := Ok newETag; captured := Some v; written := Some newData |}
      | PutPreconditionFailed =>
        {| returned := Err ErrConflict; captured := Some v; written := None |}
      | PutFailed code =>
        {| returned := Err (apiError code); captured := Some v; written := None |}
      | PutOkAttrsFailed code =>
        {| returned := Err (apiError code); captured := Some v;
           written := Some newData |}
      end
    end
  end.

(** ** Mutex *)

(** [type Mutex struct]; the provider is the [exchange] each call is
    given. *)
Record Mutex : Type := {
  bucket : string;
  key : string;
  id : string;
  etag : string
}.

(** [NewMutex(p, bucket, key)]; [uuid] is the text of [uuid.New()]. *)
Definition NewMutex (bucket key uuid : string) : Mutex :=
  {| bucket := bucket; key := key; id := uuid; etag := EmptyString |}.

Definition set_etag (mu : Mutex) (e : string) : Mutex :=
  {| bucket := bucket mu; key := key mu; id := id mu; etag := e |}.

(** The record a closure starts from, given the bytes it is handed: both
    closures decode bytes only when there are some, and start from the
    zero record otherwise. *)
Definition current (currentData : string) : result error mutexContent :=
  if 0 <? len currentData then Unmarshal currentData else Ok zeroContent.

(** The test of [TryLock]'s closure: [Expires] is set and [time.Now()] is
    not after it. *)
Definition held (content : mutexContent) (now : time.Time) : bool :=
  match Expires content with
  | Some e => negb (time.After now e)
  | None => false
  end.

(** "Held" in the words of the specification: the holder is not empty and
    the expiry is strictly in the future. *)
Definition held_as_specified (content : mutexContent) (now : time.Time) : bool :=
  negb (String.eqb (ID content) EmptyString)
  && match Expires content with
     | Some e => now <? e
     | None => false
     end.

(** The closure that [TryLock] hands to the provider.  [now1] and [now2]
    are the two readings of [time.Now()], the first for the expiry test
    and the second for the new expiry; the second component is
    [newFencingToken] when the closure returns. *)
Definition tryLockUpdate (mu : Mutex) (expiresIn : time.Duration)
    (now1 now2 : time.Time) : UpdateObjectFunc Z :=
  fun _ currentData =>
    let proceed (content : mutexContent) :=
      let expires := time.UTC (time.Add now2 expiresIn) in
      let content' := {| ID := id mu;
                         Expires := Some expires;
                         Fence := wrap64 (Fence content + 1) |} in
      (Marshal content', Fence content') in
    if 0 <? len currentData then
      match Unmarshal currentData with
      | Err e => (Err e, 0)
      | Ok content =>
        match Expires content with
        | Some e =>
          if negb (time.After now1 e) then (Err errLockHeld, 0)
          else proceed content
        | None => proceed content
        end
      end
    else proceed zeroContent.

(** One call of the provider together with the clock readings of the
    closure it runs. *)
Record attempt : Type := {
  a_now1 : time.Time;
  a_now2 : time.Time;
  a_exchange : exchange
}.

(** What a method leaves behind: the handle, what it returns, and the
    bytes it stored, if any. *)
Record effect (R : Type) : Type := {
  handle : Mutex;
  result_of : R;
  stored : option string
}.
Arguments handle {R} e.
Arguments result_of {R} e.
Arguments stored {R} e.

(** [func (mu *Mutex) TryLock(ctx, expiresIn) (bool, int64, error)]. *)
Definition TryLock (mu : Mutex) (expiresIn : time.Duration) (a : attempt)
    : effect (bool * Z * option error) :=
  let o := AtomicUpdateObject (a_exchange a)
             (tryLockUpdate mu expiresIn (a_now1 a) (a_now2 a)) in
  let newFencingToken := match captured o with Some v => v | None => 0 end in
  match returned o with
  | Err err =>
    if errors_Is err errLockHeld || errors_Is err ErrConflict
    then {| handle := mu; result_of := (false, -1, None); stored := written o |}
    else {| handle := mu; result_of := (false, -1, Some err); stored := written o |}
  | Ok newETag =>
    {| handle := set_etag mu newETag;
       result_of := (true, newFencingToken, None);
       stored := written o |}
  end.

(** What the retry loop meets each time round: the context is done, or
    the function runs against the given environment. *)
Inductive tick (A : Type) : Type :=
| CtxDone (what : string)
| Run (a : A).
Arguments CtxDone {A} what.
Arguments Run {A} a.

(** [retry.Do(f, retry.Context(ctx), retry.Attempts(0))]: [f] is called
    until it returns no error or an unrecoverable one, or until the
    context is done.  [None] when the run ends while [f] is still being
    retried. *)
Fixpoint retry_Do {A S : Type} (f : S -> A -> S * option error)
    (run : list (tick A)) (s : S) : option (S * option error) :=
  match run with
  | [] => None
  | CtxDone what :: _ => Some (s, Some (contextError what))
  | Run a :: run' =>
    match f s a with
    | (s', None) => Some (s', None)
    | (s', Some err) =>
      if IsRecoverable err then retry_Do f run' s' else Some (s', Some err)
    end
  end.

(** The state the closure of [Lock] works on: the handle, the variable
    [fencingToken], and the bytes stored so far. *)
Definition lockAttempt (expiresIn : time.Duration)
    (s : Mutex * Z * list string) (a : attempt)
    : (Mutex * Z * list string) * option error :=
  let '(mu, _, log) := s in
  let e := TryLock mu expiresIn a in
  let log' := match stored e with Some b => (log ++ [b])%list | None => log end in
  let '(ok, fencingToken, err) := result_of e in
  match err with
  | Some err => ((handle e, fencingToken, log'), Some (unrecoverableError err))
  | None =>
    if ok then ((handle e, fencingToken, log'), None)
    else ((handle e, fencingToken, log'), Some acquireError)
  end.

(** [func (mu *Mutex) Lock(ctx, length) (int64, error)]: the handle, the
    writes it made, and what it returns. *)
Definition Lock (mu : Mutex) (length : time.Duration) (run : list (tick attempt))
    : option (Mutex * list string * (Z * option error)) :=
  match retry_Do (lockAttempt length) run (mu, 0, []) with
  | None => None
  | Some ((mu', fencingToken, log), Some err) => Some (mu', log, (-1, Some err))
  | Some ((mu', fencingToken, log), None) => Some (mu', log, (fencingToken, None))
  end.

(** The closure that [Unlock] hands to the provider. *)
Definition unlockUpdate (mu : Mutex) : UpdateObjectFunc unit :=
  fun currentETag currentData =>
    if negb (String.eqb currentETag (etag mu)) then (Err ErrConflict, tt)
    else if 0 <? len currentData then
      match Unmarshal currentData with
      | Err e => (Err e, tt)
      | Ok content =>
        (Marshal {| ID := EmptyString; Expires := None; Fence := Fence content |}, tt)
      end
    else (Marshal zeroContent, tt).

Definition unlockAttempt (s : Mutex * option string) (x : exchange)
    : (Mutex * option string) * option error :=
  let '(mu, _) := s in
  let o := AtomicUpdateObject x (unlockUpdate mu) in
  match returned o with
  | Err err =>
    if errors_Is err ErrConflict then ((mu, written o), None)
    else ((mu, written o), Some (unrecoverableError err))
  | Ok _ => ((mu, written o), None)
  end.

(** [func (mu *Mutex) Unlock(ctx) error]. *)
Definition Unlock (mu : Mutex) (run : list (tick exchange))
    : option (effect (option error)) :=
  if negb (String.eqb (etag mu) EmptyString) then
    match retry_Do unlockAttempt run (mu, None) with
    | None => None
    | Some ((mu', w), Some err) =>
      Some {| handle := mu'; result_of := Some err; stored := w |}
    | Some ((mu', w), None) =>
      Some {| handle := set_etag mu' EmptyString; result_of := None; stored := w |}
    end
  else Some {| handle := mu; result_of := None; stored := None |}.

(** ** Several handles on one object *)

(** The object all the handles are bound to, the wall clock, and the
    handles, over a provider that keeps its contract: the conditional
    write is an atomic compare-and-swap on the tag that was read (an
    absent object counting as the empty tag), every write gives the object
    a tag it never had, and a call that fails has stored nothing.

    A call of [TryLock] takes four steps of the world: the read, the two
    readings of the clock by the closure, and the conditional write.  A
    call of [Unlock] takes two: the read and the conditional write.  Steps
    of other handles and of the clock may come between any two of them,
    and the environment may make the read or the write fail.  [Lock] is a
    run of calls of [TryLock]. *)

Section World.

(** The version tag of the n-th revision of the object. *)
Variable tag : nat -> string.

(** Where a handle is in a call: what was read, and the readings of the
    clock taken so far. *)
Inductive call : Type :=
| NoCall
| TryLockRead (expiresIn : time.Duration)
              (got : result string (string * string))
| TryLockTest (expiresIn : time.Duration) (now1 : time.Time)
              (got : result string (string * string))
| CallTryLock (expiresIn : time.Duration) (now1 now2 : time.Time)
              (got : result string (string * string))
| CallUnlock (got : result string (string * string)).

(** A handle, the call it is in, and the expiry of the lease it believes
    it holds: set when [TryLock] reports the lock acquired, dropped when
    [Unlock] returns no error. *)
Record proc : Type := {
  p_mu : Mutex;
  p_call : call;
  p_lease : option time.Time
}.

(** [w_gen] counts the revisions of the object ([0]: the object is
    absent); [w_tokens] lists the fencing tokens handed out, oldest
    first. *)
Record world : Type := {
  w_now : time.Time;
  w_gen : nat;
  w_data : string;
  w_procs : list proc;
  w_tokens : list Z
}.

Definition cur_tag (gen : nat) : string :=
  match gen with
  | O => EmptyString
  | S _ => tag gen
  end.

(** The clock moves on; handle [i] starts a call with the read of the
    object; the closure of its call reads the clock; the write of its call
    is decided.  A [fault] is a failure of the storage. *)
Inductive event : Type :=
| Tick (dt : Z)
| BeginTryLock (i : nat) (expiresIn : time.Duration) (fault : option string)
| Now (i : nat)
| BeginUnlock (i : nat) (fault : option string)
| Commit (i : nat) (fault : option string).

Fixpoint set_nth {A : Type} (i : nat) (x : A) (l : list A) : list A :=
  match l, i with
  | [], _ => []
  | _ :: t, O => x :: t
  | h :: t, S i' => h :: set_nth i' x t
  end.

Definition read_now (w : world) (fault : option string)
    : result string (string * string) :=
  match fault with
  | Some code => Err code
  | None => Ok (cur_tag (w_gen w), w_data w)
  end.

Definition put_now (w : world) (got : result string (string * string))
    (fault : option string) : put_outcome :=
  match fault with
  | Some code => PutFailed code
  | None =>
    match got with
    | Ok (readTag, _) =>
      if String.eqb readTag (cur_tag (w_gen w))
      then PutOk (tag (S (w_gen w)))
      else PutPreconditionFailed
    | Err _ => PutPreconditionFailed
    end
  end.

(** The object after a call that stored [b], or stored nothing. *)
Definition after_put (w : world) (st : option string) : nat * string :=
  match st with
  | Some b => (S (w_gen w), b)
  | None => (w_gen w, w_data w)
  end.

Definition step (w : world) (ev : event) : world :=
  match ev with
  | Tick dt =>
    {| w_now := w_now w + Z.max 0 dt; w_gen := w_gen w; w_data := w_data w;
       w_procs := w_procs w; w_tokens := w_tokens w |}
  | BeginTryLock i expiresIn fault =>
    match nth_error (w_procs w) i with
    | Some p =>
      match p_call p with
      | NoCall =>
        let p' := {| p_mu := p_mu p;
                     p_call := TryLockRead expiresIn (read_now w fault);
                     p_lease := p_lease p |} in
        {| w_now := w_now w; w_gen := w_gen w; w_data := w_data w;
           w_procs := set_nth i p' (w_procs w); w_tokens := w_tokens w |}
      | _ => w
      end
    | None => w
    end
  | Now i =>
    match nth_error (w_procs w) i with
    | Some p =>
      let next (c : call) :=
        {| w_now := w_now w; w_gen := w_gen w; w_data := w_data w;
           w_procs := set_nth i {| p_mu := p_mu p; p_call := c;
                                   p_lease := p_lease p |} (w_procs w);
           w_tokens := w_tokens w |} in
      match p_call p with
      | TryLockRead expiresIn got => next (TryLockTest expiresIn (w_now w) got)
      | TryLockTest expiresIn now1 got =>
        next (CallTryLock expiresIn now1 (w_now w) got)
      | _ => w
      end
    | None => w
    end
  | BeginUnlock i fault =>
    match nth_error (w_procs w) i with
    | Some p =>
      match p_call p with
      | NoCall =>
        let p' := {| p_mu := p_mu p;
                     p_call := CallUnlock (read_now w fault);
                     p_lease := p_lease p |} in
        {| w_now := w_now w; w_gen := w_gen w; w_data := w_data w;
           w_procs := set_nth i p' (w_procs w); w_tokens := w_tokens w |}
      | _ => w
      end
    | None => w
    end
  | Commit i fault =>
    match nth_error (w_procs w) i with
    | Some p =>
      match p_call p with
      | NoCall | TryLockRead _ _ | TryLockTest _ _ _ => w
      | CallTryLock expiresIn now1 now2 got =>
        let a := {| a_now1 := now1; a_now2 := now2;
                    a_exchange := {| x_get := got; x_put := put_now w got fault |} |} in
        let e := TryLock (p_mu p) expiresIn a in
        let '(ok, token, _) := result_of e in
        let '(gen', data') := after_put w (stored e) in
        let p' := {| p_mu := handle e;
                     p_call := NoCall;
                     p_lease := if ok
                                then Some (time.UTC (time.Add now2 expiresIn))
                                else p_lease p |} in
        {| w_now := w_now w; w_gen := gen'; w_data := data';
           w_procs := set_nth i p' (w_procs w);
           w_tokens := if ok then (w_tokens w ++ [token])%list else w_tokens w |}
      | CallUnlock got =>
        match Unlock (p_mu p) [Run {| x_get := got; x_put := put_now w got fault |}] with
        | Some e =>
          let '(gen', data') := after_put w (stored e) in
          let p' := {| p_mu := handle e;
                       p_call := NoCall;
                       p_lease := match result_of e with
                                  | None => None
                                  | Some _ => p_lease p
                                  end |} in
          {| w_now := w_now w; w_gen := gen'; w_data := data';
             w_procs := set_nth i p' (w_procs w); w_tokens := w_tokens w |}
        | None => w
        end
      end
    | None => w
    end
  end.

Definition run (w : world) (evs : list event) : world := fold_left step evs w.

(** The world before anything happened: the object as it was seeded (or
    absent), and fresh handles. *)
Definition fresh (mu : Mutex) : proc :=
  {| p_mu := set_etag mu EmptyString; p_call := NoCall; p_lease := None |}.

Definition init (now : time.Time) (gen : nat) (data : string) (mus : list Mutex)
    : world :=
  {| w_now := now; w_gen := gen; w_data := data;
     w_procs := map fresh mus; w_tokens := [] |}.



End World.


(** Version tags for the examples: the n-th revision has n strokes. *)
Fixpoint strokes (n : nat) : string :=
  match n with
  | O => EmptyString
  | S n' => String "|" (strokes n')
  end.


(** ** Vocabulary of the proofs *)

(** What stands right after a number in the text of a record. *)
Definition ends_number (r : string) : Prop :=
  exists r', r = String "}" r' \/ r = String "," r'.

(** Every byte of [s] passes [P]. *)
Fixpoint every (P : ascii -> bool) (s : string) : bool :=
  match s with
  | EmptyString => true
  | String a t => P a && every P t
  end.

(** Bytes that are no ASCII. *)
Definition high (a : ascii) : bool := 128 <=? byte a.

(** [DecodeRuneInString s] found a well-formed encoding of [c] on [n]
    bytes, with all that follows from it. *)
Definition decodes (s : string) (c : Z) (n : nat) : Prop :=
  utf8.EncodeRune c = take n s
  /\ String.length (take n s) = n
  /\ (2 <= n)%nat
  /\ every high (take n s) = true
  /\ 128 <= c
  /\ forall q, utf8.DecodeRuneInString (take n s ++ q) = (c, n)
               /\ drop n (take n s ++ q) = q.

(** What a scanner returns, with [w] put in front of the bytes it kept. *)
Definition kept (w : string) (r : option (string * string))
    : option (string * string) :=
  match r with
  | Some (raw, rest) => Some (w ++ raw, rest)
  | None => None
  end.

(** What [unquote] returns, with [w] put in front. *)
Definition with_prefix (w : string) (r : option string) : option string :=
  match r with
  | Some v => Some (w ++ v)
  | None => None
  end.

(** Bytes the scanner keeps as they are inside a string. *)
Definition plain (a : ascii) : bool :=
  (32 <=? byte a) && negb (byte a =? 34) && negb (byte a =? 92).

(** What follows a member of an object: a comma and the next member, or
    the closing brace. *)
Definition next_member (f : nat) (c : mutexContent) (rest : string)
    : option (mutexContent * string) :=
  match rest with
  | String "," r3 => decode_members f c (json.skip_ws r3)
  | String "}" r3 => Some (c, r3)
  | _ => None
  end.

(** *** Invariants of the world *)

Section Invariants.

Variable tag : nat -> string.

(** A tag a handle may carry when the object is at revision [gen]: none,
    or the tag of a revision that exists. *)
Definition tag_upto (gen : nat) (t : string) : Prop :=
  t = EmptyString \/ exists g, (1 <= g <= gen)%nat /\ t = tag g.

(** What a call read is what some revision of the object held, and what
    the object holds now if it is still at that revision. *)
Definition read_ok (gen : nat) (data : string)
    (got : result string (string * string)) : Prop :=
  forall t d,
    got = Ok (t, d) ->
    exists g, (g <= gen)%nat /\ t = cur_tag tag g /\ (g = gen -> d = data).

Definition call_ok (now : time.Time) (gen : nat) (data : string) (c : call)
    : Prop :=
  match c with
  | NoCall => True
  | TryLockRead _ got => read_ok gen data got
  | TryLockTest _ now1 got => now1 <= now /\ read_ok gen data got
  | CallTryLock _ now1 now2 got => now1 <= now2 <= now /\ read_ok gen data got
  | CallUnlock got => read_ok gen data got
  end.

(** A handle that believes it holds the lock has a tag; while the object
    is at that tag its record carries the handle's expiry; once the object
    has moved on, the lease has run out. *)
Definition lease_ok (now : time.Time) (gen : nat) (data : string) (mu : Mutex)
    (lease : option time.Time) : Prop :=
  match lease with
  | None => True
  | Some e =>
    etag mu <> EmptyString
    /\ (etag mu = cur_tag tag gen ->
        0 < len data
        /\ exists c, Unmarshal data = Ok c /\ Expires c = Some e)
    /\ (etag mu <> cur_tag tag gen -> e < now)
  end.

Definition proc_ok (now : time.Time) (gen : nat) (data : string) (p : proc)
    : Prop :=
  tag_upto gen (etag (p_mu p))
  /\ call_ok now gen data (p_call p)
  /\ lease_ok now gen data (p_mu p) (p_lease p).

(** No two handles carry the same tag. *)
Definition distinct_tags (procs : list proc) : Prop :=
  forall i j p q,
    i <> j ->
    nth_error procs i = Some p ->
    nth_error procs j = Some q ->
    etag (p_mu p) = etag (p_mu q) ->
    etag (p_mu p) = EmptyString.

Definition inv (w : world) : Prop :=
  (forall i p, nth_error (w_procs w) i = Some p ->
               proc_ok (w_now w) (w_gen w) (w_data w) p)
  /\ distinct_tags (w_procs w).


Definition with_procs (w : world) (now : time.Time) (procs : list proc) : world :=
  {| w_now := now; w_gen := w_gen w; w_data := w_data w;
     w_procs := procs; w_tokens := w_tokens w |}.

(** The moves of the world, by what they do to it. *)
Inductive moves : world -> world -> Prop :=
| stays (w : world) : moves w w
| ticks (w : world) (now' : time.Time) :
    w_now w <= now' ->
    moves w (with_procs w now' (w_procs w))
| begins (w : world) (i : nat) (p : proc) (c : call) (now' : time.Time) :
    nth_error (w_procs w) i = Some p ->
    w_now w <= now' ->
    call_ok now' (w_gen w) (w_data w) c ->
    moves w (with_procs w now'
               (set_nth i {| p_mu := p_mu p; p_call := c; p_lease := p_lease p |}
                  (w_procs w)))
| returns (w : world) (i : nat) (p : proc) :
    nth_error (w_procs w) i = Some p ->
    moves w (with_procs w (w_now w)
               (set_nth i {| p_mu := p_mu p; p_call := NoCall;
                             p_lease := p_lease p |}
                  (w_procs w)))
| releases (w : world) (i : nat) (p : proc) :
    nth_error (w_procs w) i = Some p ->
    moves w (with_procs w (w_now w)
               (set_nth i {| p_mu := set_etag (p_mu p) EmptyString;
                             p_call := NoCall; p_lease := None |}
                  (w_procs w)))
| acquires (w : world) (i : nat) (p : proc) (expiresIn : time.Duration)
    (now1 now2 : time.Time) (d : string) (content : mutexContent)
    (newData : string) :
    nth_error (w_procs w) i = Some p ->
    p_call p = CallTryLock expiresIn now1 now2 (Ok (cur_tag tag (w_gen w), d)) ->
    current d = Ok content ->
    held content now1 = false ->
    Marshal {| ID := id (p_mu p);
               Expires := Some (time.Add now2 expiresIn);
               Fence := wrap64 (Fence content + 1) |} = Ok newData ->
    moves w
      {| w_now := w_now w; w_gen := S (w_gen w); w_data := newData;
         w_procs :=
           set_nth i {| p_mu := set_etag (p_mu p) (tag (S (w_gen w)));
                        p_call := NoCall;
                        p_lease := Some (time.Add now2 expiresIn) |}
             (w_procs w);
         w_tokens := (w_tokens w ++ [wrap64 (Fence content + 1)])%list |}
| clears (w : world) (i : nat) (p : proc) (d : string) (content : mutexContent)
    (newData : string) :
    nth_error (w_procs w) i = Some p ->
    p_call p = CallUnlock (Ok (etag (p_mu p), d)) ->
    etag (p_mu p) <> EmptyString ->
    etag (p_mu p) = cur_tag tag (w_gen w) ->
    current d = Ok content ->
    Marshal {| ID := EmptyString; Expires := None; Fence := Fence content |}
    = Ok newData ->
    moves w
      {| w_now := w_now w; w_gen := S (w_gen w); w_data := newData;
         w_procs :=
           set_nth i {| p_mu := set_etag (p_mu p) EmptyString;
                        p_call := NoCall; p_lease := None |}
             (w_procs w);
         w_tokens := w_tokens w |}.

End Invariants.


(** ** strings *)

Module strings.

(** [trimLeftByte(s, c)]. *)
Fixpoint trimLeftByte (s : string) (c : ascii) : string :=
  match s with
  | String a t => if Ascii.eqb a c then trimLeftByte t c else s
  | EmptyString => EmptyString
  end.

(** [trimRightByte(s, c)]. *)
Fixpoint trimRightByte (s : string) (c : ascii) : string :=
  match s with
  | EmptyString => EmptyString
  | String a t =>
    match trimRightByte t c with
    | EmptyString => if Ascii.eqb a c then EmptyString else String a EmptyString
    | t' => String a t'
    end
  end.

(** [Trim(s, cutset)] for a cutset of one ASCII byte, which is how both
    adapters call it. *)
Definition Trim (s : string) (c : ascii) : string :=
  trimLeftByte (trimRightByte s c) c.

End strings.

(** The first and the last byte of a string. *)
Definition first_byte (s : string) : option ascii :=
  match s with
  | EmptyString => None
  | String a _ => Some a
  end.

Fixpoint last_byte (s : string) : option ascii :=
  match s with
  | EmptyString => None
  | String a EmptyString => Some a
  | String _ t => last_byte t
  end.

(** What a call of an adapter comes to: it returns a tag, it returns an
    error, or it dereferences a nil pointer. *)
Inductive answer : Type :=
| Returns (tag : string)
| Fails (err : error)
| Panics.

(** ** provider/s3 *)

Module s3.

(** An error of the SDK: one in which [errors.As] finds a
    [smithy.APIError], with its [ErrorCode()], or any other error. *)
Inductive sdkError : Type :=
| APIError (code : string)
| OtherError (what : string).

(** The error of the SDK as the adapter hands it on, unchanged: an error
    of the storage client, with its code or its text. *)
Definition describe (e : sdkError) : string :=
  match e with
  | APIError code => code
  | OtherError what => what
  end.

Definition as_error (e : sdkError) : error := apiError (describe e).

(** [s3.GetObjectOutput]: the [ETag], a [*string], and what
    [io.ReadAll] makes of the [Body]. *)
Record GetObjectOutput : Type := {
  ETag : option string;
  Body : result string string
}.

(** [s3.PutObjectInput], with the [If-Match] header that the option
    function of the call adds to the request. *)
Record PutObjectInput : Type := {
  Bucket : string;
  Key : string;
  PutBody : string;
  ContentType : string;
  IfMatch : option string
}.

Record PutObjectOutput : Type := {
  NewETag : option string
}.

(** The client, by what it answers: a response, an error, or both, as
    the two results of the Go calls. *)
Record Client : Type := {
  GetObject : string -> string -> option GetObjectOutput * option sdkError;
  PutObject : PutObjectInput -> option PutObjectOutput * option sdkError
}.

(** What a call did: its answer, what the callback assigned if it ran,
    and the request for [PutObject] if one was sent. *)
Record run (V : Type) : Type := {
  answered : answer;
  assigned : option V;
  sent : option PutObjectInput
}.
Arguments answered {V} r.
Arguments assigned {V} r.
Arguments sent {V} r.

(** The test on the error of [GetObject]: only an API error other than
    [NoSuchKey] ends the call. *)
Definition get_fails (err : option sdkError) : option sdkError :=
  match err with
  | Some (APIError code) =>
    if negb (String.eqb code "NoSuchKey") then Some (APIError code) else None
  | _ => None
  end.

(** [func (p *Provider) AtomicUpdateObject(ctx, bucket, key, fn)]. *)
Definition AtomicUpdateObject {V : Type} (c : Client) (bucket key : string)
    (fn : UpdateObjectFunc V) : run V :=
  let '(getResp, err) := GetObject c bucket key in
  match get_fails err with
  | Some e => {| answered := Fails (as_error e); assigned := None; sent := None |}
  | None =>
    let currentETag :=
      match getResp with
      | Some r =>
        match ETag r with
        | Some t => strings.Trim t "034"
        | None => EmptyString
        end
      | None => EmptyString
      end in
    match (match getResp with Some r => Body r | None => Ok EmptyString end) with
    | Err what =>
      {| answered := Fails (apiError what); assigned := None; sent := None |}
    | Ok currentData =>
      match fn currentETag currentData with
      | (Err e, v) => {| answered := Fails e; assigned := Some v; sent := None |}
      | (Ok newData, v) =>
        let input := {| Bucket := bucket;
                        Key := key;
                        PutBody := newData;
                        ContentType := "application/json";
                        IfMatch := if String.eqb currentETag EmptyString
                                   then None else Some currentETag |} in
        let a :=
          match PutObject c input with
          | (_, Some (APIError code)) =>
            if String.eqb code "PreconditionFailed" then Fails ErrConflict
            else Fails (as_error (APIError code))
          | (_, Some (OtherError what)) => Fails (as_error (OtherError what))
          | (Some putResp, None) =>
            match NewETag putResp with
            | Some t => Returns (strings.Trim t "034")
            | None => Panics
            end
          | (None, None) => Panics
          end in
        {| answered := a; assigned := Some v; sent := Some input |}
      end
    end
  end.

(** The call in the terms of the provider's contract: what was read, and
    what became of the write of [newData]. *)
Definition read (c : Client) (bucket key : string)
    : result string (string * string) :=
  let '(getResp, err) := GetObject c bucket key in
  match get_fails err with
  | Some e => Err (describe e)
  | None =>
    match getResp with
    | Some r =>
      match Body r with
      | Err what => Err what
      | Ok data =>
        Ok (match ETag r with
            | Some t => strings.Trim t "034"
            | None => EmptyString
            end, data)
      end
    | None => Ok (EmptyString, EmptyString)
    end
  end.

Definition write (c : Client) (bucket key currentETag newData : string)
    : option put_outcome :=
  match PutObject c {| Bucket := bucket;
                       Key := key;
                       PutBody := newData;
                       ContentType := "application/json";
                       IfMatch := if String.eqb currentETag EmptyString
                                  then None else Some currentETag |} with
  | (_, Some (APIError code)) =>
    Some (if String.eqb code "PreconditionFailed" then PutPreconditionFailed
          else PutFailed code)
  | (_, Some (OtherError what)) => Some (PutFailed what)
  | (Some putResp, None) =>
    match NewETag putResp with
    | Some t => Some (PutOk (strings.Trim t "034"))
    | None => None
    end
  | (None, None) => None
  end.

End s3.

(** ** provider/gcs *)

Module gcs.

(** An error of the client: [storage.ErrObjectNotExist], a
    [*googleapi.Error] with its [Code], or any other error. *)
Inductive clientError : Type :=
| ErrObjectNotExist
| GoogleAPIError (code : Z) (what : string)
| OtherError (what : string).

(** The error of the client as the adapter hands it on, unchanged: an
    error of the storage client, with its text. *)
Definition describe (e : clientError) : string :=
  match e with
  | ErrObjectNotExist => "storage: object doesn't exist"
  | GoogleAPIError _ what => what
  | OtherError what => what
  end.

Definition as_error (e : clientError) : error := apiError (describe e).

(** [storage.ObjectAttrs], the two fields the adapter reads. *)
Record ObjectAttrs : Type := {
  Generation : Z;
  Etag : string
}.

(** [storage.Conditions], the field the adapter sets. *)
Record Conditions : Type := {
  GenerationMatch : Z
}.

(** The client, by what it answers to the calls of the adapter, in the
    order in which it makes them: [obj.Attrs], [obj.NewReader] with
    [io.ReadAll] on the reader if there is one, [writer.Write] and
    [writer.Close] for the bytes and the conditions given, and
    [obj.Attrs] once more. *)
Record Client : Type := {
  Attrs : option ObjectAttrs * option clientError;
  NewReader : option (result string string) * option clientError;
  Write : Conditions -> string -> option clientError;
  Close : Conditions -> string -> option clientError;
  AttrsAfter : option ObjectAttrs * option clientError
}.

(** What a call did: its answer, what the callback assigned if it ran,
    and the conditions and bytes of the write that [writer.Close]
    completed without an error, if there is one. *)
Record run (V : Type) : Type := {
  answered : answer;
  assigned : option V;
  committed : option (Conditions * string)
}.
Arguments answered {V} r.
Arguments assigned {V} r.
Arguments committed {V} r.

(** An error ends the call unless it is [storage.ErrObjectNotExist]. *)
Definition fails (err : option clientError) : option clientError :=
  match err with
  | Some ErrObjectNotExist => None
  | _ => err
  end.

(** [func (p *Provider) AtomicUpdateObject(ctx, bucket, key, fn)]. *)
Definition AtomicUpdateObject {V : Type} (c : Client) (fn : UpdateObjectFunc V)
    : run V :=
  let stop (a : answer) (v : option V) :=
    {| answered := a; assigned := v; committed := None |} in
  let '(attrs, err) := Attrs c in
  match fails err with
  | Some e => stop (Fails (as_error e)) None
  | None =>
    let currentGeneration :=
      match attrs with Some a => Generation a | None => 0 end in
    let currentETag :=
      match attrs with
      | Some a => strings.Trim (Etag a) "034"
      | None => EmptyString
      end in
    let '(reader, err) := NewReader c in
    match fails err with
    | Some e => stop (Fails (as_error e)) None
    | None =>
      match (match reader with Some r => r | None => Ok EmptyString end) with
      | Err what => stop (Fails (apiError what)) None
      | Ok currentData =>
        match fn currentETag currentData with
        | (Err e, v) => stop (Fails e) (Some v)
        | (Ok newData, v) =>
          let conds := {| GenerationMatch := currentGeneration |} in
          match Write c conds newData with
          | Some e => stop (Fails (as_error e)) (Some v)
          | None =>
            match Close c conds newData with
            | Some (GoogleAPIError code what) =>
              if code =? 412 then stop (Fails ErrConflict) (Some v)
              else stop (Fails (as_error (GoogleAPIError code what))) (Some v)
            | Some e => stop (Fails (as_error e)) (Some v)
            | None =>
              let a :=
                match AttrsAfter c with
                | (_, Some e) => Fails (as_error e)
                | (Some newAttrs, None) =>
                  Returns (strings.Trim (Etag newAttrs) "034")
                | (None, None) => Panics
                end in
              {| answered := a; assigned := Some v;
                 committed := Some (conds, newData) |}
            end
          end
        end
      end
    end
  end.

(** The call in the terms of the provider's contract: the generation
    the write is conditioned on, what was read, and what became of the
    write of [newData]. *)
Definition generation (c : Client) : Z :=
  match fst (Attrs c) with
  | Some a => Generation a
  | None => 0
  end.

Definition read (c : Client) : result string (string * string) :=
  let '(attrs, err) := Attrs c in
  match fails err with
  | Some e => Err (describe e)
  | None =>
    let '(reader, err) := NewReader c in
    match fails err with
    | Some e => Err (describe e)
    | None =>
      match (match reader with Some r => r | None => Ok EmptyString end) with
      | Err what => Err what
      | Ok data =>
        Ok (match attrs with
            | Some a => strings.Trim (Etag a) "034"
            | None => EmptyString
            end, data)
      end
    end
  end.

Definition write (c : Client) (newData : string) : option put_outcome :=
  let conds := {| GenerationMatch := generation c |} in
  match Write c conds newData with
  | Some e => Some (PutFailed (describe e))
  | None =>
    match Close c conds newData with
    | Some (GoogleAPIError code what) =>
      Some (if code =? 412 then PutPreconditionFailed else PutFailed what)
    | Some e => Some (PutFailed (describe e))
    | None =>
      match AttrsAfter c with
      | (_, Some e) => Some (PutOkAttrsFailed (describe e))
      | (Some newAttrs, None) =>
        Some (PutOk (strings.Trim (Etag newAttrs) "034"))
      | (None, None) => None
      end
    end
  end.

End gcs.

(** The answer of an adapter that does not panic, from what the provider
    returns. *)
Definition answer_of (r : result error string) : answer :=
  match r with
  | Ok tag => Returns tag
  | Err e => Fails e
  end.

(** The answer to a callback that returned bytes, from what became of
    their write; no outcome is a panic. *)
Definition put_answer (put : option put_outcome) : answer :=
  match put with
  | Some (PutOk tag) => Returns tag
  | Some PutPreconditionFailed => Fails ErrConflict
  | Some (PutFailed code) => Fails (apiError code)
  | Some (PutOkAttrsFailed code) => Fails (apiError code)
  | None => Panics
  end.

(** A string that neither starts nor ends with a double quote. *)
Definition unquoted (s : string) : Prop :=
  first_byte s <> Some "034"%char /\ last_byte s <> Some "034"%char.

(** *** More on the world *)

Section Holders.

Variable tag : nat -> string.


End Holders.

(** A whole call of [TryLock] by handle [i] with no other step in
    between and no failure of the storage, and a whole call of
    [Unlock]. *)
Definition tryLock_alone (i : nat) (expiresIn : time.Duration) : list event :=
  [BeginTryLock i expiresIn None; Now i; Now i; Commit i None].

Definition unlock_alone (i : nat) : list event :=
  [BeginUnlock i None; Commit i None].

(** The attempts of a run of [Lock] that are refused: the lock is not
    acquired and no error is returned. *)
Definition refused (mu : Mutex) (expiresIn : time.Duration) (a : attempt)
    : Prop :=
  result_of (TryLock mu expiresIn a) = (false, -1, None).
(** * Properties *)

(** ** Bytes and strings *)

Lemma byte_range (a : ascii) : 0 <= byte a < 256.
Proof.
  unfold byte. pose proof (N_ascii_bounded a). lia.
Qed.

Lemma chr_byte (a : ascii) : chr (byte a) = a.
Proof.
  unfold chr, byte. rewrite N2Z.id. apply ascii_N_embedding.
Qed.

Lemma byte_chr (z : Z) : 0 <= z < 256 -> byte (chr z) = z.
Proof.
  intros H. unfold chr, byte. rewrite N_ascii_embedding by lia. lia.
Qed.

Lemma byte_inj (a b : ascii) : byte a = byte b -> a = b.
Proof.
  intros H. rewrite <- (chr_byte a), <- (chr_byte b), H. reflexivity.
Qed.

Lemma append_assoc (a b c : string) : (a ++ b) ++ c = a ++ (b ++ c).
Proof.
  induction a as [|x a IH]; simpl; [reflexivity|]. rewrite IH. reflexivity.
Qed.

Lemma append_nil_r (a : string) : a ++ EmptyString = a.
Proof.
  induction a as [|x a IH]; simpl; [reflexivity|]. rewrite IH. reflexivity.
Qed.

Lemma length_append (a b : string) :
  String.length (a ++ b) = (String.length a + String.length b)%nat.
Proof.
  induction a as [|x a IH]; simpl; [reflexivity|]. rewrite IH. reflexivity.
Qed.

Lemma length_drop (n : nat) (s : string) :
  String.length (drop n s) = (String.length s - n)%nat.
Proof.
  revert s. induction n as [|n IH]; intros s; simpl.
  - lia.
  - destruct s as [|a t]; simpl; [reflexivity|]. apply IH.
Qed.

Lemma take_drop (n : nat) (s : string) : take n s ++ drop n s = s.
Proof.
  revert s. induction n as [|n IH]; intros s; simpl; [reflexivity|].
  destruct s as [|a t]; simpl; [reflexivity|]. rewrite IH. reflexivity.
Qed.

(** ** Decimal digits *)

Lemma digit_spec (d : Z) :
  0 <= d < 10 ->
  strconv.isDigit (strconv.digit d) = true
  /\ strconv.digit_val (strconv.digit d) = d.
Proof.
  intros H. unfold strconv.isDigit, strconv.digit_val, strconv.digit.
  rewrite byte_chr by lia. split; [|lia].
  apply andb_true_iff. split; apply Z.leb_le; lia.
Qed.

Lemma parse_digits_app (s1 s2 : string) (acc : Z) :
  strconv.parse_digits acc (s1 ++ s2)
  = match strconv.parse_digits acc s1 with
    | Some v => strconv.parse_digits v s2
    | None => None
    end.
Proof.
  revert acc. induction s1 as [|a s1 IH]; intros acc; simpl; [reflexivity|].
  destruct (strconv.isDigit a); [apply IH|reflexivity].
Qed.

(** The digits [digits_fuel] puts in front of [acc] read back as the
    number, whatever was read before. *)
Lemma parse_digits_fuel (fuel : nat) :
  forall n acc a,
    0 <= n < 10 ^ Z.of_nat fuel ->
    exists k,
      0 <= k
      /\ strconv.parse_digits a (strconv.digits_fuel fuel n acc)
         = strconv.parse_digits (a * 10 ^ k + n) acc.
Proof.
  induction fuel as [|fuel IH]; intros n acc a Hn.
  - simpl in Hn. exists 0. split; [lia|]. simpl.
    replace (a * 1 + n) with a by lia. reflexivity.
  - cbn [strconv.digits_fuel].
    assert (Hm : 0 <= n mod 10 < 10) by (apply Z.mod_pos_bound; lia).
    destruct (digit_spec _ Hm) as [Hd Hv].
    destruct (Z.ltb_spec n 10) as [Hlt|Hge].
    + exists 1. split; [lia|]. simpl. rewrite Hd, Hv.
      rewrite Z.mod_small by lia. f_equal; lia.
    + assert (Hq : 0 <= n / 10 < 10 ^ Z.of_nat fuel).
      { rewrite Nat2Z.inj_succ, Z.pow_succ_r in Hn by lia.
        split; [apply Z.div_pos; lia|].
        apply Z.div_lt_upper_bound; lia. }
      destruct (IH (n / 10) (String (strconv.digit (n mod 10)) acc) a Hq)
        as [k [Hk Hp]].
      exists (k + 1). split; [lia|]. rewrite Hp. simpl. rewrite Hd, Hv.
      f_equal. rewrite Z.pow_add_r by lia.
      pose proof (Z.div_mod n 10). lia.
Qed.

Lemma parse_FormatUint (n : Z) :
  0 <= n < 10 ^ 20 ->
  strconv.parse_digits 0 (strconv.FormatUint n) = Some n.
Proof.
  intros H. unfold strconv.FormatUint.
  destruct (parse_digits_fuel 20 n EmptyString 0 H) as [k [_ Hp]].
  rewrite Hp. simpl. f_equal; lia.
Qed.

(** [digits_fuel] puts at least one digit in front of [acc], and the first
    is not a zero unless the number is. *)
Lemma digits_fuel_shape (fuel : nat) :
  forall n acc,
    0 <= n < 10 ^ Z.of_nat (S fuel) ->
    exists d ds,
      strconv.digits_fuel (S fuel) n acc = String (strconv.digit d) (ds ++ acc)
      /\ 0 <= d < 10 /\ (0 < n -> 0 < d)
      /\ (forall a, strconv.parse_digits a ds <> None).
Proof.
  induction fuel as [|fuel IH]; intros n acc Hn.
  - cbn [strconv.digits_fuel].
    change (10 ^ Z.of_nat 1) with 10 in Hn.
    exists n, EmptyString.
    rewrite Z.mod_small by lia.
    destruct (n <? 10); repeat split; try lia; simpl; discriminate.
  - cbn [strconv.digits_fuel].
    assert (Hm : 0 <= n mod 10 < 10) by (apply Z.mod_pos_bound; lia).
    destruct (Z.ltb_spec n 10) as [Hlt|Hge].
    + exists n, EmptyString. rewrite Z.mod_small by lia.
      repeat split; try lia; simpl; discriminate.
    + assert (Hq : 0 <= n / 10 < 10 ^ Z.of_nat (S fuel)).
      { rewrite (Nat2Z.inj_succ (S fuel)), Z.pow_succ_r in Hn by lia.
        split; [apply Z.div_pos; lia|].
        apply Z.div_lt_upper_bound; lia. }
      destruct (IH (n / 10) (String (strconv.digit (n mod 10)) acc) Hq)
        as [d [ds [He [Hd [Hpos Hds]]]]].
      exists d, (ds ++ String (strconv.digit (n mod 10)) EmptyString).
      split; [|split; [|split]].
      * change (strconv.digits_fuel (S fuel) (n / 10)
                  (String (strconv.digit (n mod 10)) acc)
                = String (strconv.digit d)
                    ((ds ++ String (strconv.digit (n mod 10)) EmptyString) ++ acc)).
        rewrite He, append_assoc. reflexivity.
      * exact Hd.
      * intros _. apply Hpos.
        assert (1 <= n / 10) by (apply Z.div_le_lower_bound; lia). lia.
      * intros a. rewrite parse_digits_app.
        destruct (strconv.parse_digits a ds) as [v|] eqn:Hv.
        -- simpl. rewrite (proj1 (digit_spec _ Hm)). discriminate.
        -- exfalso. exact (Hds a Hv).
Qed.

Ltac digit_cases d :=
  let Hc := fresh "Hc" in
  assert (Hc : d = 0 \/ d = 1 \/ d = 2 \/ d = 3 \/ d = 4 \/ d = 5 \/ d = 6
               \/ d = 7 \/ d = 8 \/ d = 9) by lia;
  destruct Hc as [Hc|[Hc|[Hc|[Hc|[Hc|[Hc|[Hc|[Hc|[Hc|Hc]]]]]]]]]; subst d.


Lemma scan_number_digits (ds r : string) :
  (forall a, strconv.parse_digits a ds <> None) ->
  ends_number r ->
  json.scan_number json.Num1 (ds ++ r) = Some (ds, r).
Proof.
  intros Hds [r' Hr].
  induction ds as [|a ds IH].
  - destruct Hr; subst; reflexivity.
  - assert (Ha : strconv.isDigit a = true).
    { specialize (Hds 0). simpl in Hds.
      destruct (strconv.isDigit a); [reflexivity|congruence]. }
    assert (Hds' : forall x, strconv.parse_digits x ds <> None).
    { intros x Hx.
      apply (Hds ((x - strconv.digit_val a) / 10 * 10 + 0)).
      simpl. rewrite Ha.
      (* any accumulator reads the same digits *)
      clear - Hx. revert Hx.
      generalize (((x - strconv.digit_val a) / 10 * 10 + 0) * 10
                  + strconv.digit_val a).
      revert x. induction ds as [|b ds IH]; intros x y; simpl.
      - discriminate.
      - destruct (strconv.isDigit b); [|reflexivity]. apply IH. }
    cbn [append json.scan_number].
    unfold strconv.isDigit in Ha. unfold json.numStep.
    rewrite Ha. rewrite (IH Hds'). reflexivity.
Qed.

Lemma FormatUint_shape (n : Z) :
  0 <= n < 10 ^ 20 ->
  exists d ds,
    strconv.FormatUint n = String (strconv.digit d) ds
    /\ 0 <= d < 10 /\ (0 < n -> 0 < d) /\ (n = 0 -> ds = EmptyString)
    /\ (forall a, strconv.parse_digits a ds <> None).
Proof.
  intros H. unfold strconv.FormatUint.
  destruct (digits_fuel_shape 19 n EmptyString H) as [d [ds [He [Hd [Hp Hds]]]]].
  exists d, ds. rewrite He, append_nil_r.
  repeat split; try lia; try assumption.
  intros Hz. subst n. simpl in He. inversion He as [[H1 H2]].
  destruct ds; [reflexivity|discriminate].
Qed.

Lemma int64_bounds (z : Z) :
  int64_ok z -> 0 <= Z.abs z < 10 ^ 20.
Proof.
  unfold int64_ok, strconv.MinInt64, strconv.MaxInt64. intros H.
  change (10 ^ 20) with 100000000000000000000. lia.
Qed.

Lemma ParseInt_digit (d : Z) (ds : string) :
  0 <= d < 10 ->
  strconv.ParseInt (String (strconv.digit d) ds)
  = match strconv.parse_digits 0 (String (strconv.digit d) ds) with
    | Some v =>
      if (strconv.MinInt64 <=? v) && (v <=? strconv.MaxInt64) then Some v
      else None
    | None => None
    end.
Proof.
  intros Hd. digit_cases d; reflexivity.
Qed.

Lemma ParseInt_FormatInt (z : Z) :
  int64_ok z -> strconv.ParseInt (strconv.FormatInt z) = Some z.
Proof.
  intros Hz. pose proof (int64_bounds z Hz) as Hb.
  assert (Hr : forall v, int64_ok v ->
             (strconv.MinInt64 <=? v) && (v <=? strconv.MaxInt64) = true).
  { intros v [H1 H2]. apply andb_true_iff. split; apply Z.leb_le; assumption. }
  unfold strconv.FormatInt.
  destruct (Z.ltb_spec z 0) as [Hneg|Hpos].
  - assert (Hn : 0 <= - z < 10 ^ 20) by lia.
    destruct (FormatUint_shape _ Hn) as [d [ds [He [Hd _]]]].
    unfold strconv.ParseInt.
    pose proof (parse_FormatUint _ Hn) as Hp. rewrite He in *.
    rewrite Hp. replace (- - z) with z by lia. rewrite (Hr z Hz). reflexivity.
  - assert (Hn : 0 <= z < 10 ^ 20) by lia.
    destruct (FormatUint_shape _ Hn) as [d [ds [He [Hd _]]]].
    pose proof (parse_FormatUint _ Hn) as Hp. rewrite He in *.
    rewrite (ParseInt_digit d ds Hd), Hp, (Hr z Hz). reflexivity.
Qed.

(** The scanner reads a formatted [int64] as one number, up to the brace
    or comma that follows it. *)
Lemma scan_number_FormatInt (z : Z) (r : string) :
  int64_ok z -> ends_number r ->
  json.scan_number json.NumBegin (strconv.FormatInt z ++ r)
  = Some (strconv.FormatInt z, r).
Proof.
  intros Hz Hr. pose proof (int64_bounds z Hz) as Hb.
  assert (Hstep : forall d ds st,
             0 < d < 10 ->
             (st = json.NumBegin \/ st = json.NumNeg) ->
             (forall a, strconv.parse_digits a ds <> None) ->
             json.scan_number st (String (strconv.digit d) ds ++ r)
             = Some (String (strconv.digit d) ds, r)).
  { intros d ds st Hd Hst Hds.
    pose proof (scan_number_digits ds r Hds Hr) as Hs.
    destruct Hst; subst st; digit_cases d; try lia;
      cbn [append json.scan_number]; simpl json.numStep; cbv iota;
      rewrite Hs; reflexivity. }
  unfold strconv.FormatInt.
  destruct (Z.ltb_spec z 0) as [Hneg|Hpos].
  - assert (Hn : 0 <= - z < 10 ^ 20) by lia.
    destruct (FormatUint_shape _ Hn) as [d [ds [He [Hd [Hp [_ Hds]]]]]].
    rewrite He.
    change (json.scan_number json.NumBegin
              (String "-" (String (strconv.digit d) ds) ++ r))
      with (match json.scan_number json.NumNeg
                    (String (strconv.digit d) ds ++ r) with
            | Some (lit, rest) => Some (String "-" lit, rest)
            | None => None
            end).
    rewrite Hstep; auto; lia.
  - assert (Hn : 0 <= z < 10 ^ 20) by lia.
    destruct (FormatUint_shape _ Hn) as [d [ds [He [Hd [Hp [Hz0 Hds]]]]]].
    rewrite He.
    destruct (Z.eq_dec z 0) as [->|Hnz].
    + rewrite (Hz0 eq_refl). assert (d = 0).
      { simpl in He. rewrite (Hz0 eq_refl) in He.
        unfold strconv.FormatUint in He. simpl in He.
        inversion He as [Hd0]. clear - Hd Hd0.
        digit_cases d; try reflexivity; discriminate. }
      subst d. destruct Hr as [r' [Hr|Hr]]; subst r; reflexivity.
    + apply Hstep; auto; lia.
Qed.

(** A formatted [int64] does not start with white space, and is not
    [null]. *)
Lemma FormatInt_head (z : Z) (r : string) :
  int64_ok z ->
  json.skip_ws (strconv.FormatInt z ++ r) = strconv.FormatInt z ++ r
  /\ is_null (strconv.FormatInt z ++ r) = None.
Proof.
  intros Hz. pose proof (int64_bounds z Hz) as Hb.
  unfold strconv.FormatInt.
  destruct (Z.ltb_spec z 0) as [Hneg|Hpos].
  - split; reflexivity.
  - assert (Hn : 0 <= z < 10 ^ 20) by lia.
    destruct (FormatUint_shape _ Hn) as [d [ds [He [Hd _]]]].
    rewrite He. digit_cases d; split; reflexivity.
Qed.

(** ** UTF-8 *)

Ltac zhyp :=
  repeat match goal with
  | H : (_ || _) = false |- _ => apply orb_false_iff in H; destruct H
  | H : (_ && _) = true |- _ => apply andb_true_iff in H; destruct H
  | H : negb _ = false |- _ => apply negb_false_iff in H
  | H : negb _ = true |- _ => apply negb_true_iff in H
  | H : (_ <? _) = true |- _ => apply Z.ltb_lt in H
  | H : (_ <? _) = false |- _ => apply Z.ltb_ge in H
  | H : (_ <=? _) = true |- _ => apply Z.leb_le in H
  | H : (_ <=? _) = false |- _ => apply Z.leb_gt in H
  | H : (_ =? _) = true |- _ => apply Z.eqb_eq in H
  | H : (_ =? _) = false |- _ => apply Z.eqb_neq in H
  end.

Ltac dlia := Z.to_euclidean_division_equations; lia.

(** Settles the comparisons of the goal that the context decides. *)
Ltac zbool :=
  repeat match goal with
  | |- context [?x <? ?y] =>
    first [rewrite (proj2 (Z.ltb_lt x y)) by dlia
          |rewrite (proj2 (Z.ltb_ge x y)) by dlia]
  | |- context [?x <=? ?y] =>
    first [rewrite (proj2 (Z.leb_le x y)) by dlia
          |rewrite (proj2 (Z.leb_gt x y)) by dlia]
  | |- context [?x =? ?y] =>
    first [rewrite (proj2 (Z.eqb_eq x y)) by dlia
          |rewrite (proj2 (Z.eqb_neq x y)) by dlia]
  end.

Lemma chr_eq (z : Z) (a : ascii) : z = byte a -> chr z = a.
Proof. intros ->. apply chr_byte. Qed.

Lemma decode_high (a : ascii) (t : string) :
  128 <= byte a ->
  let '(c, n) := utf8.DecodeRuneInString (String a t) in
  (c = utf8.RuneError /\ n = 1%nat) \/ decodes (String a t) c n.
Proof.
  intros Ha. pose proof (byte_range a) as Ra.
  unfold utf8.DecodeRuneInString.
  rewrite (proj2 (Z.ltb_ge (byte a) 128)) by lia.
  destruct ((byte a <? 194) || (244 <? byte a)) eqn:H0; [left; auto|].
  assert (Hr0 : 194 <= byte a <= 244) by (zhyp; lia).
  clear H0.
  destruct t as [|a1 t1]; [left; auto|].
  pose proof (byte_range a1) as R1.
  destruct ((byte a1 <? utf8.accept_lo (byte a))
            || (utf8.accept_hi (byte a) <? byte a1)) eqn:H1; [left; auto|].
  unfold utf8.accept_lo, utf8.accept_hi in H1.
  assert (Hr1 : 128 <= byte a1 <= 191
                /\ (byte a = 224 -> 160 <= byte a1)
                /\ (byte a = 240 -> 144 <= byte a1)
                /\ (byte a = 237 -> byte a1 <= 159)
                /\ (byte a = 244 -> byte a1 <= 143)).
  { destruct (Z.eqb_spec (byte a) 224); destruct (Z.eqb_spec (byte a) 240);
      destruct (Z.eqb_spec (byte a) 237); destruct (Z.eqb_spec (byte a) 244);
      zhyp; lia. }
  clear H1. destruct Hr1 as [Hr1 [He0 [Hf0 [Hed Hf4]]]].
  destruct (Z.ltb_spec (byte a) 224) as [H2|H2].
  { right. unfold decodes. cbn [take String.length].
    assert (Hc : 128 <= (byte a - 192) * 64 + (byte a1 - 128) <= 2047) by lia.
    repeat split; try lia.
    - unfold utf8.EncodeRune. zbool. cbn [andb orb].
      f_equal; [|f_equal]; apply chr_eq; dlia.
    - unfold high. cbn [every]. zbool. reflexivity.
    - cbn [append]. unfold utf8.DecodeRuneInString.
      unfold utf8.accept_lo, utf8.accept_hi.
      destruct (Z.eqb_spec (byte a) 224); destruct (Z.eqb_spec (byte a) 240);
        destruct (Z.eqb_spec (byte a) 237); destruct (Z.eqb_spec (byte a) 244);
        try lia; zbool; reflexivity. }
  destruct t1 as [|a2 t2]; [left; auto|].
  pose proof (byte_range a2) as R2.
  destruct (negb (utf8.cont (byte a2))) eqn:H3; [left; auto|].
  unfold utf8.cont in H3. zhyp.
  destruct (Z.ltb_spec (byte a) 240) as [H5|H5].
  { right. unfold decodes. cbn [take String.length].
    set (c := (byte a - 224) * 4096 + (byte a1 - 128) * 64 + (byte a2 - 128)).
    assert (Hc : 2048 <= c <= 65535 /\ ~ (55296 <= c <= 57343)).
    { subst c. lia. }
    repeat split; try lia.
    - unfold utf8.EncodeRune, utf8.MaxRune. zbool. cbn [andb orb].
      destruct ((55296 <=? c) && (c <=? 57343)) eqn:Hs.
      { zhyp. lia. }
      unfold utf8.encode3.
      f_equal; [|f_equal; [|f_equal]]; apply chr_eq; subst c; dlia.
    - unfold high. cbn [every]. zbool. reflexivity.
    - cbn [append]. unfold utf8.DecodeRuneInString.
      unfold utf8.accept_lo, utf8.accept_hi, utf8.cont.
      destruct (Z.eqb_spec (byte a) 224); destruct (Z.eqb_spec (byte a) 240);
        destruct (Z.eqb_spec (byte a) 237); destruct (Z.eqb_spec (byte a) 244);
        try lia; zbool; reflexivity. }
  destruct t2 as [|a3 t3]; [left; auto|].
  pose proof (byte_range a3) as R3.
  destruct (negb (utf8.cont (byte a3))) eqn:H6; [left; auto|].
  unfold utf8.cont in H6. zhyp.
  right. unfold decodes. cbn [take String.length].
  set (c := (byte a - 240) * 262144 + (byte a1 - 128) * 4096
            + (byte a2 - 128) * 64 + (byte a3 - 128)).
  assert (Hc : 65536 <= c <= 1114111).
  { subst c. lia. }
  repeat split; try lia.
  - unfold utf8.EncodeRune, utf8.MaxRune. zbool. cbn [andb orb].
    f_equal; [|f_equal; [|f_equal; [|f_equal]]]; apply chr_eq; subst c; dlia.
  - unfold high. cbn [every]. zbool. reflexivity.
  - cbn [append]. unfold utf8.DecodeRuneInString.
    unfold utf8.accept_lo, utf8.accept_hi, utf8.cont.
    destruct (Z.eqb_spec (byte a) 224); destruct (Z.eqb_spec (byte a) 240);
      destruct (Z.eqb_spec (byte a) 237); destruct (Z.eqb_spec (byte a) 244);
      try lia; zbool; reflexivity.
Qed.
(** ** JSON strings *)

Ltac ascii_cases a := destruct a as [[] [] [] [] [] [] [] []].

(** An ASCII byte, as [appendString] writes it, goes through the scanner
    and is read back by [unquote] as the byte it was. *)
Lemma escape_ascii (a : ascii) :
  (byte a <? 128) = true ->
  (forall x, json.scan_string json.InString (json.escape a ++ x)
             = kept (json.escape a) (json.scan_string json.InString x))
  /\ (forall g x, json.unquote_fuel (S g) (json.escape a ++ x)
                  = with_prefix (String a EmptyString) (json.unquote_fuel g x))
  /\ (1 <= String.length (json.escape a))%nat.
Proof.
  intros Ha.
  ascii_cases a; try discriminate Ha;
    (split;
     [intros x; cbv [json.escape]; cbn;
      destruct (json.scan_string json.InString x) as [[? ?]|]; reflexivity
     |split;
      [intros g x; cbv [json.escape]; cbn;
       destruct (json.unquote_fuel g x); reflexivity
      |cbv; lia]]).
Qed.

Lemma kept_kept (w1 w2 : string) (r : option (string * string)) :
  kept w1 (kept w2 r) = kept (w1 ++ w2) r.
Proof.
  destruct r as [[raw rest]|]; simpl; [|reflexivity].
  rewrite append_assoc. reflexivity.
Qed.

Lemma with_prefix_twice (w1 w2 : string) (r : option string) :
  with_prefix w1 (with_prefix w2 r) = with_prefix (w1 ++ w2) r.
Proof.
  destruct r as [v|]; simpl; [|reflexivity].
  rewrite append_assoc. reflexivity.
Qed.

(** Bytes that are no ASCII go through the scanner untouched. *)
Lemma scan_string_high (w x : string) :
  every high w = true ->
  json.scan_string json.InString (w ++ x)
  = kept w (json.scan_string json.InString x).
Proof.
  induction w as [|a w IH]; intros Hw.
  - simpl. destruct (json.scan_string json.InString x) as [[? ?]|]; reflexivity.
  - cbn [every] in Hw. apply andb_true_iff in Hw. destruct Hw as [Ha Hw].
    unfold high in Ha. apply Z.leb_le in Ha.
    cbn [append json.scan_string]. zbool.
    rewrite (IH Hw).
    destruct (json.scan_string json.InString x) as [[? ?]|]; reflexivity.
Qed.

(** A well-formed encoding is read back by [unquote] as it stands. *)
Lemma unquote_decodes (a : ascii) (t : string) (c : Z) (n : nat) (g : nat)
    (x : string) :
  128 <= byte a ->
  decodes (String a t) c n ->
  json.unquote_fuel (S g) (take n (String a t) ++ x)
  = with_prefix (take n (String a t)) (json.unquote_fuel g x).
Proof.
  intros Ha [Henc [Hlen [Hn [Hhigh [Hc Hq]]]]].
  destruct (Hq x) as [Hdec Hdrop].
  destruct n as [|n]; [lia|].
  cbn [take] in *. cbn [append] in *.
  cbn [json.unquote_fuel]. unfold utf8.RuneSelf. zbool. cbn [orb].
  rewrite Hdec, Hdrop, Henc.
  destruct (json.unquote_fuel g x); reflexivity.
Qed.

(** The escape that stands for a byte that is no part of a well-formed
    encoding. *)
Lemma replacement_escape :
  (forall x, json.scan_string json.InString ("\ufffd" ++ x)
             = kept "\ufffd" (json.scan_string json.InString x))
  /\ (forall g x, json.unquote_fuel (S g) ("\ufffd" ++ x)
                  = with_prefix (utf8.encode3 utf8.RuneError)
                      (json.unquote_fuel g x)).
Proof.
  split.
  - intros x. cbn.
    destruct (json.scan_string json.InString x) as [[? ?]|]; reflexivity.
  - intros g x. cbn. destruct (json.unquote_fuel g x); reflexivity.
Qed.

(** The escapes of U+2028 and U+2029. *)
Lemma separator_escape (c : Z) :
  c = 8232 \/ c = 8233 ->
  (forall x, json.scan_string json.InString
               ("\u202" ++ String (json.hex (c mod 16)) x)
             = kept ("\u202" ++ String (json.hex (c mod 16)) EmptyString)
                 (json.scan_string json.InString x))
  /\ (forall g x, json.unquote_fuel (S g)
                    ("\u202" ++ String (json.hex (c mod 16)) x)
                  = with_prefix (utf8.EncodeRune c) (json.unquote_fuel g x)).
Proof.
  intros [->| ->]; split.
  - intros x. cbn.
    destruct (json.scan_string json.InString x) as [[? ?]|]; reflexivity.
  - intros g x. cbn. destruct (json.unquote_fuel g x); reflexivity.
  - intros x. cbn.
    destruct (json.scan_string json.InString x) as [[? ?]|]; reflexivity.
  - intros g x. cbn. destruct (json.unquote_fuel g x); reflexivity.
Qed.

(** The text [appendString] writes for [s] goes through the scanner up to
    the closing quote, and [unquote] reads it back as [s] coerced to
    well-formed UTF-8. *)
Lemma quote_fuel_spec (fuel : nat) :
  forall s,
    (String.length s <= fuel)%nat ->
    (forall x, json.scan_string json.InString
                 (json.quote_fuel fuel s ++ String "034" x)
               = Some (json.quote_fuel fuel s, x))
    /\ (forall g, (String.length (json.quote_fuel fuel s) <= g)%nat ->
                  json.unquote_fuel g (json.quote_fuel fuel s)
                  = Some (utf8.coerce_fuel fuel s)).
Proof.
  induction fuel as [|fuel IH]; intros s Hlen.
  - destruct s; [|simpl in Hlen; lia]. split.
    + intros x. reflexivity.
    + intros g _. destruct g; reflexivity.
  - destruct s as [|a t].
    { split; [intros x; reflexivity|intros g _; destruct g; reflexivity]. }
    cbn [String.length] in Hlen.
    cbn [json.quote_fuel utf8.coerce_fuel]. unfold utf8.RuneSelf.
    destruct (byte a <? 128) eqn:Ha.
    + destruct (escape_ascii a Ha) as [Hs [Hu Hl]].
      destruct (IH t ltac:(lia)) as [IHs IHu].
      split.
      * intros x. rewrite append_assoc, Hs, IHs. reflexivity.
      * intros g Hg. rewrite length_append in Hg.
        destruct g as [|g]; [lia|].
        rewrite Hu, IHu by lia. reflexivity.
    + apply Z.ltb_ge in Ha.
      pose proof (decode_high a t Ha) as Hd.
      destruct (utf8.DecodeRuneInString (String a t)) as [c n].
      destruct Hd as [[Hc Hn]|Hd].
      * subst c n. cbn [Z.eqb Nat.eqb andb].
        change ((utf8.RuneError =? utf8.RuneError) && true) with true.
        cbv iota.
        destruct replacement_escape as [Hs Hu].
        destruct (IH t ltac:(lia)) as [IHs IHu].
        split.
        -- intros x. rewrite append_assoc, Hs, IHs. reflexivity.
        -- intros g Hg. rewrite length_append in Hg.
           destruct g as [|g]; [simpl in Hg; lia|].
           rewrite Hu, IHu by (simpl in Hg; lia). reflexivity.
      * pose proof Hd as [Henc [Hl [Hn2 [Hhigh [Hc Hq]]]]].
        assert (Ht : (c =? utf8.RuneError) && Nat.eqb n 1 = false).
        { destruct n as [|[|n]]; try lia. simpl. apply andb_false_r. }
        rewrite Ht.
        assert (Hlen' : (String.length (drop n (String a t)) <= fuel)%nat).
        { rewrite length_drop. cbn [String.length]. lia. }
        destruct (IH _ Hlen') as [IHs IHu].
        destruct ((c =? 8232) || (c =? 8233)) eqn:Hsep.
        -- assert (Hc' : c = 8232 \/ c = 8233).
           { apply orb_true_iff in Hsep. destruct Hsep as [H|H];
               apply Z.eqb_eq in H; auto. }
           destruct (separator_escape c Hc') as [Hs Hu].
           split.
           ++ intros x.
              change (("\u202" ++ String (json.hex (c mod 16))
                         (json.quote_fuel fuel (drop n (String a t))))
                      ++ String "034" x)
                with ("\u202" ++ String (json.hex (c mod 16))
                        (json.quote_fuel fuel (drop n (String a t))
                         ++ String "034" x)).
              rewrite Hs, IHs. reflexivity.
           ++ intros g Hg.
              destruct g as [|g]; [simpl in Hg; lia|].
              rewrite Hu, IHu by (simpl in Hg; lia).
              rewrite Henc. reflexivity.
        -- split.
           ++ intros x. rewrite append_assoc, (scan_string_high _ _ Hhigh), IHs.
              reflexivity.
           ++ intros g Hg. rewrite length_append in Hg.
              destruct g as [|g]; [lia|].
              rewrite (unquote_decodes a t c n g _ Ha Hd), IHu by lia.
              reflexivity.
Qed.

(** A string that is well-formed UTF-8 is its own coercion. *)
Lemma coerce_fuel_valid (fuel : nat) :
  forall s,
    (String.length s <= fuel)%nat ->
    utf8.valid_fuel fuel s = true ->
    utf8.coerce_fuel fuel s = s.
Proof.
  induction fuel as [|fuel IH]; intros s Hlen Hv.
  - destruct s; [reflexivity|simpl in Hlen; lia].
  - destruct s as [|a t]; [reflexivity|].
    cbn [String.length] in Hlen.
    cbn [utf8.valid_fuel utf8.coerce_fuel] in *.
    destruct (byte a <? 128) eqn:Ha.
    + rewrite IH by (assumption || lia). reflexivity.
    + apply Z.ltb_ge in Ha.
      pose proof (decode_high a t Ha) as Hd.
      destruct (utf8.DecodeRuneInString (String a t)) as [c n].
      destruct ((c =? utf8.RuneError) && Nat.eqb n 1) eqn:Ht; [discriminate|].
      destruct Hd as [[Hc Hn]|Hd].
      { subst. discriminate. }
      destruct Hd as [_ [_ [Hn2 _]]].
      rewrite IH.
      * apply take_drop.
      * rewrite length_drop. cbn [String.length]. lia.
      * exact Hv.
Qed.

Lemma coerce_valid (s : string) :
  utf8.ValidString s = true -> utf8.coerce s = s.
Proof.
  intros H. apply coerce_fuel_valid; [lia|exact H].
Qed.

(** What the scanner and [unquote] make of a quoted string. *)
Lemma appendString_spec (s x : string) :
  exists raw,
    json.appendString s ++ x = String "034" (raw ++ String "034" x)
    /\ json.scan_string json.InString (raw ++ String "034" x) = Some (raw, x)
    /\ json.unquote raw = Some (utf8.coerce s).
Proof.
  exists (json.quote_fuel (String.length s) s).
  destruct (quote_fuel_spec (String.length s) s (le_n _)) as [Hs Hu].
  split; [|split].
  - unfold json.appendString. cbn [append]. rewrite append_assoc. reflexivity.
  - apply Hs.
  - unfold json.unquote, utf8.coerce. apply Hu. lia.
Qed.
(** ** Timestamps *)

Lemma every_app (P : ascii -> bool) (a b : string) :
  every P (a ++ b) = every P a && every P b.
Proof.
  induction a as [|x a IH]; simpl; [reflexivity|].
  rewrite IH, andb_assoc. reflexivity.
Qed.

Lemma scan_string_plain (w x : string) :
  every plain w = true ->
  json.scan_string json.InString (w ++ x)
  = kept w (json.scan_string json.InString x).
Proof.
  induction w as [|a w IH]; intros Hw.
  - simpl. destruct (json.scan_string json.InString x) as [[? ?]|]; reflexivity.
  - cbn [every] in Hw. apply andb_true_iff in Hw. destruct Hw as [Ha Hw].
    unfold plain in Ha. zhyp.
    cbn [append json.scan_string]. zbool.
    rewrite (IH Hw).
    destruct (json.scan_string json.InString x) as [[? ?]|]; reflexivity.
Qed.

Lemma digit_plain (d : Z) : 0 <= d < 10 -> plain (strconv.digit d) = true.
Proof.
  intros H. unfold plain, strconv.digit. rewrite byte_chr by lia.
  zbool. reflexivity.
Qed.

Lemma fixed_plain (w : nat) (x : Z) : every plain (strconv.fixed w x) = true.
Proof.
  revert x. induction w as [|w IH]; intros x; [reflexivity|].
  cbn [strconv.fixed]. rewrite every_app, IH. cbn [every].
  rewrite digit_plain by (apply Z.mod_pos_bound; lia). reflexivity.
Qed.

Lemma take_digits_fixed (w : nat) :
  forall x acc k r,
    0 <= x < 10 ^ Z.of_nat w ->
    strconv.take_digits (w + k) acc (strconv.fixed w x ++ r)
    = strconv.take_digits k (acc * 10 ^ Z.of_nat w + x) r.
Proof.
  induction w as [|w IH]; intros x acc k r Hx.
  - simpl in *. f_equal. lia.
  - cbn [strconv.fixed]. rewrite append_assoc.
    replace (S w + k)%nat with (w + S k)%nat by lia.
    rewrite Nat2Z.inj_succ, Z.pow_succ_r in * by lia.
    rewrite IH by dlia.
    assert (Hm : 0 <= x mod 10 < 10) by (apply Z.mod_pos_bound; lia).
    destruct (digit_spec _ Hm) as [Hd Hv].
    cbn [append strconv.take_digits]. rewrite Hd, Hv.
    f_equal. dlia.
Qed.

Lemma take_digits_fixed0 (w : nat) (x : Z) (r : string) :
  0 <= x < 10 ^ Z.of_nat w ->
  strconv.take_digits w 0 (strconv.fixed w x ++ r) = Some (x, r).
Proof.
  intros Hx. pose proof (take_digits_fixed w x 0 0%nat r Hx) as H.
  rewrite Nat.add_0_r in H. rewrite H. reflexivity.
Qed.

Lemma parseNanoseconds_fixed (w : nat) :
  forall x acc room r,
    0 <= x < 10 ^ Z.of_nat w ->
    time.parseNanoseconds (w + room) acc (strconv.fixed w x ++ r)
    = time.parseNanoseconds room (acc * 10 ^ Z.of_nat w + x) r.
Proof.
  induction w as [|w IH]; intros x acc room r Hx.
  - simpl in *. f_equal. lia.
  - cbn [strconv.fixed]. rewrite append_assoc.
    replace (S w + room)%nat with (w + S room)%nat by lia.
    rewrite Nat2Z.inj_succ, Z.pow_succ_r in * by lia.
    rewrite IH by dlia.
    assert (Hm : 0 <= x mod 10 < 10) by (apply Z.mod_pos_bound; lia).
    destruct (digit_spec _ Hm) as [Hd Hv].
    cbn [append time.parseNanoseconds]. rewrite Hd, Hv.
    f_equal. dlia.
Qed.

Lemma fixed_head (w : nat) (x : Z) :
  exists d t, strconv.fixed (S w) x = String (strconv.digit d) t /\ 0 <= d < 10.
Proof.
  revert x. induction w as [|w IH]; intros x.
  - exists (x mod 10), EmptyString. split; [reflexivity|].
    apply Z.mod_pos_bound; lia.
  - destruct (IH (x / 10)) as [d [t [He Hd]]].
    exists d, (t ++ String (strconv.digit (x mod 10)) EmptyString).
    split; [|exact Hd].
    change (strconv.fixed (S (S w)) x)
      with (strconv.fixed (S w) (x / 10)
            ++ String (strconv.digit (x mod 10)) EmptyString).
    rewrite He. reflexivity.
Qed.

(** What is left of a fraction once its trailing zeros are trimmed. *)
Lemma trim_zeros_spec (n : nat) :
  forall w x,
    0 < x < 10 ^ Z.of_nat w ->
    exists w' x',
      time.trim_zeros n w x = strconv.fixed (S w') x'
      /\ (S w' <= w)%nat
      /\ 0 <= x' < 10 ^ Z.of_nat (S w')
      /\ x = x' * 10 ^ Z.of_nat (w - S w').
Proof.
  induction n as [|n IH]; intros w x Hx.
  - destruct w as [|w]; [simpl in Hx; lia|].
    exists w, x. cbn [time.trim_zeros].
    replace (S w - S w)%nat with 0%nat by lia.
    repeat split; try lia.
  - destruct w as [|w]; [simpl in Hx; lia|].
    cbn [time.trim_zeros].
    destruct (Z.eqb_spec (x mod 10) 0) as [Hz|Hnz].
    + rewrite Nat2Z.inj_succ, Z.pow_succ_r in Hx by lia.
      destruct (IH w (x / 10)) as [w' [x' [He [Hw [Hx' Hv]]]]]; [dlia|].
      exists w', x'. repeat split; try lia; try assumption.
      replace (S w - S w')%nat with (S (w - S w'))%nat by lia.
      rewrite Nat2Z.inj_succ, Z.pow_succ_r by lia.
      rewrite Z.mul_assoc, (Z.mul_comm x' 10), <- Z.mul_assoc, <- Hv.
      dlia.
    + exists w, x. replace (S w - S w)%nat with 0%nat by lia.
      repeat split; try lia.
Qed.

(** The fraction that [appendNano] writes is read back in full, up to the
    [Z] that follows it. *)
Lemma parse_appendNano (nsec : Z) (r : string) :
  0 <= nsec < 1000000000 ->
  match time.appendNano nsec ++ String "Z" r with
  | String "." (String a t) =>
    if strconv.isDigit a then time.parseNanoseconds 9 0 (String a t)
    else (0, time.appendNano nsec ++ String "Z" r)
  | _ => (0, time.appendNano nsec ++ String "Z" r)
  end = (nsec, String "Z" r).
Proof.
  intros Hn. unfold time.appendNano.
  destruct (Z.eqb_spec nsec 0) as [->|Hnz]; [reflexivity|].
  destruct (trim_zeros_spec 9 9 nsec) as [w [x [He [Hw [Hx Hv]]]]].
  { change (10 ^ Z.of_nat 9) with 1000000000. lia. }
  rewrite He.
  destruct (fixed_head w x) as [d [t [Hh Hd]]].
  cbn [append]. rewrite Hh. cbn [append].
  rewrite (proj1 (digit_spec d Hd)).
  change (String (strconv.digit d) (t ++ String "Z" r))
    with (String (strconv.digit d) t ++ String "Z" r).
  rewrite <- Hh.
  replace 9%nat with (S w + (9 - S w))%nat at 1 by lia.
  rewrite parseNanoseconds_fixed by exact Hx.
  cbn [time.parseNanoseconds]. change (strconv.isDigit "Z") with false.
  cbv iota. f_equal. lia.
Qed.

Lemma appendNano_plain (nsec : Z) :
  0 <= nsec < 1000000000 -> every plain (time.appendNano nsec) = true.
Proof.
  intros Hn. unfold time.appendNano.
  destruct (Z.eqb_spec nsec 0) as [->|Hnz]; [reflexivity|].
  destruct (trim_zeros_spec 9 9 nsec) as [w [x [He _]]].
  { change (10 ^ Z.of_nat 9) with 1000000000. lia. }
  rewrite He. cbn [every]. rewrite fixed_plain. reflexivity.
Qed.

Ltac months m :=
  try replace (m + 2 - 1) with (m + 1) in * by lia;
  try replace (m + 1 - 1) with m in * by lia.

Ltac tables :=
  repeat match goal with
         | |- context [time.daysBefore ?a] =>
           let v := eval vm_compute in (time.daysBefore a) in
           change (time.daysBefore a) with v
         end.

(** The month and day of the month of the day [day] of a year without a
    29th of February. *)
Lemma month_of_day (day : Z) :
  0 <= day <= 364 ->
  let m := day / 31 in
  let e := time.daysBefore (m + 1) in
  let '(month, dom) :=
    if e <=? day then (m + 2, day - e + 1)
    else (m + 1, day - time.daysBefore m + 1) in
  1 <= month <= 12
  /\ 1 <= dom <= time.daysBefore month - time.daysBefore (month - 1)
  /\ time.daysBefore (month - 1) + (dom - 1) = day
  /\ (3 <= month <-> 59 <= day)
  /\ (month = 2 -> dom <= 28).
Proof.
  intros Hd. cbv zeta.
  assert (Hm : 0 <= day / 31 <= 11) by dlia.
  assert (Hday : 31 * (day / 31) <= day <= 31 * (day / 31) + 30) by dlia.
  remember (day / 31) as m eqn:Em. clear Em.
  assert (Hc : m = 0 \/ m = 1 \/ m = 2 \/ m = 3 \/ m = 4 \/ m = 5 \/ m = 6
               \/ m = 7 \/ m = 8 \/ m = 9 \/ m = 10 \/ m = 11) by lia.
  destruct Hc as [Hc|[Hc|[Hc|[Hc|[Hc|[Hc|[Hc|[Hc|[Hc|[Hc|[Hc|Hc]]]]]]]]]]];
    subst m;
    repeat match goal with
           | |- context [time.daysBefore ?a] =>
             let v := eval vm_compute in (time.daysBefore a) in
             change (time.daysBefore a) with v
           end;
    match goal with
    | |- context [?e <=? day] => destruct (Z.leb_spec e day)
    end;
    repeat match goal with
           | |- context [time.daysBefore ?a] =>
             let v := eval vm_compute in (time.daysBefore a) in
             change (time.daysBefore a) with v
           end;
    lia.
Qed.

Lemma isLeap_digits (n400 n100 n4 n1 : Z) :
  0 <= n100 <= 3 -> 0 <= n4 <= 24 -> 0 <= n1 <= 3 ->
  time.isLeap (400 * n400 + 100 * n100 + 4 * n4 + n1 + 1)
  = (n1 =? 3) && (negb (n4 =? 24) || (n100 =? 3)).
Proof.
  intros H100 H4 H1. unfold time.isLeap.
  destruct (Z.eqb_spec n1 3); destruct (Z.eqb_spec n4 24);
    destruct (Z.eqb_spec n100 3); zbool; reflexivity.
Qed.

Lemma daysSinceYear1_digits (n400 n100 n4 n1 : Z) :
  0 <= n100 <= 3 -> 0 <= n4 <= 24 -> 0 <= n1 <= 3 ->
  time.daysSinceYear1 (400 * n400 + 100 * n100 + 4 * n4 + n1 + 1)
  = 146097 * n400 + 36524 * n100 + 1461 * n4 + 365 * n1.
Proof.
  intros H100 H4 H1.
  unfold time.daysSinceYear1, time.daysPer400Years, time.daysPer100Years,
    time.daysPer4Years.
  cbv zeta. dlia.
Qed.

(** [absDate] is a date of the calendar, and [Date] takes it back to the
    day it came from. *)
Lemma absDate_spec (d0 : Z) :
  let '(year, month, day) := time.absDate d0 in
  1 <= month <= 12
  /\ 1 <= day <= time.daysIn month year
  /\ time.daysFromCivil year month day = d0 - time.unixEpochDay.
Proof.
  unfold time.absDate, time.daysPer400Years, time.daysPer100Years,
    time.daysPer4Years.
  cbv zeta.
  set (n400 := d0 / 146097).
  set (d1 := d0 - 146097 * n400).
  assert (H1 : 0 <= d1 < 146097) by (subst d1 n400; dlia).
  set (n100 := d1 / 36524 - d1 / 36524 / 4).
  assert (H100 : 0 <= n100 <= 3) by (subst n100; dlia).
  set (d2 := d1 - 36524 * n100).
  assert (H2 : 0 <= d2 <= 36524 /\ (n100 < 3 -> d2 < 36524))
    by (subst d2 n100; dlia).
  set (n4 := d2 / 1461).
  assert (H4 : 0 <= n4 <= 24) by (subst n4; dlia).
  set (d3 := d2 - 1461 * n4).
  assert (H3 : 0 <= d3 < 1461 /\ (n4 = 24 -> n100 < 3 -> d3 < 1460))
    by (subst d3 n4; dlia).
  set (n1 := d3 / 365 - d3 / 365 / 4).
  assert (Hn1 : 0 <= n1 <= 3) by (subst n1; dlia).
  set (yday := d3 - 365 * n1).
  assert (Hy : 0 <= yday <= 365 /\ (yday = 365 -> n1 = 3 /\ d3 = 1460)
               /\ (n1 < 3 -> yday < 365))
    by (subst yday n1; dlia).
  assert (Hd0 : d0 = 146097 * n400 + 36524 * n100 + 1461 * n4 + 365 * n1 + yday)
    by (subst yday d3 d2 d1; lia).
  clearbody n400 d1 n100 d2 n4 d3 n1 yday.
  rewrite (isLeap_digits n400 n100 n4 n1 H100 H4 Hn1).
  set (leap := (n1 =? 3) && (negb (n4 =? 24) || (n100 =? 3))).
  assert (Hleap : leap = false -> yday <= 364).
  { subst leap.
    destruct (Z.eqb_spec n1 3); destruct (Z.eqb_spec n4 24);
      destruct (Z.eqb_spec n100 3); simpl; intros; try discriminate; lia. }
  assert (HdaysIn : forall month,
             time.daysIn month (400 * n400 + 100 * n100 + 4 * n4 + n1 + 1)
             = (if (month =? 2) && leap then 29
                else time.daysBefore month - time.daysBefore (month - 1))).
  { intros month. unfold time.daysIn.
    rewrite (isLeap_digits n400 n100 n4 n1 H100 H4 Hn1). reflexivity. }
  assert (HfromCivil : forall month day,
             time.daysFromCivil (400 * n400 + 100 * n100 + 4 * n4 + n1 + 1)
               month day
             = 146097 * n400 + 36524 * n100 + 1461 * n4 + 365 * n1
               + time.daysBefore (month - 1)
               + (if leap && (3 <=? month) then 1 else 0)
               + (day - 1) - time.unixEpochDay).
  { intros month day. unfold time.daysFromCivil.
    rewrite (isLeap_digits n400 n100 n4 n1 H100 H4 Hn1).
    rewrite (daysSinceYear1_digits n400 n100 n4 n1 H100 H4 Hn1).
    reflexivity. }
  destruct leap.
  - (* a leap year *)
    destruct (Z.eqb_spec yday 59) as [E|E]; cbn [andb].
    + cbv iota beta. rewrite HdaysIn, HfromCivil.
      tables. zbool. cbn [andb]. lia.
    + destruct (Z.ltb_spec 59 yday) as [L|L].
      * pose proof (month_of_day (yday - 1) ltac:(lia)) as Hm.
        cbv zeta in Hm.
        destruct (time.daysBefore ((yday - 1) / 31 + 1) <=? yday - 1);
          destruct Hm as [Hm1 [Hm2 [Hm3 [[Hm4 Hm4'] Hm5]]]];
          cbv iota beta; rewrite HdaysIn, HfromCivil;
          months ((yday - 1) / 31); months (yday / 31);
          match goal with
          | |- context [(?m =? 2) && true] =>
            destruct (Z.eqb_spec m 2); cbn [andb]
          end;
          zbool; dlia.
      * pose proof (month_of_day yday ltac:(lia)) as Hm.
        cbv zeta in Hm.
        destruct (time.daysBefore (yday / 31 + 1) <=? yday);
          destruct Hm as [Hm1 [Hm2 [Hm3 [[Hm4 Hm4'] Hm5]]]];
          cbv iota beta; rewrite HdaysIn, HfromCivil;
          months ((yday - 1) / 31); months (yday / 31);
          match goal with
          | |- context [(?m =? 2) && true] =>
            destruct (Z.eqb_spec m 2); cbn [andb]
          end;
          zbool; dlia.
  - (* no leap year *)
    cbn [andb]. specialize (Hleap eq_refl).
    pose proof (month_of_day yday ltac:(lia)) as Hm.
    cbv zeta in Hm.
    destruct (time.daysBefore (yday / 31 + 1) <=? yday);
      destruct Hm as [Hm1 [Hm2 [Hm3 [[Hm4 Hm4'] Hm5]]]];
      cbv iota beta; rewrite HdaysIn, HfromCivil;
      months (yday / 31);
      rewrite andb_false_r; cbn [andb]; dlia.
Qed.

Lemma daysIn_le (m y : Z) : 1 <= m <= 12 -> time.daysIn m y <= 31.
Proof.
  intros Hm. unfold time.daysIn.
  assert (Hc : m = 1 \/ m = 2 \/ m = 3 \/ m = 4 \/ m = 5 \/ m = 6 \/ m = 7
               \/ m = 8 \/ m = 9 \/ m = 10 \/ m = 11 \/ m = 12) by lia.
  destruct Hc as [Hc|[Hc|[Hc|[Hc|[Hc|[Hc|[Hc|[Hc|[Hc|[Hc|[Hc|Hc]]]]]]]]]]];
    subst m; destruct (time.isLeap y); vm_compute; discriminate.
Qed.

(** A time whose year has four digits is read back from its RFC 3339
    text. *)
Lemma parse_formatRFC3339 (t : time.Time) :
  0 <= time.Year t <= 9999 ->
  time.parseRFC3339 (time.formatRFC3339 t) = Some t.
Proof.
  unfold time.Year, time.formatRFC3339, time.civil, time.Second.
  pose proof (absDate_spec (t / 1000000000 / 86400 + time.unixEpochDay)) as Hd.
  destruct (time.absDate (t / 1000000000 / 86400 + time.unixEpochDay))
    as [[year month] day].
  destruct Hd as [Hm [Hday Hciv]].
  intros Hy.
  pose proof (daysIn_le month year Hm) as H31.
  set (sec := t / 1000000000) in *.
  set (nsec := t mod 1000000000).
  set (sod := sec mod 86400).
  assert (Hn : 0 <= nsec < 1000000000) by (subst nsec; dlia).
  assert (Hs : 0 <= sod < 86400) by (subst sod; dlia).
  assert (Ht : t = 1000000000 * sec + nsec) by (subst nsec sec; dlia).
  assert (Hsec : sec = 86400 * (sec / 86400) + sod) by (subst sod; dlia).
  remember (sec / 86400) as days eqn:Edays.
  clearbody sod nsec sec. clear Edays.
  unfold time.parseRFC3339.
  rewrite take_digits_fixed0 by (change (10 ^ Z.of_nat 4) with 10000; lia).
  cbn [append].
  rewrite take_digits_fixed0 by (change (10 ^ Z.of_nat 2) with 100; lia).
  cbn [append].
  rewrite take_digits_fixed0 by (change (10 ^ Z.of_nat 2) with 100; lia).
  cbn [append].
  rewrite take_digits_fixed0 by (change (10 ^ Z.of_nat 2) with 100; dlia).
  cbn [append].
  rewrite take_digits_fixed0 by (change (10 ^ Z.of_nat 2) with 100; dlia).
  cbn [append].
  rewrite take_digits_fixed0 by (change (10 ^ Z.of_nat 2) with 100; dlia).
  assert (Hchk : (1 <=? month) && (month <=? 12) && (1 <=? day)
                 && (day <=? time.daysIn month year) && (sod / 3600 <=? 23)
                 && (sod / 60 mod 60 <=? 59) && (sod mod 60 <=? 59) = true).
  { repeat (apply andb_true_iff; split); apply Z.leb_le; dlia. }
  rewrite Hchk.
  change (time.appendNano nsec ++ "Z")
    with (time.appendNano nsec ++ String "Z" EmptyString).
  rewrite (parse_appendNano nsec EmptyString Hn).
  cbn [time.parseZone]. unfold time.Second, time.Time in *.
  apply (f_equal (@Some Z)). rewrite Hciv.
  assert (Hclock : sod / 3600 * 3600 + (sod / 60) mod 60 * 60 + sod mod 60 = sod)
    by (clear - Hs; dlia).
  lia.
Qed.

Lemma formatRFC3339_plain (t : time.Time) :
  every plain (time.formatRFC3339 t) = true.
Proof.
  unfold time.formatRFC3339.
  destruct (time.civil t) as [[year month] day].
  repeat (rewrite every_app || rewrite fixed_plain || rewrite appendNano_plain
          || cbn [every andb]);
    try reflexivity.
  unfold time.Second. dlia.
Qed.

(** What the scanner and [Time.UnmarshalJSON] make of the text that
    [Time.MarshalJSON] writes. *)
Lemma MarshalJSON_spec (t : time.Time) (text x : string) :
  time.MarshalJSON t = Some text ->
  exists raw,
    text ++ x = String "034" (raw ++ String "034" x)
    /\ json.scan_string json.InString (raw ++ String "034" x) = Some (raw, x)
    /\ time.UnmarshalJSON raw = Some t
    /\ 0 <= time.Year t <= 9999.
Proof.
  unfold time.MarshalJSON. intros H.
  assert (Hy : 0 <= time.Year t <= 9999).
  { unfold time.Year. destruct (time.civil t) as [[year month] day].
    destruct ((0 <=? year) && (year <=? 9999)) eqn:E; [|discriminate].
    zhyp. lia. }
  unfold time.Year in Hy.
  destruct (time.civil t) as [[year month] day] eqn:Hc.
  destruct ((0 <=? year) && (year <=? 9999)); [|discriminate].
  inversion H; subst text. clear H.
  exists (time.formatRFC3339 t).
  split; [|split; [|split]].
  - cbn [append]. rewrite append_assoc. reflexivity.
  - rewrite scan_string_plain by apply formatRFC3339_plain.
    change (json.scan_string json.InString (String "034" x))
      with (Some (EmptyString, x)).
    cbn [kept]. rewrite append_nil_r. reflexivity.
  - unfold time.UnmarshalJSON. rewrite parse_formatRFC3339; [reflexivity|].
    unfold time.Year. rewrite Hc. exact Hy.
  - unfold time.Year. rewrite Hc. exact Hy.
Qed.
(** ** Records *)

(** What may stand right after a member of an object. *)
Lemma skip_ws_ends (rest : string) :
  ends_number rest -> json.skip_ws rest = rest.
Proof.
  intros [r [->| ->]]; reflexivity.
Qed.

Lemma member_ID_decodes (f : nat) (c : mutexContent) (v rest : string) :
  ends_number rest ->
  decode_members (S f) c
    ltac:(let x := eval cbn [quoted append] in
                   (quoted "id" ++ ":" ++ (json.appendString v ++ rest)) in
          exact x)
  = next_member f {| ID := utf8.coerce v; Expires := Expires c; Fence := Fence c |}
      rest.
Proof.
  intros Hrest.
  destruct (appendString_spec v rest) as [raw [He [Hs Hu]]].
  rewrite He.
  cbn [quoted append decode_members].
  cbn. rewrite Hs, Hu. rewrite (skip_ws_ends rest Hrest).
  reflexivity.
Qed.

Lemma member_Expires_decodes (f : nat) (c : mutexContent) (t : time.Time)
    (text rest : string) :
  time.MarshalJSON t = Some text ->
  ends_number rest ->
  decode_members (S f) c
    ltac:(let x := eval cbn [quoted append] in
                   (quoted "expires" ++ ":" ++ (text ++ rest)) in
          exact x)
  = next_member f {| ID := ID c; Expires := Some t; Fence := Fence c |} rest.
Proof.
  intros Ht Hrest.
  destruct (MarshalJSON_spec t text rest Ht) as [raw [He [Hs [Hu _]]]].
  rewrite He.
  cbn [quoted append decode_members].
  cbn. rewrite Hs, Hu. rewrite (skip_ws_ends rest Hrest).
  reflexivity.
Qed.

Lemma member_Fence_decodes (f : nat) (c : mutexContent) (z : Z) (rest : string) :
  int64_ok z ->
  ends_number rest ->
  decode_members (S f) c
    ltac:(let x := eval cbn [quoted append] in
                   (quoted "fence" ++ ":" ++ (strconv.FormatInt z ++ rest)) in
          exact x)
  = next_member f {| ID := ID c; Expires := Expires c; Fence := z |} rest.
Proof.
  intros Hz Hrest.
  destruct (FormatInt_head z rest Hz) as [Hws Hnull].
  cbn [quoted append decode_members].
  cbn. rewrite Hws. unfold decode_field. rewrite Hnull.
  rewrite (scan_number_FormatInt z rest Hz Hrest).
  rewrite (ParseInt_FormatInt z Hz).
  rewrite (skip_ws_ends rest Hrest).
  reflexivity.
Qed.

Lemma ends_brace (r : string) : ends_number (String "}" r).
Proof. exists r. left. reflexivity. Qed.

Lemma ends_comma (r : string) : ends_number (String "," r).
Proof. exists r. right. reflexivity. Qed.

Lemma quoted_head (k rest : string) :
  json.skip_ws (quoted k ++ rest) = quoted k ++ rest.
Proof. reflexivity. Qed.

(** [json.Unmarshal] reads back what [json.Marshal] wrote, the holder
    coerced to well-formed UTF-8. *)
Lemma Unmarshal_Marshal (c : mutexContent) (data : string) :
  int64_ok (Fence c) ->
  Marshal c = Ok data ->
  Unmarshal data
  = Ok {| ID := utf8.coerce (ID c); Expires := Expires c; Fence := Fence c |}
  /\ 0 < len data.
Proof.
  intros Hf. unfold Marshal, member_Expires, member_ID, member_Fence.
  destruct c as [i e z]. cbn [ID Expires Fence] in *.
  assert (Hlen : forall x, 0 < len (String "{" x)).
  { intros x. unfold len. cbn [String.length]. lia. }
  remember (json.appendString i) as qi eqn:Eqi.
  remember (strconv.FormatInt z) as fz eqn:Efz.
  destruct e as [t|].
  - destruct (time.MarshalJSON t) as [text|] eqn:Ht; [|discriminate].
    destruct (String.eqb_spec i EmptyString) as [Ei|Ei];
      destruct (Z.eqb_spec z 0) as [Ez|Ez];
      intros H; inversion H; subst data; clear H;
      (split; [|apply Hlen]);
      cbn [app String.concat];
      rewrite ?append_assoc; unfold Unmarshal; cbn [append json.skip_ws];
      cbn -[decode_members append json.appendString strconv.FormatInt utf8.coerce];
      rewrite ?append_assoc; cbn [append];
      rewrite ?Eqi, ?Efz;
      rewrite ?(member_ID_decodes _ _ _ _ (ends_comma _)),
        ?(member_ID_decodes _ _ _ _ (ends_brace _));
      cbn -[decode_members append json.appendString strconv.FormatInt utf8.coerce];
      rewrite ?append_assoc; cbn [append];
      rewrite ?(member_Expires_decodes _ _ _ _ _ Ht (ends_comma _)),
        ?(member_Expires_decodes _ _ _ _ _ Ht (ends_brace _));
      cbn -[decode_members append json.appendString strconv.FormatInt utf8.coerce];
      rewrite ?append_assoc; cbn [append];
      rewrite ?(member_Fence_decodes _ _ _ _ Hf (ends_brace _));
      cbn -[decode_members append json.appendString strconv.FormatInt utf8.coerce];
      rewrite ?append_assoc; cbn [append];
      subst; reflexivity.
  - destruct (String.eqb_spec i EmptyString) as [Ei|Ei];
      destruct (Z.eqb_spec z 0) as [Ez|Ez];
      intros H; inversion H; subst data; clear H;
      (split; [|apply Hlen]);
      cbn [app String.concat];
      rewrite ?append_assoc; unfold Unmarshal; cbn [append json.skip_ws];
      cbn -[decode_members append json.appendString strconv.FormatInt utf8.coerce];
      rewrite ?append_assoc; cbn [append];
      rewrite ?Eqi, ?Efz;
      rewrite ?(member_ID_decodes _ _ _ _ (ends_comma _)),
        ?(member_ID_decodes _ _ _ _ (ends_brace _));
      cbn -[decode_members append json.appendString strconv.FormatInt utf8.coerce];
      rewrite ?append_assoc; cbn [append];
      rewrite ?(member_Fence_decodes _ _ _ _ Hf (ends_brace _));
      cbn -[decode_members append json.appendString strconv.FormatInt utf8.coerce];
      rewrite ?append_assoc; cbn [append];
      subst; reflexivity.
Qed.

Lemma ParseInt_range (s : string) (v : Z) :
  strconv.ParseInt s = Some v -> int64_ok v.
Proof.
  unfold strconv.ParseInt.
  destruct (match s with
            | String "-" t => (true, t)
            | String "+" t => (false, t)
            | _ => (false, s)
            end) as [neg body].
  destruct body as [|a body]; [discriminate|].
  destruct (strconv.parse_digits 0 (String a body)) as [x|]; [|discriminate].
  destruct ((strconv.MinInt64 <=? (if neg then - x else x))
            && ((if neg then - x else x) <=? strconv.MaxInt64)) eqn:E;
    [|discriminate].
  intros H. inversion H; subst. unfold int64_ok. zhyp. lia.
Qed.

Lemma decode_field_fence (fuel : nat) (c c' : mutexContent) (f : option field)
    (s r : string) :
  int64_ok (Fence c) ->
  decode_field fuel c f s = Some (c', r) ->
  int64_ok (Fence c').
Proof.
  intros Hc. unfold decode_field.
  destruct f as [[| |]|].
  - destruct (is_null s); [intros H; inversion H; subst; exact Hc|].
    destruct s as [|a t]; [discriminate|].
    destruct (Ascii.eqb_spec a "034"); [subst a|].
    + destruct (json.scan_string json.InString t) as [[raw r']|]; [|discriminate].
      destruct (json.unquote raw); [|discriminate].
      intros H; inversion H; subst; exact Hc.
    + intros H. exfalso. revert H.
      destruct a as [[] [] [] [] [] [] [] []]; try discriminate.
      congruence.
  - destruct (is_null s); [intros H; inversion H; subst; exact Hc|].
    destruct s as [|a t]; [discriminate|].
    destruct (Ascii.eqb_spec a "034"); [subst a|].
    + destruct (json.scan_string json.InString t) as [[raw r']|]; [|discriminate].
      destruct (time.UnmarshalJSON raw); [|discriminate].
      intros H; inversion H; subst; exact Hc.
    + intros H. exfalso. revert H.
      destruct a as [[] [] [] [] [] [] [] []]; try discriminate.
      congruence.
  - destruct (is_null s); [intros H; inversion H; subst; exact Hc|].
    destruct (json.scan_number json.NumBegin s) as [[lit r']|]; [|discriminate].
    destruct (strconv.ParseInt lit) as [v|] eqn:Hv; [|discriminate].
    intros H; inversion H; subst. exact (ParseInt_range _ _ Hv).
  - destruct (json.skip_value fuel 1 s); [|discriminate].
    intros H; inversion H; subst; exact Hc.
Qed.

Lemma decode_members_fence (fuel : nat) :
  forall c c' s r,
    int64_ok (Fence c) ->
    decode_members fuel c s = Some (c', r) ->
    int64_ok (Fence c').
Proof.
  induction fuel as [|fuel IH]; intros c c' s r Hc; [discriminate|].
  cbn [decode_members].
  destruct s as [|a t]; [discriminate|].
  destruct (Ascii.eqb_spec a "034") as [->|Ha].
  2:{ intros H. exfalso. revert H.
      destruct a as [[] [] [] [] [] [] [] []]; try discriminate.
      congruence. }
  destruct (json.scan_string json.InString t) as [[rawkey r0]|]; [|discriminate].
  destruct (json.unquote rawkey) as [k|]; [|discriminate].
  destruct (json.skip_ws r0) as [|b r1]; [discriminate|].
  destruct (Ascii.eqb_spec b ":") as [->|Hb].
  2:{ intros H. exfalso. revert H.
      destruct b as [[] [] [] [] [] [] [] []]; try discriminate.
      congruence. }
  destruct (decode_field fuel c (field_of k) (json.skip_ws r1))
    as [[c1 r2]|] eqn:Hf; [|discriminate].
  pose proof (decode_field_fence _ _ _ _ _ _ Hc Hf) as Hc1.
  destruct (json.skip_ws r2) as [|d r3]; [discriminate|].
  destruct (Ascii.eqb_spec d ",") as [->|Hd1].
  { apply IH. exact Hc1. }
  destruct (Ascii.eqb_spec d "}") as [->|Hd2].
  { intros H; inversion H; subst. exact Hc1. }
  intros H. exfalso. revert H.
  destruct d as [[] [] [] [] [] [] [] []]; try discriminate; congruence.
Qed.

(** A fence that was decoded is an [int64]. *)
Lemma Unmarshal_fence (data : string) (c : mutexContent) :
  Unmarshal data = Ok c -> int64_ok (Fence c).
Proof.
  assert (H0 : int64_ok (Fence zeroContent)).
  { unfold int64_ok, strconv.MinInt64, strconv.MaxInt64. simpl. lia. }
  assert (Hfin : forall r,
             match r with
             | Some (c0, rest) =>
               match json.skip_ws rest with
               | EmptyString => Ok c0
               | _ => Err jsonError
               end
             | None => Err jsonError
             end = Ok c ->
             (forall c0 rest, r = Some (c0, rest) -> int64_ok (Fence c0)) ->
             int64_ok (Fence c)).
  { intros [[c0 rest]|] H Hr; [|discriminate].
    destruct (json.skip_ws rest); [|discriminate].
    inversion H; subst. eapply Hr. reflexivity. }
  unfold Unmarshal.
  destruct (json.skip_ws data) as [|a t] eqn:Hws.
  { cbn. discriminate. }
  destruct (Ascii.eqb_spec a "{") as [->|Ha].
  - destruct (json.skip_ws t) as [|b r] eqn:Hb.
    + intros H.
      apply (Hfin (decode_members (S (String.length data)) zeroContent
                     EmptyString) H).
      intros c0 rest Hr.
      eapply decode_members_fence; [exact H0|exact Hr].
    + destruct (Ascii.eqb_spec b "}") as [->|Hb'].
      * intros H. apply (Hfin (Some (zeroContent, r)) H). intros c0 rest Hr.
        inversion Hr; subst. exact H0.
      * intros H.
        assert (H' : match decode_members (S (String.length data)) zeroContent
                             (String b r) with
                     | Some (c0, rest) =>
                       match json.skip_ws rest with
                       | EmptyString => Ok c0
                       | _ => Err jsonError
                       end
                     | None => Err jsonError
                     end = Ok c).
        { revert H. destruct b as [[] [] [] [] [] [] [] []];
            try (intros H; exact H); congruence. }
        apply (Hfin (decode_members (S (String.length data)) zeroContent
                       (String b r)) H').
        intros c0 rest Hr.
        eapply decode_members_fence; [exact H0|exact Hr].
  - intros H.
    assert (H' : match is_null (String a t) with
                 | Some r =>
                   match json.skip_ws r with
                   | EmptyString => Ok zeroContent
                   | _ => Err jsonError
                   end
                 | None => Err jsonError
                 end = Ok c).
    { revert H. destruct a as [[] [] [] [] [] [] [] []];
        try (intros H; exact H); congruence. }
    destruct (is_null (String a t)); [|discriminate].
    destruct (json.skip_ws s); [|discriminate].
    inversion H'; subst. exact H0.
Qed.
(** ** The closures *)

Lemma Marshal_not_held (c : mutexContent) : Marshal c <> Err errLockHeld.
Proof.
  unfold Marshal. destruct (member_Expires c); discriminate.
Qed.

Lemma Marshal_not_conflict (c : mutexContent) : Marshal c <> Err ErrConflict.
Proof.
  unfold Marshal. destruct (member_Expires c); discriminate.
Qed.

Lemma Unmarshal_error (data : string) (e : error) :
  Unmarshal data = Err e -> e = jsonError.
Proof.
  unfold Unmarshal.
  repeat match goal with
         | |- context [match ?x with _ => _ end] => destruct x
         end; congruence.
Qed.

(** The closure of [TryLock], case by case on the record it starts from. *)
Lemma tryLockUpdate_cases (mu : Mutex) (expiresIn : time.Duration)
    (now1 now2 : time.Time) (currentETag currentData : string) :
  tryLockUpdate mu expiresIn now1 now2 currentETag currentData =
  match current currentData with
  | Err e => (Err e, 0)
  | Ok content =>
    if held content now1 then (Err errLockHeld, 0)
    else
      let content' := {| ID := id mu;
                         Expires := Some (time.UTC (time.Add now2 expiresIn));
                         Fence := wrap64 (Fence content + 1) |} in
      (Marshal content', Fence content')
  end.
Proof.
  unfold tryLockUpdate, current, held.
  destruct (0 <? len currentData).
  - destruct (Unmarshal currentData) as [content|e]; [|reflexivity].
    destruct (Expires content) as [e|]; [|reflexivity].
    destruct (time.After now1 e); reflexivity.
  - reflexivity.
Qed.

(** The closure of [Unlock], case by case. *)
Lemma unlockUpdate_cases (mu : Mutex) (currentETag currentData : string) :
  unlockUpdate mu currentETag currentData =
  if negb (String.eqb currentETag (etag mu)) then (Err ErrConflict, tt)
  else
    match current currentData with
    | Err e => (Err e, tt)
    | Ok content =>
      (Marshal {| ID := EmptyString; Expires := None; Fence := Fence content |}, tt)
    end.
Proof.
  unfold unlockUpdate, current.
  destruct (negb (String.eqb currentETag (etag mu))); [reflexivity|].
  destruct (0 <? len currentData); [|reflexivity].
  destruct (Unmarshal currentData); reflexivity.
Qed.

(** When the closure returns an error the provider returns it, and
    nothing is written. *)
Lemma AtomicUpdateObject_closure_error {V : Type} (x : exchange)
    (fn : UpdateObjectFunc V) (t d : string) (e : error) :
  x_get x = Ok (t, d) ->
  fst (fn t d) = Err e ->
  returned (AtomicUpdateObject x fn) = Err e
  /\ written (AtomicUpdateObject x fn) = None.
Proof.
  intros Hget Hfn. unfold AtomicUpdateObject. rewrite Hget.
  destruct (fn t d) as [[newData|e'] v]; simpl in Hfn; [discriminate|].
  inversion Hfn; subst. split; reflexivity.
Qed.

(** C3, as amended.  The closure of [TryLock] signals [errLockHeld]
    exactly when the record it decoded has an expiry and the clock is not
    after it ([now <= expiresAt]); the holder field is not looked at.
    When it does, nothing is written.  A record whose expiry has passed
    is not held: the closure goes on to build the record of the new
    holder, without any write having cleaned the old one up. *)
Theorem tryLock_signals_held_iff (mu : Mutex) (expiresIn : time.Duration)
    (now1 now2 : time.Time) (currentETag currentData : string)
    (content : mutexContent) :
  current currentData = Ok content ->
  (fst (tryLockUpdate mu expiresIn now1 now2 currentETag currentData)
     = Err errLockHeld
   <-> exists e, Expires content = Some e /\ now1 <= e)
  /\ ((exists e, Expires content = Some e /\ now1 <= e) ->
      forall put,
        written (AtomicUpdateObject
                   {| x_get := Ok (currentETag, currentData); x_put := put |}
                   (tryLockUpdate mu expiresIn now1 now2)) = None)
  /\ (forall e, Expires content = Some e -> e < now1 ->
      fst (tryLockUpdate mu expiresIn now1 now2 currentETag currentData)
      = Marshal {| ID := id mu;
                   Expires := Some (time.Add now2 expiresIn);
                   Fence := wrap64 (Fence content + 1) |}).
Proof.
  intros Hcur.
  assert (Hheld : held content now1 = true
                  <-> exists e, Expires content = Some e /\ now1 <= e).
  { unfold held, time.After. destruct (Expires content) as [e|].
    - destruct (Z.ltb_spec e now1); simpl; split.
      + discriminate.
      + intros [e' [He' Hle]]. inversion He'; subst. lia.
      + intros _. exists e. split; [reflexivity|lia].
      + reflexivity.
    - split; [discriminate|]. intros [e [He _]]. discriminate. }
  assert (Hsig : fst (tryLockUpdate mu expiresIn now1 now2 currentETag currentData)
                 = Err errLockHeld <-> held content now1 = true).
  { rewrite tryLockUpdate_cases, Hcur.
    destruct (held content now1); simpl; split; try reflexivity; try discriminate.
    intros H. exfalso. exact (Marshal_not_held _ H). }
  split; [|split].
  - rewrite Hsig. exact Hheld.
  - intros Hex put.
    apply (AtomicUpdateObject_closure_error
             {| x_get := Ok (currentETag, currentData); x_put := put |}
             _ currentETag currentData errLockHeld eq_refl).
    apply Hsig, Hheld. exact Hex.
  - intros e He Hlt. rewrite tryLockUpdate_cases, Hcur.
    assert (Hn : held content now1 = false).
    { apply not_true_is_false. intros Hh.
      apply Hheld in Hh. destruct Hh as [e' [He' Hle]].
      rewrite He in He'. inversion He'; subst. lia. }
    rewrite Hn. reflexivity.
Qed.

(** A record read at 01:11:17 whose expiry is 01:11:17: held, for the
    closure. *)
Lemma tryLock_signals_held_iff_witness :
  let data := (json_text "{'id':'a','expires':'2024-10-31T01:11:17Z','fence':3}") in
  let content := {| ID := "a"; Expires := Some 1730337077000000000; Fence := 3 |} in
  let mu := NewMutex "bucket" "key" "b" in
  current data = Ok content
  /\ (fst (tryLockUpdate mu 5000000000 1730337077000000000 1730337077000000000
             "v1" data) = Err errLockHeld
      <-> exists e, Expires content = Some e /\ 1730337077000000000 <= e).
Proof.
  split; [reflexivity|].
  apply (tryLock_signals_held_iff (NewMutex "bucket" "key" "b") 5000000000
           1730337077000000000 1730337077000000000 "v1"
           (json_text "{'id':'a','expires':'2024-10-31T01:11:17Z','fence':3}")
           {| ID := "a"; Expires := Some 1730337077000000000; Fence := 3 |}).
  reflexivity.
Defined.

(** C3, as the specification words it, fails twice: a record without a
    holder whose expiry lies ahead is held for the closure, and so is a
    record whose expiry is the very instant of the test. *)
Lemma tryLock_held_as_specified_counterexample :
  let mu := NewMutex "bucket" "key" "b" in
  let now := 1730337077000000000 in
  let no_holder := (json_text "{'expires':'2024-10-31T01:11:27Z','fence':3}") in
  let at_expiry := (json_text "{'id':'a','expires':'2024-10-31T01:11:17Z','fence':3}") in
  (exists content,
     current no_holder = Ok content
     /\ fst (tryLockUpdate mu 5000000000 now now "v1" no_holder) = Err errLockHeld
     /\ held_as_specified content now = false)
  /\ (exists content,
        current at_expiry = Ok content
        /\ fst (tryLockUpdate mu 5000000000 now now "v1" at_expiry) = Err errLockHeld
        /\ held_as_specified content now = false).
Proof.
  split.
  - exists {| ID := ""; Expires := Some 1730337087000000000; Fence := 3 |}.
    repeat split; reflexivity.
  - exists {| ID := "a"; Expires := Some 1730337077000000000; Fence := 3 |}.
    repeat split; reflexivity.
Qed.

(** ** TryLock *)

Lemma wrap64_in_range (z : Z) : int64_ok z -> wrap64 z = z.
Proof.
  unfold int64_ok, wrap64, strconv.MinInt64, strconv.MaxInt64. intros H.
  rewrite Z.mod_small; lia.
Qed.

Lemma wrap64_ok (z : Z) : int64_ok (wrap64 z).
Proof.
  unfold int64_ok, wrap64, strconv.MinInt64, strconv.MaxInt64.
  pose proof (Z.mod_pos_bound (z + 9223372036854775808) 18446744073709551616).
  lia.
Qed.


(** What a call of the provider with the closure of [TryLock] returns,
    from what the storage did. *)
Lemma AtomicUpdateObject_tryLock (mu : Mutex) (expiresIn : time.Duration)
    (a : attempt) :
  AtomicUpdateObject (a_exchange a)
    (tryLockUpdate mu expiresIn (a_now1 a) (a_now2 a)) =
  match x_get (a_exchange a) with
  | Err code =>
    {| returned := Err (apiError code); captured := None; written := None |}
  | Ok (_, currentData) =>
    match current currentData with
    | Err e => {| returned := Err e; captured := Some 0; written := None |}
    | Ok content =>
      if held content (a_now1 a)
      then {| returned := Err errLockHeld; captured := Some 0; written := None |}
      else
        let content' := {| ID := id mu;
                           Expires := Some (time.Add (a_now2 a) expiresIn);
                           Fence := wrap64 (Fence content + 1) |} in
        match Marshal content' with
        | Err e =>
          {| returned := Err e; captured := Some (Fence content'); written := None |}
        | Ok newData =>
          match x_put (a_exchange a) with
          | PutOk newETag =>
            {| returned := Ok newETag; captured := Some (Fence content');
               written := Some newData |}
          | PutPreconditionFailed =>
            {| returned := Err ErrConflict; captured := Some (Fence content');
               written := None |}
          | PutFailed code =>
            {| returned := Err (apiError code); captured := Some (Fence content');
               written := None |}
          | PutOkAttrsFailed code =>
            {| returned := Err (apiError code); captured := Some (Fence content');
               written := Some newData |}
          end
        end
  end
  end.
Proof.
  unfold AtomicUpdateObject.
  destruct (x_get (a_exchange a)) as [[t d]|code]; [|reflexivity].
  rewrite tryLockUpdate_cases.
  destruct (current d) as [content|e]; [|reflexivity].
  destruct (held content (a_now1 a)); [reflexivity|].
  cbv zeta. unfold time.UTC.
  destruct (Marshal _); reflexivity.
Qed.



Lemma errors_Is_refl (e : error) : errors_Is e e = true.
Proof.
  assert (H : forall x, error_eqb x x = true).
  { induction x; simpl; auto using String.eqb_refl. }
  destruct e; simpl; rewrite ?H, ?String.eqb_refl; reflexivity.
Qed.

(** C5.  [TryLock] reports "not acquired" without an error exactly when
    the call of the provider failed with an error that is
    [provider.ErrConflict] or the closure's [errLockHeld]; it returns an
    error exactly when the call failed with any other error, and that
    error is the one it returns; a record that does not decode is one of
    these. *)
Theorem TryLock_outcome (mu : Mutex) (expiresIn : time.Duration) (a : attempt) :
  let o := AtomicUpdateObject (a_exchange a)
             (tryLockUpdate mu expiresIn (a_now1 a) (a_now2 a)) in
  let r := result_of (TryLock mu expiresIn a) in
  (fst (fst r) = false /\ snd r = None
   <-> exists e, returned o = Err e
                 /\ (errors_Is e ErrConflict = true
                     \/ errors_Is e errLockHeld = true))
  /\ (forall e, snd r = Some e
      <-> returned o = Err e
          /\ errors_Is e ErrConflict = false
          /\ errors_Is e errLockHeld = false)
  /\ (forall currentETag currentData e,
        x_get (a_exchange a) = Ok (currentETag, currentData) ->
        0 < len currentData ->
        Unmarshal currentData = Err e ->
        r = (false, -1, Some e)).
Proof.
  cbv zeta. split; [|split].
  - unfold TryLock.
    destruct (returned _) as [newETag|e]; simpl.
    + split; [intros [H _]; discriminate|intros [e [H _]]; discriminate].
    + destruct (errors_Is e errLockHeld) eqn:H1;
        destruct (errors_Is e ErrConflict) eqn:H2; simpl; split;
        try (intros _; exists e; split; [reflexivity|auto]; fail);
        try (intros _; split; reflexivity).
      * intros [_ H]; discriminate.
      * intros [e' [He' [H|H]]]; inversion He'; subst; congruence.
  - intros e. unfold TryLock.
    destruct (returned _) as [newETag|e0]; simpl.
    + split; [discriminate|intros [H _]; discriminate].
    + destruct (errors_Is e0 errLockHeld) eqn:H1;
        destruct (errors_Is e0 ErrConflict) eqn:H2; simpl; split;
        try discriminate;
        try (intros [He' [Ha Hb]]; inversion He'; subst; congruence).
      intros H. inversion H; subst. auto.
  - intros t d e Hget Hlen HU.
    unfold TryLock. rewrite AtomicUpdateObject_tryLock, Hget.
    unfold current. apply Z.ltb_lt in Hlen. rewrite Hlen, HU. simpl.
    apply Unmarshal_error in HU. subst. reflexivity.
Qed.

(** Bytes that are not a record: the decoding error is what [TryLock]
    returns. *)
Lemma TryLock_outcome_witness :
  let mu := NewMutex "bucket" "key" "b" in
  let a := {| a_now1 := 1730337077000000000; a_now2 := 1730337077000000000;
              a_exchange := {| x_get := Ok ("v1", "not a record");
                               x_put := PutOk "v2" |} |} in
  (x_get (a_exchange a) = Ok ("v1", "not a record")
   /\ 0 < len "not a record"
   /\ Unmarshal "not a record" = Err jsonError)
  /\ result_of (TryLock mu 5000000000 a) = (false, -1, Some jsonError).
Proof.
  split; [repeat split; reflexivity|].
  exact (proj2 (proj2 (TryLock_outcome (NewMutex "bucket" "key" "b") 5000000000
                         {| a_now1 := 1730337077000000000;
                            a_now2 := 1730337077000000000;
                            a_exchange := {| x_get := Ok ("v1", "not a record");
                                             x_put := PutOk "v2" |} |}))
           "v1" "not a record" jsonError eq_refl eq_refl eq_refl).
Defined.

(** C8.  When the record read is held, [TryLock] returns "not acquired"
    with no error, stores nothing, and leaves the handle as it was. *)
Theorem TryLock_on_held_record (mu : Mutex) (expiresIn : time.Duration)
    (a : attempt) (currentETag currentData : string) (content : mutexContent) :
  x_get (a_exchange a) = Ok (currentETag, currentData) ->
  current currentData = Ok content ->
  held content (a_now1 a) = true ->
  TryLock mu expiresIn a
  = {| handle := mu; result_of := (false, -1, None); stored := None |}
  /\ fst (tryLockUpdate mu expiresIn (a_now1 a) (a_now2 a)
            currentETag currentData) = Err errLockHeld.
Proof.
  intros Hget Hcur Hheld. split.
  - unfold TryLock. rewrite AtomicUpdateObject_tryLock, Hget, Hcur, Hheld.
    reflexivity.
  - rewrite tryLockUpdate_cases, Hcur, Hheld. reflexivity.
Qed.

(** The scenario of the specification: a record whose expiry is ten
    seconds ahead. *)
Lemma TryLock_on_held_record_witness :
  let mu := NewMutex "bucket" "key" "b" in
  let data := (json_text "{'id':'a','expires':'2024-10-31T01:11:27Z','fence':3}") in
  let content := {| ID := "a"; Expires := Some 1730337087000000000; Fence := 3 |} in
  let a := {| a_now1 := 1730337077000000000; a_now2 := 1730337077000000000;
              a_exchange := {| x_get := Ok ("v1", data); x_put := PutOk "v2" |} |} in
  (x_get (a_exchange a) = Ok ("v1", data)
   /\ current data = Ok content
   /\ held content (a_now1 a) = true)
  /\ TryLock mu 5000000000 a
     = {| handle := mu; result_of := (false, -1, None); stored := None |}
     /\ fst (tryLockUpdate mu 5000000000 (a_now1 a) (a_now2 a) "v1" data)
        = Err errLockHeld.
Proof.
  split; [repeat split; reflexivity|].
  apply (TryLock_on_held_record (NewMutex "bucket" "key" "b") 5000000000
           {| a_now1 := 1730337077000000000; a_now2 := 1730337077000000000;
              a_exchange :=
                {| x_get := Ok ("v1", (json_text "{'id':'a','expires':'2024-10-31T01:11:27Z','fence':3}"));
                   x_put := PutOk "v2" |} |}
           "v1" (json_text "{'id':'a','expires':'2024-10-31T01:11:27Z','fence':3}")
           {| ID := "a"; Expires := Some 1730337087000000000; Fence := 3 |});
    reflexivity.
Defined.

(** C10.  Whenever [TryLock] does not acquire the lock, with or without
    an error, the token it returns is -1 and the handle is what it was
    before the call; the handle's tag is assigned only when the lock is
    acquired, and then it is the tag the provider returned.  Whenever
    [Lock] returns an error, the token it returns is -1. *)
Theorem not_acquired_token_and_tag (mu : Mutex) (expiresIn : time.Duration)
    (a : attempt) :
  let e := TryLock mu expiresIn a in
  (fst (fst (result_of e)) = false ->
   snd (fst (result_of e)) = -1 /\ handle e = mu)
  /\ (fst (fst (result_of e)) = true ->
      exists newETag,
        returned (AtomicUpdateObject (a_exchange a)
                    (tryLockUpdate mu expiresIn (a_now1 a) (a_now2 a)))
        = Ok newETag
        /\ handle e = set_etag mu newETag)
  /\ (forall run mu' log token err,
        Lock mu expiresIn run = Some (mu', log, (token, Some err)) ->
        token = -1).
Proof.
  cbv zeta. split; [|split].
  - unfold TryLock. destruct (returned _) as [newETag|err]; simpl.
    + discriminate.
    + destruct (errors_Is err errLockHeld || errors_Is err ErrConflict);
        simpl; auto.
  - unfold TryLock. destruct (returned _) as [newETag|err]; simpl.
    + intros _. exists newETag. auto.
    + destruct (errors_Is err errLockHeld || errors_Is err ErrConflict);
        simpl; discriminate.
  - intros run mu' log token err. unfold Lock.
    destruct (retry_Do _ run _) as [[[[m t] l] [e|]]|]; intros H;
      inversion H; reflexivity.
Qed.

(** A write that lost the race: no lock, the token -1, the handle as it
    was. *)
Lemma not_acquired_token_and_tag_witness :
  let mu := set_etag (NewMutex "bucket" "key" "b") "v0" in
  let a := {| a_now1 := 1730337077000000000; a_now2 := 1730337077000000000;
              a_exchange := {| x_get := Ok ("v1", json_text "{'fence':3}");
                               x_put := PutPreconditionFailed |} |} in
  fst (fst (result_of (TryLock mu 5000000000 a))) = false
  /\ snd (fst (result_of (TryLock mu 5000000000 a))) = -1
  /\ handle (TryLock mu 5000000000 a) = mu.
Proof.
  split; [reflexivity|].
  exact (proj1 (not_acquired_token_and_tag
                  (set_etag (NewMutex "bucket" "key" "b") "v0") 5000000000
                  {| a_now1 := 1730337077000000000;
                     a_now2 := 1730337077000000000;
                     a_exchange := {| x_get := Ok ("v1", json_text "{'fence':3}");
                                      x_put := PutPreconditionFailed |} |})
           eq_refl).
Defined.

(** [Lock] does return errors: when the context is done, and when an
    attempt fails for good. *)
Example Lock_cancelled :
  Lock (NewMutex "bucket" "key" "b") 5000000000 [CtxDone "context canceled"]
  = Some (NewMutex "bucket" "key" "b", [],
          (-1, Some (contextError "context canceled"))).
Proof. reflexivity. Qed.

Example Lock_storage_failure :
  Lock (NewMutex "bucket" "key" "b") 5000000000
    [Run {| a_now1 := 0; a_now2 := 0;
            a_exchange := {| x_get := Err "AccessDenied";
                             x_put := PutPreconditionFailed |} |}]
  = Some (NewMutex "bucket" "key" "b", [],
          (-1, Some (unrecoverableError (apiError "AccessDenied")))).
Proof. reflexivity. Qed.

(** [Lock] keeps trying while the lock is held, and returns the token of
    the attempt that acquires it. *)
Example Lock_retries :
  let held_until_17 :=
    (json_text "{'id':'a','expires':'2024-10-31T01:11:17Z','fence':3}") in
  Lock (NewMutex "bucket" "key" "b") 5000000000
    [Run {| a_now1 := 1730337076000000000; a_now2 := 1730337076000000000;
            a_exchange := {| x_get := Ok ("v1", held_until_17);
                             x_put := PutOk "v2" |} |};
     Run {| a_now1 := 1730337078000000000; a_now2 := 1730337078000000000;
            a_exchange := {| x_get := Ok ("v1", held_until_17);
                             x_put := PutOk "v2" |} |}]
  = Some (set_etag (NewMutex "bucket" "key" "b") "v2",
          [(json_text "{'id':'b','expires':'2024-10-31T01:11:23Z','fence':4}")],
          (4, None)).
Proof. reflexivity. Qed.

(** ** Unlock *)

(** C7.  With no tag on the handle [Unlock] returns no error, whatever the
    run: the provider is not called and the handle is unchanged.  With a
    tag, a call of the provider that fails with [provider.ErrConflict]
    counts as a release: no error, the tag cleared.  Any other failure is
    returned (as [retry.Unrecoverable] wraps it) and the tag stays.  A
    call that succeeds clears the tag. *)
Theorem Unlock_outcome (mu : Mutex) :
  (etag mu = EmptyString ->
   forall run,
     Unlock mu run = Some {| handle := mu; result_of := None; stored := None |})
  /\ (etag mu <> EmptyString ->
      forall x rest,
        let o := AtomicUpdateObject x (unlockUpdate mu) in
        match returned o with
        | Err e =>
          if errors_Is e ErrConflict then
            Unlock mu (Run x :: rest)
            = Some {| handle := set_etag mu EmptyString; result_of := None;
                      stored := written o |}
          else
            Unlock mu (Run x :: rest)
            = Some {| handle := mu; result_of := Some (unrecoverableError e);
                      stored := written o |}
            /\ errors_Is (unrecoverableError e) e = true
        | Ok _ =>
          Unlock mu (Run x :: rest)
          = Some {| handle := set_etag mu EmptyString; result_of := None;
                    stored := written o |}
        end).
Proof.
  split.
  - intros H run. unfold Unlock. rewrite H. reflexivity.
  - intros H x rest. cbv zeta.
    assert (Hn : negb (String.eqb (etag mu) EmptyString) = true).
    { apply negb_true_iff, String.eqb_neq. exact H. }
    unfold Unlock. rewrite Hn. simpl. unfold unlockAttempt.
    destruct (returned (AtomicUpdateObject x (unlockUpdate mu))) as [t|e] eqn:Hr.
    + reflexivity.
    + destruct (errors_Is e ErrConflict); simpl.
      * reflexivity.
      * split; [reflexivity|].
        rewrite errors_Is_refl. apply orb_true_r.
Qed.

Lemma Unlock_outcome_witness :
  let mu := set_etag (NewMutex "bucket" "key" "b") "v2" in
  let x := {| x_get := Ok ("v3", (json_text "{'id':'c','fence':5}"));
              x_put := PutOk "v4" |} in
  etag mu <> EmptyString
  /\ Unlock mu [Run x]
     = Some {| handle := set_etag mu EmptyString; result_of := None;
               stored := None |}.
Proof.
  split; [discriminate|].
  exact (proj2 (Unlock_outcome (set_etag (NewMutex "bucket" "key" "b") "v2"))
           ltac:(discriminate)
           {| x_get := Ok ("v3", (json_text "{'id':'c','fence':5}"));
              x_put := PutOk "v4" |} []).
Defined.

Lemma current_fence (data : string) (content : mutexContent) :
  current data = Ok content -> int64_ok (Fence content).
Proof.
  unfold current. destruct (0 <? len data).
  - apply Unmarshal_fence.
  - intros H. inversion H; subst.
    unfold int64_ok, strconv.MinInt64, strconv.MaxInt64. simpl. lia.
Qed.

(** A record without holder and expiry is always encoded, and read back
    as it was. *)
Lemma Marshal_cleared (fence : Z) :
  int64_ok fence ->
  exists data,
    Marshal {| ID := EmptyString; Expires := None; Fence := fence |} = Ok data
    /\ Unmarshal data
       = Ok {| ID := EmptyString; Expires := None; Fence := fence |}
    /\ 0 < len data.
Proof.
  intros Hf.
  destruct (Marshal {| ID := EmptyString; Expires := None; Fence := fence |})
    as [data|e] eqn:HM.
  - exists data. split; [reflexivity|].
    destruct (Unmarshal_Marshal
                {| ID := EmptyString; Expires := None; Fence := fence |}
                data Hf HM) as [HU Hlen].
    split; [exact HU|exact Hlen].
  - unfold Marshal in HM. simpl in HM. discriminate.
Qed.

(** C6.  When the tag read is not the handle's, the closure of [Unlock]
    signals [provider.ErrConflict] and nothing is written.  When it is,
    and the bytes read decode to a record, the closure returns the
    encoding of a record without holder and without expiry whose fence is
    the fence read. *)
Theorem unlockUpdate_clears (mu : Mutex) (currentETag currentData : string) :
  (currentETag <> etag mu ->
   unlockUpdate mu currentETag currentData = (Err ErrConflict, tt)
   /\ forall put,
        written (AtomicUpdateObject
                   {| x_get := Ok (currentETag, currentData); x_put := put |}
                   (unlockUpdate mu)) = None)
  /\ (currentETag = etag mu ->
      forall content,
        current currentData = Ok content ->
        exists newData,
          fst (unlockUpdate mu currentETag currentData) = Ok newData
          /\ Marshal {| ID := EmptyString; Expires := None;
                        Fence := Fence content |} = Ok newData
          /\ Unmarshal newData
             = Ok {| ID := EmptyString; Expires := None;
                     Fence := Fence content |}).
Proof.
  split.
  - intros Hne.
    assert (Hu : unlockUpdate mu currentETag currentData = (Err ErrConflict, tt)).
    { rewrite unlockUpdate_cases.
      apply String.eqb_neq in Hne. rewrite Hne. reflexivity. }
    split; [exact Hu|].
    intros put.
    apply (AtomicUpdateObject_closure_error
             {| x_get := Ok (currentETag, currentData); x_put := put |}
             _ currentETag currentData ErrConflict eq_refl).
    rewrite Hu. reflexivity.
  - intros He content Hcur.
    destruct (Marshal_cleared (Fence content) (current_fence _ _ Hcur))
      as [newData [HM [HU _]]].
    exists newData. rewrite unlockUpdate_cases.
    subst currentETag. rewrite String.eqb_refl. simpl. rewrite Hcur. simpl.
    auto.
Qed.

Lemma unlockUpdate_clears_witness :
  let mu := set_etag (NewMutex "bucket" "key" "b") "v2" in
  let data := json_text "{'id':'b','expires':'2024-10-31T01:11:27Z','fence':3}" in
  current data
  = Ok {| ID := "b"; Expires := Some 1730337087000000000; Fence := 3 |}
  /\ exists newData,
       fst (unlockUpdate mu "v2" data) = Ok newData
       /\ Marshal {| ID := EmptyString; Expires := None; Fence := 3 |} = Ok newData
       /\ Unmarshal newData
          = Ok {| ID := EmptyString; Expires := None; Fence := 3 |}.
Proof.
  split; [reflexivity|].
  exact (proj2 (unlockUpdate_clears
                  (set_etag (NewMutex "bucket" "key" "b") "v2") "v2"
                  (json_text "{'id':'b','expires':'2024-10-31T01:11:27Z','fence':3}"))
           eq_refl
           {| ID := "b"; Expires := Some 1730337087000000000; Fence := 3 |}
           eq_refl).
Defined.

(** ** The stored record *)

Lemma MarshalJSON_total (t : time.Time) :
  0 <= time.Year t <= 9999 -> exists text, time.MarshalJSON t = Some text.
Proof.
  unfold time.Year, time.MarshalJSON.
  destruct (time.civil t) as [[year month] day]. intros H.
  destruct (Z.leb_spec 0 year); destruct (Z.leb_spec year 9999); try lia.
  eexists. reflexivity.
Qed.

(** C9, as amended.  A record whose holder is well-formed UTF-8 (every
    UUID is) and whose expiry, if it has one, falls in the years 0 to 9999
    is encoded, and the bytes decode to the same record; no bytes decode
    to the zero record. *)
Theorem record_round_trip (c : mutexContent) :
  int64_ok (Fence c) ->
  utf8.ValidString (ID c) = true ->
  (forall t, Expires c = Some t -> 0 <= time.Year t <= 9999) ->
  (exists data, Marshal c = Ok data /\ current data = Ok c)
  /\ current EmptyString = Ok zeroContent.
Proof.
  intros Hf Hid Hy. split; [|reflexivity].
  assert (HM : exists data, Marshal c = Ok data).
  { unfold Marshal, member_Expires.
    destruct (Expires c) as [t|] eqn:He.
    - destruct (MarshalJSON_total t (Hy t eq_refl)) as [text Ht].
      rewrite Ht. eexists. reflexivity.
    - eexists. reflexivity. }
  destruct HM as [data HM]. exists data. split; [exact HM|].
  destruct (Unmarshal_Marshal c data Hf HM) as [HU Hlen].
  unfold current. apply Z.ltb_lt in Hlen. rewrite Hlen, HU.
  rewrite (coerce_valid _ Hid). destruct c; reflexivity.
Qed.

Lemma record_round_trip_witness :
  let c := {| ID := "0b6d6a3e-1f0c-4c8e-9d55-2f1f0c3a9e11";
              Expires := Some 1730337087000000000; Fence := 42 |} in
  (int64_ok (Fence c)
   /\ utf8.ValidString (ID c) = true
   /\ (forall t, Expires c = Some t -> 0 <= time.Year t <= 9999))
  /\ (exists data, Marshal c = Ok data /\ current data = Ok c)
     /\ current EmptyString = Ok zeroContent.
Proof.
  assert (H1 : int64_ok 42).
  { unfold int64_ok, strconv.MinInt64, strconv.MaxInt64. lia. }
  assert (H3 : forall t, Some 1730337087000000000 = Some t ->
                         0 <= time.Year t <= 9999).
  { intros t Ht. inversion Ht; subst. vm_compute. split; discriminate. }
  split; [split; [exact H1|split; [reflexivity|exact H3]]|].
  exact (record_round_trip
           {| ID := "0b6d6a3e-1f0c-4c8e-9d55-2f1f0c3a9e11";
              Expires := Some 1730337087000000000; Fence := 42 |}
           H1 eq_refl H3).
Defined.

(** C9, for every combination of values, fails: a holder that is not
    well-formed UTF-8 comes back with U+FFFD in the place of the bytes
    that were not, and an expiry in the year 10000 is not encoded at
    all. *)
Lemma record_round_trip_counterexample :
  let ill_formed := {| ID := String (chr 255) EmptyString;
                       Expires := None; Fence := 1 |} in
  let year_10000 := {| ID := "a"; Expires := Some 253402300800000000000;
                       Fence := 1 |} in
  (exists data,
     Marshal ill_formed = Ok data
     /\ current data = Ok {| ID := utf8.EncodeRune 65533;
                             Expires := None; Fence := 1 |}
     /\ current data <> Ok ill_formed)
  /\ Marshal year_10000 = Err jsonError
  /\ int64_ok 1.
Proof.
  split; [|split].
  - eexists. split; [reflexivity|]. split; [reflexivity|].
    vm_compute. discriminate.
  - reflexivity.
  - unfold int64_ok, strconv.MinInt64, strconv.MaxInt64. lia.
Qed.
(** ** Several handles on one object *)

(** A call of [TryLock] either leaves everything as it was, or acquires
    the lock with a write. *)
Lemma TryLock_cases (mu : Mutex) (expiresIn : time.Duration) (a : attempt) :
  (forall code, x_put (a_exchange a) <> PutOkAttrsFailed code) ->
  (exists err,
     TryLock mu expiresIn a
     = {| handle := mu; result_of := (false, -1, err); stored := None |})
  \/ (exists t d content newETag newData,
        x_get (a_exchange a) = Ok (t, d)
        /\ current d = Ok content
        /\ held content (a_now1 a) = false
        /\ x_put (a_exchange a) = PutOk newETag
        /\ Marshal {| ID := id mu;
                      Expires := Some (time.Add (a_now2 a) expiresIn);
                      Fence := wrap64 (Fence content + 1) |} = Ok newData
        /\ TryLock mu expiresIn a
           = {| handle := set_etag mu newETag;
                result_of := (true, wrap64 (Fence content + 1), None);
                stored := Some newData |}).
Proof.
  intros Hkept.
  unfold TryLock. rewrite AtomicUpdateObject_tryLock.
  destruct (x_get (a_exchange a)) as [[t d]|code] eqn:Hget.
  2:{ left. eexists. reflexivity. }
  destruct (current d) as [content|e] eqn:Hcur.
  2:{ left. cbn [returned captured written].
      destruct (errors_Is e errLockHeld || errors_Is e ErrConflict);
        eexists; reflexivity. }
  destruct (held content (a_now1 a)) eqn:Hheld.
  { left. eexists. reflexivity. }
  cbv zeta.
  destruct (Marshal _) as [newData|e] eqn:HM.
  2:{ left. cbn [returned captured written].
      destruct (errors_Is e errLockHeld || errors_Is e ErrConflict);
        eexists; reflexivity. }
  destruct (x_put (a_exchange a)) as [newETag| |code|code] eqn:Hput.
  - right. exists t, d, content, newETag, newData.
    repeat split; try assumption; reflexivity.
  - left. eexists. reflexivity.
  - left. eexists. reflexivity.
  - exfalso. exact (Hkept code eq_refl).
Qed.

Lemma set_etag_same (mu : Mutex) :
  etag mu = EmptyString -> set_etag mu EmptyString = mu.
Proof.
  destruct mu. simpl. intros ->. reflexivity.
Qed.

(** A call of [Unlock] that reaches the provider fails and leaves
    everything as it was, or releases the handle without a write, or
    releases it with the write of the cleared record. *)
Lemma Unlock_cases (mu : Mutex) (x : exchange) :
  (forall code, x_put x <> PutOkAttrsFailed code) ->
  exists e,
    Unlock mu [Run x] = Some e
    /\ ((exists err,
           e = {| handle := mu; result_of := Some err; stored := None |})
        \/ e = {| handle := set_etag mu EmptyString; result_of := None;
                  stored := None |}
        \/ (exists d content newETag newData,
              etag mu <> EmptyString
              /\ x_get x = Ok (etag mu, d)
              /\ current d = Ok content
              /\ x_put x = PutOk newETag
              /\ Marshal {| ID := EmptyString; Expires := None;
                            Fence := Fence content |} = Ok newData
              /\ e = {| handle := set_etag mu EmptyString; result_of := None;
                        stored := Some newData |})).
Proof.
  intros Hkept.
  unfold Unlock.
  destruct (String.eqb_spec (etag mu) EmptyString) as [He|He]; cbn [negb].
  { eexists. split; [reflexivity|]. right. left.
    rewrite (set_etag_same mu He). reflexivity. }
  cbn [retry_Do]. unfold unlockAttempt, AtomicUpdateObject.
  destruct (x_get x) as [[t d]|code] eqn:Hget.
  2:{ cbn. eexists. split; [reflexivity|]. left. eexists. reflexivity. }
  rewrite unlockUpdate_cases.
  destruct (String.eqb_spec t (etag mu)) as [Ht|Ht]; cbn [negb].
  2:{ cbn. eexists. split; [reflexivity|]. right. left. reflexivity. }
  subst t.
  destruct (current d) as [content|e] eqn:Hcur.
  2:{ cbn [returned written].
      destruct (errors_Is e ErrConflict); cbn;
        eexists; (split; [reflexivity|]); [right; left|left; eexists]; reflexivity. }
  destruct (Marshal _) as [newData|e] eqn:HM.
  2:{ cbn [returned written].
      destruct (errors_Is e ErrConflict); cbn;
        eexists; (split; [reflexivity|]); [right; left|left; eexists]; reflexivity. }
  destruct (x_put x) as [newETag| |code|code] eqn:Hput; cbn.
  - eexists. split; [reflexivity|]. right. right.
    exists d, content, newETag, newData. repeat split; try assumption.
  - eexists. split; [reflexivity|]. right. left. reflexivity.
  - eexists. split; [reflexivity|]. left. eexists. reflexivity.
  - exfalso. exact (Hkept code eq_refl).
Qed.

Lemma nth_error_set_nth {A : Type} (l : list A) (i j : nat) (x : A) :
  nth_error (set_nth i x l) j
  = if Nat.eqb j i
    then match nth_error l i with Some _ => Some x | None => None end
    else nth_error l j.
Proof.
  revert i j. induction l as [|h t IH]; intros i j.
  - simpl. destruct j, i; simpl; try reflexivity.
    + destruct (Nat.eqb j i); reflexivity.
  - destruct i as [|i], j as [|j]; simpl; try reflexivity.
    apply IH.
Qed.

Section WorldProperties.

Variable tag : nat -> string.
Hypothesis tag_inj : forall m n, tag m = tag n -> m = n.
Hypothesis tag_nonempty : forall n, tag n <> EmptyString.

Lemma cur_tag_inj (g g' : nat) : cur_tag tag g = cur_tag tag g' -> g = g'.
Proof.
  destruct g as [|g], g' as [|g']; simpl; intros H.
  - reflexivity.
  - exfalso. exact (tag_nonempty _ (eq_sym H)).
  - exfalso. exact (tag_nonempty _ H).
  - exact (tag_inj _ _ H).
Qed.

Lemma with_procs_same (w : world) : with_procs w (w_now w) (w_procs w) = w.
Proof. destruct w. reflexivity. Qed.

(** In this world a call that fails has stored nothing. *)
Lemma put_now_kept (w : world) (got : result string (string * string))
    (fault : option string) (code : string) :
  put_now tag w got fault <> PutOkAttrsFailed code.
Proof.
  unfold put_now. destruct fault; [discriminate|].
  destruct got as [[t d]|c]; [|discriminate].
  destruct (String.eqb t (cur_tag tag (w_gen w))); discriminate.
Qed.

(** Every step of the world is one of the moves. *)
Lemma step_moves (w : world) (ev : event) :
  inv tag w -> moves tag w (step tag w ev).
Proof.
  intros [Hok _].
  destruct ev as [dt|i expiresIn fault|i|i fault|i fault]; cbn [step].
  - apply (ticks tag w (w_now w + Z.max 0 dt)). lia.
  - destruct (nth_error (w_procs w) i) as [p|] eqn:Hp; [|apply stays].
    destruct (p_call p) eqn:Hc; try apply stays.
    apply (begins tag w i p (TryLockRead expiresIn (read_now tag w fault))
             (w_now w) Hp); [lia|].
    intros t d Hg. unfold read_now in Hg. destruct fault; [discriminate|].
    inversion Hg; subst. exists (w_gen w). auto.
  - destruct (nth_error (w_procs w) i) as [p|] eqn:Hp; [|apply stays].
    pose proof (Hok i p Hp) as [_ [Hcall _]].
    destruct (p_call p) as [|expiresIn got|expiresIn now1 got| |] eqn:Hc;
      try apply stays.
    + apply (begins tag w i p (TryLockTest expiresIn (w_now w) got)
               (w_now w) Hp); [lia|].
      split; [lia|exact Hcall].
    + destruct Hcall as [Hn Hr].
      apply (begins tag w i p (CallTryLock expiresIn now1 (w_now w) got)
               (w_now w) Hp); [lia|].
      split; [lia|exact Hr].
  - destruct (nth_error (w_procs w) i) as [p|] eqn:Hp; [|apply stays].
    destruct (p_call p) eqn:Hc; try apply stays.
    apply (begins tag w i p (CallUnlock (read_now tag w fault)) (w_now w) Hp);
      [lia|].
    intros t d Hg. unfold read_now in Hg. destruct fault; [discriminate|].
    inversion Hg; subst. exists (w_gen w). auto.
  - destruct (nth_error (w_procs w) i) as [p|] eqn:Hp; [|apply stays].
    destruct (p_call p) as [| | |expiresIn now1 now2 got|got] eqn:Hc;
      try apply stays.
    + set (a := {| a_now1 := now1; a_now2 := now2;
                   a_exchange := {| x_get := got;
                                    x_put := put_now tag w got fault |} |}).
      destruct (TryLock_cases (p_mu p) expiresIn a (put_now_kept w got fault))
        as [[err He]|[t [d [content [newETag [newData
              [Hget [Hcur [Hheld [Hput [HM He]]]]]]]]]]];
        rewrite He; cbn [result_of stored handle after_put].
      * apply (returns tag w i p Hp).
      * cbn [a a_exchange x_get x_put a_now1 a_now2] in *. subst got.
        unfold put_now in Hput. destruct fault; [discriminate|].
        destruct (String.eqb_spec t (cur_tag tag (w_gen w))) as [Ht|Ht];
          [|discriminate].
        inversion Hput; subst newETag t.
        unfold time.UTC.
        apply (acquires tag w i p expiresIn now1 now2 d content newData
                 Hp Hc Hcur Hheld HM).
    + destruct (Unlock_cases (p_mu p)
                  {| x_get := got; x_put := put_now tag w got fault |}
                  (put_now_kept w got fault))
        as [e [He Hcases]].
      rewrite He.
      destruct Hcases as [[err ->]|[->|[d [content [newETag [newData
          [Hne [Hget [Hcur [Hput [HM ->]]]]]]]]]]];
        cbn [result_of stored handle after_put].
      * apply (returns tag w i p Hp).
      * apply (releases tag w i p Hp).
      * cbn [x_get x_put] in *. subst got.
        unfold put_now in Hput. destruct fault; [discriminate|].
        destruct (String.eqb_spec (etag (p_mu p)) (cur_tag tag (w_gen w)))
          as [Ht|Ht]; [|discriminate].
        apply (clears tag w i p d content newData Hp Hc Hne Ht Hcur HM).
Qed.

Lemma tag_upto_S (gen : nat) (t : string) :
  tag_upto tag gen t -> tag_upto tag (S gen) t.
Proof.
  intros [H|[g [Hg H]]]; [left; exact H|right; exists g; split; [lia|exact H]].
Qed.

(** A tag a handle carries is not the tag of a revision to come. *)
Lemma tag_upto_fresh (gen : nat) (t : string) :
  tag_upto tag gen t -> t <> tag (S gen).
Proof.
  intros [H|[g [Hg H]]] E; subst t.
  - exact (tag_nonempty _ (eq_sym E)).
  - apply tag_inj in E. lia.
Qed.

Lemma read_ok_S (gen : nat) (data data' : string)
    (got : result string (string * string)) :
  read_ok tag gen data got -> read_ok tag (S gen) data' got.
Proof.
  intros H t d Hg. destruct (H t d Hg) as [g [Hle [Ht _]]].
  exists g. split; [lia|]. split; [exact Ht|]. intros E. lia.
Qed.

Lemma proc_ok_later (now now' : time.Time) (gen : nat) (data : string)
    (p : proc) :
  now <= now' -> proc_ok tag now gen data p -> proc_ok tag now' gen data p.
Proof.
  intros Hle [Ht [Hc Hl]]. split; [exact Ht|]. split.
  - destruct (p_call p); simpl in *; [exact I|exact Hc| | |exact Hc];
      destruct Hc as [Hn Hr]; (split; [lia|exact Hr]).
  - unfold lease_ok in *. destruct (p_lease p) as [e|]; [|exact I].
    destruct Hl as [H1 [H2 H3]]. split; [exact H1|]. split; [exact H2|].
    intros H. specialize (H3 H). lia.
Qed.

(** A handle outlasts a write of another handle when its lease, if the
    object was at its tag, has run out. *)
Lemma proc_ok_written (now : time.Time) (gen : nat) (data data' : string)
    (q : proc) :
  proc_ok tag now gen data q ->
  (forall e, p_lease q = Some e -> etag (p_mu q) = cur_tag tag gen -> e < now) ->
  proc_ok tag now (S gen) data' q.
Proof.
  intros [Ht [Hc Hl]] Hexp. split; [apply tag_upto_S; exact Ht|]. split.
  - destruct (p_call q); simpl in *;
      [exact I|eapply read_ok_S; exact Hc| | |eapply read_ok_S; exact Hc];
      destruct Hc as [Hn Hr]; (split; [exact Hn|eapply read_ok_S; exact Hr]).
  - unfold lease_ok in *. destruct (p_lease q) as [e|]; [|exact I].
    destruct Hl as [H1 [H2 H3]]. split; [exact H1|]. split.
    + intros E. exfalso. exact (tag_upto_fresh _ _ Ht E).
    + intros _.
      destruct (string_dec (etag (p_mu q)) (cur_tag tag gen)) as [E|E].
      * apply (Hexp e eq_refl E).
      * apply H3. exact E.
Qed.

Lemma set_nth_lookup (procs : list proc) (i j : nat) (p' q : proc) :
  nth_error (set_nth i p' procs) j = Some q ->
  (j = i /\ q = p') \/ (j <> i /\ nth_error procs j = Some q).
Proof.
  rewrite nth_error_set_nth.
  destruct (Nat.eqb_spec j i) as [E|E].
  - destruct (nth_error procs i); intros H; inversion H; auto.
  - auto.
Qed.

(** Handles keep distinct tags when one of them takes a tag that no
    other handle carries. *)
Lemma distinct_tags_set (procs : list proc) (i : nat) (p' : proc) :
  distinct_tags procs ->
  (forall j q, j <> i -> nth_error procs j = Some q ->
               etag (p_mu q) = etag (p_mu p') ->
               etag (p_mu p') = EmptyString) ->
  distinct_tags (set_nth i p' procs).
Proof.
  intros Hd Hnew a b pa pb Hab Ha Hb E.
  destruct (set_nth_lookup _ _ _ _ _ Ha) as [[-> ->]|[Hai Ha']];
    destruct (set_nth_lookup _ _ _ _ _ Hb) as [[-> ->]|[Hbi Hb']].
  - contradiction.
  - apply (Hnew b pb Hbi Hb'). symmetry. exact E.
  - rewrite E. apply (Hnew a pa Hai Ha'). exact E.
  - exact (Hd a b pa pb Hab Ha' Hb' E).
Qed.

Lemma current_nonempty (data : string) :
  0 < len data -> current data = Unmarshal data.
Proof.
  intros H. unfold current. apply Z.ltb_lt in H. rewrite H. reflexivity.
Qed.

(** The moves keep the invariant. *)
Lemma moves_inv (w w' : world) : inv tag w -> moves tag w w' -> inv tag w'.
Proof.
  intros [Hp Hd] Hm.
  destruct Hm as [w|w now' Hle|w i p c now' Hi Hle Hc|w i p Hi|w i p Hi
                 |w i p expiresIn now1 now2 d content newData Hi Hc Hcur Hheld HM
                 |w i p d content newData Hi Hc Hne Ht Hcur HM].
  - split; assumption.
  - split; [|exact Hd]. cbn. intros j q Hj.
    apply (proc_ok_later _ _ _ _ _ Hle). exact (Hp j q Hj).
  - split; cbn.
    + intros j q Hj.
      destruct (set_nth_lookup _ _ _ _ _ Hj) as [[-> ->]|[Hji Hj']].
      * destruct (proc_ok_later _ _ _ _ _ Hle (Hp i p Hi)) as [H1 [_ H3]].
        split; [exact H1|]. split; [exact Hc|exact H3].
      * apply (proc_ok_later _ _ _ _ _ Hle). exact (Hp j q Hj').
    + apply distinct_tags_set; [exact Hd|]. cbn. intros j q Hji Hj E.
      rewrite <- E. apply (Hd j i q p Hji Hj Hi E).
  - split; cbn.
    + intros j q Hj.
      destruct (set_nth_lookup _ _ _ _ _ Hj) as [[-> ->]|[Hji Hj']].
      * destruct (Hp i p Hi) as [H1 [_ H3]].
        split; [exact H1|]. split; [exact I|exact H3].
      * exact (Hp j q Hj').
    + apply distinct_tags_set; [exact Hd|]. cbn. intros j q Hji Hj E.
      rewrite <- E. apply (Hd j i q p Hji Hj Hi E).
  - split; cbn.
    + intros j q Hj.
      destruct (set_nth_lookup _ _ _ _ _ Hj) as [[-> ->]|[Hji Hj']].
      * split; [left; destruct (p_mu p); reflexivity|].
        split; exact I.
      * exact (Hp j q Hj').
    + apply distinct_tags_set; [exact Hd|]. cbn. intros j q Hji Hj E.
      destruct (p_mu p); reflexivity.
  - (* the lock is acquired *)
    assert (Hread : d = w_data w).
    { destruct (Hp i p Hi) as [_ [Hcall _]]. rewrite Hc in Hcall.
      destruct Hcall as [_ Hr].
      destruct (Hr _ _ eq_refl) as [g [_ [Hg Hsame]]].
      apply Hsame. symmetry. apply cur_tag_inj. exact Hg. }
    assert (Hnow : now1 <= w_now w).
    { destruct (Hp i p Hi) as [_ [Hcall _]]. rewrite Hc in Hcall.
      destruct Hcall as [Hn _]. lia. }
    subst d.
    split; cbn.
    + intros j q Hj.
      destruct (set_nth_lookup _ _ _ _ _ Hj) as [[-> ->]|[Hji Hj']].
      * split; [right; exists (S (w_gen w)); split;
                [lia|destruct (p_mu p); reflexivity]|].
        split; [exact I|]. cbn.
        assert (Het : etag (set_etag (p_mu p) (tag (S (w_gen w))))
                      = tag (S (w_gen w))) by (destruct (p_mu p); reflexivity).
        rewrite ?Het. split; [apply tag_nonempty|]. split; [|congruence].
        intros _.
        destruct (Unmarshal_Marshal
                    {| ID := id (p_mu p);
                       Expires := Some (time.Add now2 expiresIn);
                       Fence := wrap64 (Fence content + 1) |}
                    newData (wrap64_ok _) HM) as [HU Hlen].
        split; [exact Hlen|]. eexists. split; [exact HU|reflexivity].
      * apply (proc_ok_written _ _ (w_data w)); [exact (Hp j q Hj')|].
        intros e Hlease Hcurtag.
        destruct (Hp j q Hj') as [_ [_ Hl]]. unfold lease_ok in Hl.
        rewrite Hlease in Hl. destruct Hl as [_ [HA _]].
        destruct (HA Hcurtag) as [Hlen [c [HU He]]].
        rewrite (current_nonempty _ Hlen), HU in Hcur.
        inversion Hcur; subst c.
        unfold held in Hheld. rewrite He in Hheld.
        unfold time.After in Hheld.
        destruct (Z.ltb_spec e now1); [lia|discriminate].
    + apply distinct_tags_set; [exact Hd|]. cbn. intros j q Hji Hj E.
      exfalso.
      destruct (Hp j q Hj) as [Hup _].
      apply (tag_upto_fresh _ _ Hup). rewrite E.
      destruct (p_mu p); reflexivity.
  - (* the record is cleared *)
    split; cbn.
    + intros j q Hj.
      destruct (set_nth_lookup _ _ _ _ _ Hj) as [[-> ->]|[Hji Hj']].
      * split; [left; destruct (p_mu p); reflexivity|].
        split; exact I.
      * apply (proc_ok_written _ _ (w_data w)); [exact (Hp j q Hj')|].
        intros e Hlease Hcurtag. exfalso.
        destruct (Hp j q Hj') as [_ [_ Hl]]. unfold lease_ok in Hl.
        rewrite Hlease in Hl. destruct Hl as [Hq _].
        apply Hq. apply (Hd j i q p Hji Hj' Hi). congruence.
    + apply distinct_tags_set; [exact Hd|]. cbn. intros j q Hji Hj E.
      destruct (p_mu p); reflexivity.
Qed.

Lemma init_inv (now : time.Time) (gen : nat) (data : string) (mus : list Mutex) :
  inv tag (init now gen data mus).
Proof.
  assert (Hf : forall i p, nth_error (map fresh mus) i = Some p ->
                           etag (p_mu p) = EmptyString
                           /\ p_call p = NoCall /\ p_lease p = None).
  { intros i p H. rewrite nth_error_map in H.
    destruct (nth_error mus i); inversion H; subst. auto. }
  split; cbn.
  - intros i p H. destruct (Hf i p H) as [H1 [H2 H3]].
    split; [left; exact H1|]. split; [rewrite H2; exact I|].
    unfold lease_ok. rewrite H3. exact I.
  - intros i j p q _ Hi _ _. exact (proj1 (Hf i p Hi)).
Qed.

Lemma run_inv (evs : list event) :
  forall w, inv tag w -> inv tag (run tag w evs).
Proof.
  induction evs as [|ev evs IH]; intros w Hw; [exact Hw|].
  cbn [run fold_left]. apply IH.
  exact (moves_inv _ _ Hw (step_moves w ev Hw)).
Qed.










End WorldProperties.

(** *** Runs *)

Lemma strokes_inj (m n : nat) : strokes m = strokes n -> m = n.
Proof.
  revert n. induction m as [|m IH]; intros [|n] H; simpl in H;
    try discriminate; [reflexivity|].
  inversion H. f_equal. apply IH. assumption.
Qed.

Lemma strokes_nonempty (n : nat) : strokes (S n) <> EmptyString.
Proof. discriminate. Qed.

(** Within the lease of [a] a call of [b] acquires nothing, wherever its
    steps fall. *)
Example contender_is_refused :
  let a := NewMutex "bucket" "key" "a" in
  let b := NewMutex "bucket" "key" "b" in
  let w := run (fun n => strokes (S n))
             (init 1730337072000000000 1 "{}" [a; b])
             [BeginTryLock 0 5000000000 None; BeginTryLock 1 5000000000 None;
              Now 0; Now 1; Now 0; Commit 0 None;
              Tick 1000000000; Now 1; Commit 1 None;
              BeginTryLock 1 5000000000 None; Now 1; Now 1; Commit 1 None] in
  w_tokens w = [1]
  /\ map p_lease (w_procs w) = [Some 1730337077000000000; None]
  /\ w_data w
     = json_text "{'id':'a','expires':'2024-10-31T01:11:17Z','fence':1}".
Proof. vm_compute. repeat split; reflexivity. Qed.





(** * Further properties *)

(** ** Lock *)

(** An attempt that is refused leaves the handle as it was and stores
    nothing. *)
Lemma refused_leaves (mu : Mutex) (expiresIn : time.Duration) (a : attempt) :
  refused mu expiresIn a ->
  TryLock mu expiresIn a
  = {| handle := mu; result_of := (false, -1, None); stored := None |}.
Proof.
  unfold refused, TryLock. rewrite AtomicUpdateObject_tryLock.
  destruct (x_get (a_exchange a)) as [[t d]|code]; [|simpl; discriminate].
  destruct (current d) as [content|e].
  2:{ cbn [returned written captured].
      destruct (errors_Is e errLockHeld || errors_Is e ErrConflict);
        simpl; [reflexivity|discriminate]. }
  destruct (held content (a_now1 a)); [reflexivity|].
  cbv zeta. destruct (Marshal _) as [newData|e].
  2:{ cbn [returned written captured].
      destruct (errors_Is e errLockHeld || errors_Is e ErrConflict);
        simpl; [reflexivity|discriminate]. }
  destruct (x_put (a_exchange a)); simpl; try discriminate; reflexivity.
Qed.

(** An attempt that acquires the lock has stored its record. *)
Lemma acquired_stores (mu : Mutex) (expiresIn : time.Duration) (a : attempt)
    (token : Z) (err : option error) :
  result_of (TryLock mu expiresIn a) = (true, token, err) ->
  exists newData, stored (TryLock mu expiresIn a) = Some newData.
Proof.
  unfold TryLock. rewrite AtomicUpdateObject_tryLock.
  destruct (x_get (a_exchange a)) as [[t d]|code]; [|simpl; discriminate].
  destruct (current d) as [content|e].
  2:{ cbn [returned written captured].
      destruct (errors_Is e errLockHeld || errors_Is e ErrConflict);
        simpl; discriminate. }
  destruct (held content (a_now1 a)); [simpl; discriminate|].
  cbv zeta. destruct (Marshal _) as [newData|e].
  2:{ cbn [returned written captured].
      destruct (errors_Is e errLockHeld || errors_Is e ErrConflict);
        simpl; discriminate. }
  destruct (x_put (a_exchange a)); simpl; try discriminate.
  intros _. exists newData. reflexivity.
Qed.

(** An attempt that fails leaves the handle as it was. *)
Lemma failed_leaves (mu : Mutex) (expiresIn : time.Duration) (a : attempt)
    (ok : bool) (token : Z) (err : error) :
  result_of (TryLock mu expiresIn a) = (ok, token, Some err) ->
  handle (TryLock mu expiresIn a) = mu.
Proof.
  unfold TryLock.
  destruct (returned _) as [newETag|e]; [simpl; discriminate|].
  destruct (errors_Is e errLockHeld || errors_Is e ErrConflict); reflexivity.
Qed.

(** The attempts that are refused leave nothing behind in the loop of
    [Lock] but the token of the last of them. *)
Lemma retry_refused (mu : Mutex) (expiresIn : time.Duration)
    (waits : list attempt) (run : list (tick attempt)) :
  Forall (refused mu expiresIn) waits ->
  forall token log,
    exists token',
      retry_Do (lockAttempt expiresIn) (map Run waits ++ run) (mu, token, log)
      = retry_Do (lockAttempt expiresIn) run (mu, token', log).
Proof.
  induction 1 as [|a waits Ha _ IH]; intros token log.
  - exists token. reflexivity.
  - cbn [map app retry_Do]. unfold lockAttempt at 1.
    rewrite (refused_leaves _ _ _ Ha). cbn.
    apply IH.
Qed.

(** X1.  [Lock] returns with the first attempt that acquires the lock:
    however many attempts were refused before it, the token is the one
    of that attempt, the handle carries the tag it was given, the only
    bytes stored are those of that attempt, and what the run holds
    after it is not looked at. *)
Theorem Lock_returns_first_acquisition (mu : Mutex) (expiresIn : time.Duration)
    (waits : list attempt) (a : attempt) (rest : list (tick attempt))
    (token : Z) :
  Forall (refused mu expiresIn) waits ->
  result_of (TryLock mu expiresIn a) = (true, token, None) ->
  exists newData,
    stored (TryLock mu expiresIn a) = Some newData
    /\ Lock mu expiresIn (map Run waits ++ Run a :: rest)
       = Some (handle (TryLock mu expiresIn a), [newData], (token, None)).
Proof.
  intros Hw Ha.
  destruct (acquired_stores mu expiresIn a token None Ha) as [newData Hs].
  exists newData. split; [exact Hs|].
  unfold Lock.
  destruct (retry_refused mu expiresIn waits (Run a :: rest) Hw 0 [])
    as [token' ->].
  cbn [retry_Do]. unfold lockAttempt. rewrite Hs, Ha. reflexivity.
Qed.

(** X2.  [Lock] gives up at the first attempt that returns an error,
    however many attempts were refused before it: the token is -1, the
    error is the one of the attempt as [retry.Unrecoverable] wraps it,
    in which [errors.Is] still finds it, and the handle is as it was. *)
Theorem Lock_stops_at_first_error (mu : Mutex) (expiresIn : time.Duration)
    (waits : list attempt) (a : attempt) (rest : list (tick attempt))
    (ok : bool) (token : Z) (err : error) :
  Forall (refused mu expiresIn) waits ->
  result_of (TryLock mu expiresIn a) = (ok, token, Some err) ->
  Lock mu expiresIn (map Run waits ++ Run a :: rest)
  = Some (mu,
          match stored (TryLock mu expiresIn a) with
          | Some b => [b]
          | None => []
          end,
          (-1, Some (unrecoverableError err)))
  /\ errors_Is (unrecoverableError err) err = true.
Proof.
  intros Hw Ha. split.
  - unfold Lock.
    destruct (retry_refused mu expiresIn waits (Run a :: rest) Hw 0 [])
      as [token' ->].
    cbn [retry_Do]. unfold lockAttempt.
    rewrite Ha, (failed_leaves _ _ _ _ _ _ Ha). cbn.
    destruct (stored (TryLock mu expiresIn a)); reflexivity.
  - cbn. rewrite errors_Is_refl. apply orb_true_r.
Qed.

(** X3.  When the context is done while [Lock] waits, [Lock] returns
    the error of the context with the token -1; the handle is as it was
    and nothing has been stored. *)
Theorem Lock_cancelled_while_waiting (mu : Mutex) (expiresIn : time.Duration)
    (waits : list attempt) (what : string) (rest : list (tick attempt)) :
  Forall (refused mu expiresIn) waits ->
  Lock mu expiresIn (map Run waits ++ CtxDone what :: rest)
  = Some (mu, [], (-1, Some (contextError what))).
Proof.
  intros Hw. unfold Lock.
  destruct (retry_refused mu expiresIn waits (CtxDone what :: rest) Hw 0 [])
    as [token' ->].
  reflexivity.
Qed.

(** X4.  [Lock] does not give up by itself: as long as every attempt is
    refused and the context is not done, it has not returned. *)
Theorem Lock_waits_while_refused (mu : Mutex) (expiresIn : time.Duration)
    (waits : list attempt) :
  Forall (refused mu expiresIn) waits ->
  Lock mu expiresIn (map Run waits) = None.
Proof.
  intros Hw. unfold Lock.
  destruct (retry_refused mu expiresIn waits [] Hw 0 []) as [token' H].
  rewrite app_nil_r in H. rewrite H. reflexivity.
Qed.

Lemma Lock_returns_first_acquisition_witness :
  let mu := NewMutex "bucket" "key" "b" in
  let held_until_17 :=
    json_text "{'id':'a','expires':'2024-10-31T01:11:17Z','fence':3}" in
  let a1 := {| a_now1 := 1730337076000000000; a_now2 := 1730337076000000000;
               a_exchange := {| x_get := Ok ("v1", held_until_17);
                                x_put := PutOk "v2" |} |} in
  let a2 := {| a_now1 := 1730337078000000000; a_now2 := 1730337078000000000;
               a_exchange := {| x_get := Ok ("v1", held_until_17);
                                x_put := PutOk "v2" |} |} in
  (Forall (refused mu 5000000000) [a1]
   /\ result_of (TryLock mu 5000000000 a2) = (true, 4, None))
  /\ exists newData,
       stored (TryLock mu 5000000000 a2) = Some newData
       /\ Lock mu 5000000000 (map Run [a1] ++ [Run a2])
          = Some (handle (TryLock mu 5000000000 a2), [newData], (4, None)).
Proof.
  assert (Hw : Forall (refused (NewMutex "bucket" "key" "b") 5000000000)
                 [{| a_now1 := 1730337076000000000;
                     a_now2 := 1730337076000000000;
                     a_exchange :=
                       {| x_get := Ok ("v1", json_text "{'id':'a','expires':'2024-10-31T01:11:17Z','fence':3}");
                          x_put := PutOk "v2" |} |}]).
  { constructor; [reflexivity|constructor]. }
  split; [split; [exact Hw|reflexivity]|].
  exact (Lock_returns_first_acquisition (NewMutex "bucket" "key" "b") 5000000000
           _ {| a_now1 := 1730337078000000000; a_now2 := 1730337078000000000;
                a_exchange :=
                  {| x_get := Ok ("v1", json_text "{'id':'a','expires':'2024-10-31T01:11:17Z','fence':3}");
                     x_put := PutOk "v2" |} |}
           [] 4 Hw eq_refl).
Defined.

Lemma Lock_stops_at_first_error_witness :
  let mu := NewMutex "bucket" "key" "b" in
  let held_until_17 :=
    json_text "{'id':'a','expires':'2024-10-31T01:11:17Z','fence':3}" in
  let a1 := {| a_now1 := 1730337076000000000; a_now2 := 1730337076000000000;
               a_exchange := {| x_get := Ok ("v1", held_until_17);
                                x_put := PutOk "v2" |} |} in
  let a2 := {| a_now1 := 1730337078000000000; a_now2 := 1730337078000000000;
               a_exchange := {| x_get := Err "AccessDenied";
                                x_put := PutOk "v2" |} |} in
  (Forall (refused mu 5000000000) [a1]
   /\ result_of (TryLock mu 5000000000 a2)
      = (false, -1, Some (apiError "AccessDenied")))
  /\ Lock mu 5000000000 (map Run [a1] ++ [Run a2])
     = Some (mu,
             match stored (TryLock mu 5000000000 a2) with
             | Some b => [b]
             | None => []
             end,
             (-1, Some (unrecoverableError (apiError "AccessDenied"))))
     /\ errors_Is (unrecoverableError (apiError "AccessDenied"))
          (apiError "AccessDenied") = true.
Proof.
  assert (Hw : Forall (refused (NewMutex "bucket" "key" "b") 5000000000)
                 [{| a_now1 := 1730337076000000000;
                     a_now2 := 1730337076000000000;
                     a_exchange :=
                       {| x_get := Ok ("v1", json_text "{'id':'a','expires':'2024-10-31T01:11:17Z','fence':3}");
                          x_put := PutOk "v2" |} |}]).
  { constructor; [reflexivity|constructor]. }
  split; [split; [exact Hw|reflexivity]|].
  exact (Lock_stops_at_first_error (NewMutex "bucket" "key" "b") 5000000000
           _ {| a_now1 := 1730337078000000000; a_now2 := 1730337078000000000;
                a_exchange := {| x_get := Err "AccessDenied";
                                 x_put := PutOk "v2" |} |}
           [] false (-1) (apiError "AccessDenied") Hw eq_refl).
Defined.

Lemma Lock_cancelled_while_waiting_witness :
  let mu := NewMutex "bucket" "key" "b" in
  let held_until_17 :=
    json_text "{'id':'a','expires':'2024-10-31T01:11:17Z','fence':3}" in
  let a1 := {| a_now1 := 1730337076000000000; a_now2 := 1730337076000000000;
               a_exchange := {| x_get := Ok ("v1", held_until_17);
                                x_put := PutOk "v2" |} |} in
  Forall (refused mu 5000000000) [a1]
  /\ Lock mu 5000000000 (map Run [a1] ++ [CtxDone "context deadline exceeded"])
     = Some (mu, [], (-1, Some (contextError "context deadline exceeded"))).
Proof.
  assert (Hw : Forall (refused (NewMutex "bucket" "key" "b") 5000000000)
                 [{| a_now1 := 1730337076000000000;
                     a_now2 := 1730337076000000000;
                     a_exchange :=
                       {| x_get := Ok ("v1", json_text "{'id':'a','expires':'2024-10-31T01:11:17Z','fence':3}");
                          x_put := PutOk "v2" |} |}]).
  { constructor; [reflexivity|constructor]. }
  split; [exact Hw|].
  exact (Lock_cancelled_while_waiting (NewMutex "bucket" "key" "b") 5000000000
           _ "context deadline exceeded" [] Hw).
Defined.

Lemma Lock_waits_while_refused_witness :
  let mu := NewMutex "bucket" "key" "b" in
  let held_until_17 :=
    json_text "{'id':'a','expires':'2024-10-31T01:11:17Z','fence':3}" in
  let a1 := {| a_now1 := 1730337076000000000; a_now2 := 1730337076000000000;
               a_exchange := {| x_get := Ok ("v1", held_until_17);
                                x_put := PutOk "v2" |} |} in
  let a2 := {| a_now1 := 1730337076500000000; a_now2 := 1730337076500000000;
               a_exchange := {| x_get := Ok ("v1", held_until_17);
                                x_put := PutOk "v2" |} |} in
  Forall (refused mu 5000000000) [a1; a2]
  /\ Lock mu 5000000000 (map Run [a1; a2]) = None.
Proof.
  assert (Hw : Forall (refused (NewMutex "bucket" "key" "b") 5000000000)
                 [{| a_now1 := 1730337076000000000;
                     a_now2 := 1730337076000000000;
                     a_exchange :=
                       {| x_get := Ok ("v1", json_text "{'id':'a','expires':'2024-10-31T01:11:17Z','fence':3}");
                          x_put := PutOk "v2" |} |};
                  {| a_now1 := 1730337076500000000;
                     a_now2 := 1730337076500000000;
                     a_exchange :=
                       {| x_get := Ok ("v1", json_text "{'id':'a','expires':'2024-10-31T01:11:17Z','fence':3}");
                          x_put := PutOk "v2" |} |}]).
  { constructor; [reflexivity|constructor; [reflexivity|constructor]]. }
  split; [exact Hw|].
  exact (Lock_waits_while_refused (NewMutex "bucket" "key" "b") 5000000000 _ Hw).
Defined.

(** ** Unlock *)

Lemma etag_set_etag (mu : Mutex) (t : string) : etag (set_etag mu t) = t.
Proof. destruct mu. reflexivity. Qed.

(** One round of [Unlock] ends the loop: it returns no error, or one that
    is not retried. *)
Lemma unlockAttempt_cases (mu : Mutex) (w : option string) (x : exchange) :
  exists w',
    unlockAttempt (mu, w) x = ((mu, w'), None)
    \/ exists err,
         unlockAttempt (mu, w) x = ((mu, w'), Some (unrecoverableError err)).
Proof.
  unfold unlockAttempt.
  destruct (returned _) as [t|e]; [eexists; left; reflexivity|].
  destruct (errors_Is e ErrConflict); eexists;
    [left; reflexivity|right; eexists; reflexivity].
Qed.

(** X5.  [Unlock] forgets the tag exactly when it returns no error: on
    every run on which it returns, either it returns no error and the
    handle is the one it was with the tag cleared, or it returns an error
    and the handle is as it was, tag included, so that [Unlock] can be
    called again. *)
Theorem Unlock_clears_tag_iff_released (mu : Mutex) (run : list (tick exchange))
    (e : effect (option error)) :
  Unlock mu run = Some e ->
  (result_of e = None /\ handle e = set_etag mu EmptyString)
  \/ (exists err, result_of e = Some err /\ handle e = mu).
Proof.
  unfold Unlock.
  destruct (String.eqb_spec (etag mu) EmptyString) as [He|He]; cbn [negb].
  - intros H. inversion H; subst. left. split; [reflexivity|].
    cbn. symmetry. apply set_etag_same. exact He.
  - destruct run as [|[what|x] rest]; cbn [retry_Do].
    + discriminate.
    + intros H. inversion H; subst. right. eexists. split; reflexivity.
    + destruct (unlockAttempt_cases mu None x) as [w' [->|[err ->]]];
        cbn [IsRecoverable]; intros H; inversion H; subst.
      * left. split; reflexivity.
      * right. eexists. split; reflexivity.
Qed.

Lemma Unlock_clears_tag_iff_released_witness :
  let mu := set_etag (NewMutex "bucket" "key" "b") "v2" in
  let e := {| handle := mu; result_of := Some (contextError "context canceled");
              stored := None |} in
  Unlock mu [CtxDone "context canceled"] = Some e
  /\ ((result_of e = None /\ handle e = set_etag mu EmptyString)
      \/ (exists err, result_of e = Some err /\ handle e = mu)).
Proof.
  split; [reflexivity|].
  exact (Unlock_clears_tag_iff_released
           (set_etag (NewMutex "bucket" "key" "b") "v2")
           [CtxDone "context canceled"]
           {| handle := set_etag (NewMutex "bucket" "key" "b") "v2";
              result_of := Some (contextError "context canceled");
              stored := None |} eq_refl).
Defined.

(** X6.  [Unlock] calls the provider at most once: whatever comes of the
    call, the run after it is not looked at; and when the context is done
    before the call, the provider is not called at all, nothing is
    stored, and the error of the context is returned. *)
Theorem Unlock_calls_provider_once (mu : Mutex) (rest : list (tick exchange)) :
  etag mu <> EmptyString ->
  (forall x, Unlock mu (Run x :: rest) = Unlock mu [Run x])
  /\ (forall what,
        Unlock mu (CtxDone what :: rest)
        = Some {| handle := mu; result_of := Some (contextError what);
                  stored := None |}).
Proof.
  intros He.
  assert (Hn : negb (String.eqb (etag mu) EmptyString) = true).
  { apply negb_true_iff, String.eqb_neq. exact He. }
  split.
  - intros x. unfold Unlock. rewrite Hn. cbn [retry_Do].
    destruct (unlockAttempt_cases mu None x) as [w' [->|[err ->]]];
      reflexivity.
  - intros what. unfold Unlock. rewrite Hn. reflexivity.
Qed.

Lemma Unlock_calls_provider_once_witness :
  let mu := set_etag (NewMutex "bucket" "key" "b") "v2" in
  etag mu <> EmptyString
  /\ (forall x, Unlock mu [Run x; CtxDone "context canceled"] = Unlock mu [Run x])
  /\ (forall what,
        Unlock mu [CtxDone what; CtxDone "context canceled"]
        = Some {| handle := mu; result_of := Some (contextError what);
                  stored := None |}).
Proof.
  split; [discriminate|].
  exact (Unlock_calls_provider_once
           (set_etag (NewMutex "bucket" "key" "b") "v2")
           [CtxDone "context canceled"] ltac:(discriminate)).
Defined.

(** X7.  After an [Unlock] that returned no error, [Unlock] does
    nothing: it returns no error on any run, does not call the provider
    and leaves the handle as it is. *)
Theorem Unlock_twice (mu : Mutex) (run run' : list (tick exchange))
    (e : effect (option error)) :
  Unlock mu run = Some e ->
  result_of e = None ->
  Unlock (handle e) run'
  = Some {| handle := handle e; result_of := None; stored := None |}.
Proof.
  intros HU Hr.
  assert (He : etag (handle e) = EmptyString).
  { unfold Unlock in HU.
    destruct (String.eqb_spec (etag mu) EmptyString) as [E|E]; cbn [negb] in HU.
    - inversion HU; subst. exact E.
    - destruct (retry_Do unlockAttempt run (mu, None)) as [[[mu' w] [err|]]|];
        inversion HU; subst; [discriminate|apply etag_set_etag]. }
  unfold Unlock. rewrite He. reflexivity.
Qed.

Lemma Unlock_twice_witness :
  let mu := set_etag (NewMutex "bucket" "key" "b") "v2" in
  let x := {| x_get := Ok ("v2", json_text "{'id':'b','expires':'2024-10-31T01:11:27Z','fence':3}");
              x_put := PutOk "v3" |} in
  let e := {| handle := NewMutex "bucket" "key" "b"; result_of := None;
              stored := Some (json_text "{'fence':3}") |} in
  (Unlock mu [Run x] = Some e /\ result_of e = None)
  /\ Unlock (handle e) [Run x]
     = Some {| handle := handle e; result_of := None; stored := None |}.
Proof.
  split; [split; reflexivity|].
  exact (Unlock_twice
           (set_etag (NewMutex "bucket" "key" "b") "v2")
           [Run {| x_get := Ok ("v2", json_text "{'id':'b','expires':'2024-10-31T01:11:27Z','fence':3}");
                   x_put := PutOk "v3" |}]
           [Run {| x_get := Ok ("v2", json_text "{'id':'b','expires':'2024-10-31T01:11:27Z','fence':3}");
                   x_put := PutOk "v3" |}]
           {| handle := NewMutex "bucket" "key" "b"; result_of := None;
              stored := Some (json_text "{'fence':3}") |}
           eq_refl eq_refl).
Defined.

(** X8.  Whatever [Unlock] stores is a record without holder and
    without expiry that carries the fence of the record it read, and it
    stores it only over the tag of the handle: it never writes a holder,
    never changes the fence, and never writes over a tag that is not its
    own. *)
Theorem Unlock_stores_cleared_record (mu : Mutex) (run : list (tick exchange))
    (e : effect (option error)) (newData : string) :
  Unlock mu run = Some e ->
  stored e = Some newData ->
  exists x rest currentData content,
    run = Run x :: rest
    /\ etag mu <> EmptyString
    /\ x_get x = Ok (etag mu, currentData)
    /\ current currentData = Ok content
    /\ Unmarshal newData
       = Ok {| ID := EmptyString; Expires := None; Fence := Fence content |}.
Proof.
  unfold Unlock.
  destruct (String.eqb_spec (etag mu) EmptyString) as [He|He]; cbn [negb].
  { intros H. inversion H; subst. discriminate. }
  destruct run as [|[what|x] rest]; cbn [retry_Do].
  { discriminate. }
  { intros H. inversion H; subst. discriminate. }
  intros HU Hs.
  assert (Hw : written (AtomicUpdateObject x (unlockUpdate mu)) = Some newData).
  { unfold unlockAttempt in HU.
    destruct (returned (AtomicUpdateObject x (unlockUpdate mu))) as [t|err].
    - inversion HU; subst. exact Hs.
    - destruct (errors_Is err ErrConflict); cbn [IsRecoverable] in HU;
        inversion HU; subst; exact Hs. }
  clear HU Hs. unfold AtomicUpdateObject in Hw.
  destruct (x_get x) as [[t d]|code] eqn:Hget; [|discriminate].
  rewrite unlockUpdate_cases in Hw.
  destruct (String.eqb_spec t (etag mu)) as [Ht|Ht]; cbn [negb] in Hw;
    [|discriminate].
  subst t.
  destruct (current d) as [content|err] eqn:Hcur; [|discriminate].
  destruct (Marshal_cleared (Fence content) (current_fence _ _ Hcur))
    as [data [HM [HUn _]]].
  rewrite HM in Hw.
  assert (data = newData).
  { destruct (x_put x); cbn in Hw; inversion Hw; reflexivity. }
  subst data.
  exists x, rest, d, content. auto.
Qed.

Lemma Unlock_stores_cleared_record_witness :
  let mu := set_etag (NewMutex "bucket" "key" "b") "v2" in
  let x := {| x_get := Ok ("v2", json_text "{'id':'b','expires':'2024-10-31T01:11:27Z','fence':3}");
              x_put := PutOk "v3" |} in
  let e := {| handle := NewMutex "bucket" "key" "b"; result_of := None;
              stored := Some (json_text "{'fence':3}") |} in
  (Unlock mu [Run x] = Some e /\ stored e = Some (json_text "{'fence':3}"))
  /\ exists x' rest currentData content,
       [Run x] = Run x' :: rest
       /\ etag mu <> EmptyString
       /\ x_get x' = Ok (etag mu, currentData)
       /\ current currentData = Ok content
       /\ Unmarshal (json_text "{'fence':3}")
          = Ok {| ID := EmptyString; Expires := None; Fence := Fence content |}.
Proof.
  split; [split; reflexivity|].
  exact (Unlock_stores_cleared_record
           (set_etag (NewMutex "bucket" "key" "b") "v2")
           [Run {| x_get := Ok ("v2", json_text "{'id':'b','expires':'2024-10-31T01:11:27Z','fence':3}");
                   x_put := PutOk "v3" |}]
           {| handle := NewMutex "bucket" "key" "b"; result_of := None;
              stored := Some (json_text "{'fence':3}") |}
           (json_text "{'fence':3}") eq_refl eq_refl).
Defined.

(** ** TryLock, when the lock is free *)

(** The years of the instants that a clock between 1970 and the year
    8000 and an [int64] of nanoseconds can add up to. *)
Lemma Year_in_range (t : time.Time) :
  - 9223372036854775808 <= t <= 200000000000 * 1000000000 + 9223372036854775807 ->
  0 <= time.Year t <= 9999.
Proof.
  intros Ht.
  unfold time.Year, time.civil, time.Second.
  set (d0 := t / 1000000000 / 86400 + time.unixEpochDay).
  assert (Hd : 0 <= d0 < 3506328).
  { subst d0. unfold time.unixEpochDay. dlia. }
  clearbody d0. clear Ht.
  unfold time.absDate, time.daysPer400Years, time.daysPer100Years,
    time.daysPer4Years.
  cbv zeta.
  set (n400 := d0 / 146097).
  set (d1 := d0 - 146097 * n400).
  assert (H400 : 0 <= n400 <= 23) by (subst n400; dlia).
  assert (H1 : 0 <= d1 < 146097) by (subst d1 n400; dlia).
  set (n100 := d1 / 36524 - d1 / 36524 / 4).
  assert (H100 : 0 <= n100 <= 3) by (subst n100; dlia).
  set (d2 := d1 - 36524 * n100).
  assert (H2 : 0 <= d2 < 36525) by (subst d2 n100; dlia).
  set (n4 := d2 / 1461).
  assert (H4 : 0 <= n4 <= 24) by (subst n4; dlia).
  set (d3 := d2 - 1461 * n4).
  assert (H3 : 0 <= d3 < 1461) by (subst d3 n4; dlia).
  set (n1 := d3 / 365 - d3 / 365 / 4).
  assert (Hn1 : 0 <= n1 <= 3) by (subst n1; dlia).
  clearbody n1 n4 n100 n400.
  destruct (_ && _); [lia|].
  destruct (_ <=? _); lia.
Qed.

(** The record of a new holder is always encoded, when the clock is
    between 1970 and 200000000000 seconds later and the lease length is an
    [int64], and the bytes read back as the record. *)
Lemma Marshal_new_holder (mu : Mutex) (expiresIn : time.Duration)
    (now2 : time.Time) (fence : Z) :
  0 <= now2 <= 200000000000 * time.Second ->
  int64_ok expiresIn ->
  int64_ok fence ->
  exists newData,
    Marshal {| ID := id mu; Expires := Some (time.Add now2 expiresIn);
               Fence := fence |} = Ok newData
    /\ current newData
       = Ok {| ID := utf8.coerce (id mu);
               Expires := Some (time.Add now2 expiresIn);
               Fence := fence |}.
Proof.
  intros Hnow Hlen Hf.
  assert (Hy : 0 <= time.Year (time.Add now2 expiresIn) <= 9999).
  { apply Year_in_range.
    unfold time.Add, time.Second, int64_ok, strconv.MinInt64,
      strconv.MaxInt64 in *. lia. }
  destruct (MarshalJSON_total _ Hy) as [text Ht].
  set (c' := {| ID := id mu; Expires := Some (time.Add now2 expiresIn);
                Fence := fence |}).
  assert (HM : exists newData, Marshal c' = Ok newData).
  { unfold Marshal, member_Expires. cbn [Expires c']. rewrite Ht.
    eexists. reflexivity. }
  destruct HM as [newData HM]. exists newData. split; [exact HM|].
  destruct (Unmarshal_Marshal c' newData Hf HM) as [HU Hpos].
  unfold current. apply Z.ltb_lt in Hpos. rewrite Hpos. exact HU.
Qed.

(** X9.  [TryLock] acquires a lock that is free whenever the storage
    lets it: when the record read is not held and the write is accepted,
    with a clock between 1970 and 200000000000 seconds later and a lease
    length that is an [int64], the call returns the lock with the fence
    read plus one ([int64]) as token, carries the new tag, and has stored
    bytes that decode to the record of the new holder.  In particular its
    own record never fails to encode. *)
Theorem TryLock_acquires_when_free (mu : Mutex) (expiresIn : time.Duration)
    (a : attempt) (currentETag currentData : string) (content : mutexContent)
    (newETag : string) :
  x_get (a_exchange a) = Ok (currentETag, currentData) ->
  current currentData = Ok content ->
  held content (a_now1 a) = false ->
  x_put (a_exchange a) = PutOk newETag ->
  0 <= a_now2 a <= 200000000000 * time.Second ->
  int64_ok expiresIn ->
  exists newData,
    TryLock mu expiresIn a
    = {| handle := set_etag mu newETag;
         result_of := (true, wrap64 (Fence content + 1), None);
         stored := Some newData |}
    /\ current newData
       = Ok {| ID := utf8.coerce (id mu);
               Expires := Some (time.Add (a_now2 a) expiresIn);
               Fence := wrap64 (Fence content + 1) |}.
Proof.
  intros Hget Hcur Hheld Hput Hnow Hlen.
  destruct (Marshal_new_holder mu expiresIn (a_now2 a)
              (wrap64 (Fence content + 1)) Hnow Hlen (wrap64_ok _))
    as [newData [HM Hback]].
  exists newData. split; [|exact Hback].
  unfold TryLock. rewrite AtomicUpdateObject_tryLock, Hget, Hcur, Hheld.
  cbv zeta. rewrite HM, Hput. reflexivity.
Qed.

Lemma TryLock_acquires_when_free_witness :
  let mu := NewMutex "bucket" "key" "b" in
  let data := json_text "{'id':'a','expires':'2024-10-31T01:11:17Z','fence':3}" in
  let a := {| a_now1 := 1730337078000000000; a_now2 := 1730337078000000005;
              a_exchange := {| x_get := Ok ("v1", data); x_put := PutOk "v2" |} |} in
  (x_get (a_exchange a) = Ok ("v1", data)
   /\ current data
      = Ok {| ID := "a"; Expires := Some 1730337077000000000; Fence := 3 |}
   /\ held {| ID := "a"; Expires := Some 1730337077000000000; Fence := 3 |}
        (a_now1 a) = false
   /\ x_put (a_exchange a) = PutOk "v2"
   /\ 0 <= a_now2 a <= 200000000000 * time.Second
   /\ int64_ok 5000000000)
  /\ exists newData,
       TryLock mu 5000000000 a
       = {| handle := set_etag mu "v2";
            result_of := (true, wrap64 (3 + 1), None);
            stored := Some newData |}
       /\ current newData
          = Ok {| ID := utf8.coerce (id mu);
                  Expires := Some (time.Add (a_now2 a) 5000000000);
                  Fence := wrap64 (3 + 1) |}.
Proof.
  assert (Hnow : 0 <= 1730337078000000005 <= 200000000000 * time.Second).
  { unfold time.Second. lia. }
  assert (Hlen : int64_ok 5000000000).
  { unfold int64_ok, strconv.MinInt64, strconv.MaxInt64. lia. }
  split.
  - repeat split; try reflexivity; try apply Hnow; apply Hlen.
  - exact (TryLock_acquires_when_free (NewMutex "bucket" "key" "b") 5000000000
             {| a_now1 := 1730337078000000000; a_now2 := 1730337078000000005;
                a_exchange :=
                  {| x_get := Ok ("v1", json_text "{'id':'a','expires':'2024-10-31T01:11:17Z','fence':3}");
                     x_put := PutOk "v2" |} |}
             "v1" (json_text "{'id':'a','expires':'2024-10-31T01:11:17Z','fence':3}")
             {| ID := "a"; Expires := Some 1730337077000000000; Fence := 3 |}
             "v2" eq_refl eq_refl eq_refl eq_refl Hnow Hlen).
Defined.

(** X10.  On an object that does not exist yet (no tag, no bytes)
    [TryLock] asks for nothing but the write: when the write is accepted
    it acquires the lock with the token 1, whatever the clock reads for
    the test of the expiry. *)
Theorem TryLock_on_absent_object (mu : Mutex) (expiresIn : time.Duration)
    (a : attempt) (newETag : string) :
  x_get (a_exchange a) = Ok (EmptyString, EmptyString) ->
  x_put (a_exchange a) = PutOk newETag ->
  0 <= a_now2 a <= 200000000000 * time.Second ->
  int64_ok expiresIn ->
  exists newData,
    TryLock mu expiresIn a
    = {| handle := set_etag mu newETag;
         result_of := (true, 1, None);
         stored := Some newData |}
    /\ current newData
       = Ok {| ID := utf8.coerce (id mu);
               Expires := Some (time.Add (a_now2 a) expiresIn);
               Fence := 1 |}.
Proof.
  intros Hget Hput Hnow Hlen.
  assert (H1 : int64_ok 1).
  { unfold int64_ok, strconv.MinInt64, strconv.MaxInt64. lia. }
  destruct (Marshal_new_holder mu expiresIn (a_now2 a) 1 Hnow Hlen H1)
    as [newData [HM Hback]].
  exists newData. split; [|exact Hback].
  unfold TryLock. rewrite AtomicUpdateObject_tryLock, Hget.
  change (current EmptyString) with (@Ok error _ zeroContent).
  cbn [held zeroContent Expires Fence]. cbv zeta.
  change (wrap64 (0 + 1)) with 1. rewrite HM, Hput. reflexivity.
Qed.

Lemma TryLock_on_absent_object_witness :
  let mu := NewMutex "bucket" "key" "b" in
  let a := {| a_now1 := 1730337078000000000; a_now2 := 1730337078000000005;
              a_exchange := {| x_get := Ok ("", ""); x_put := PutOk "v1" |} |} in
  (x_get (a_exchange a) = Ok ("", "")
   /\ x_put (a_exchange a) = PutOk "v1"
   /\ 0 <= a_now2 a <= 200000000000 * time.Second
   /\ int64_ok 5000000000)
  /\ exists newData,
       TryLock mu 5000000000 a
       = {| handle := set_etag mu "v1"; result_of := (true, 1, None);
            stored := Some newData |}
       /\ current newData
          = Ok {| ID := utf8.coerce (id mu);
                  Expires := Some (time.Add (a_now2 a) 5000000000);
                  Fence := 1 |}.
Proof.
  assert (Hnow : 0 <= 1730337078000000005 <= 200000000000 * time.Second).
  { unfold time.Second. lia. }
  assert (Hlen : int64_ok 5000000000).
  { unfold int64_ok, strconv.MinInt64, strconv.MaxInt64. lia. }
  split.
  - repeat split; try reflexivity; try apply Hnow; apply Hlen.
  - exact (TryLock_on_absent_object (NewMutex "bucket" "key" "b") 5000000000
             {| a_now1 := 1730337078000000000; a_now2 := 1730337078000000005;
                a_exchange := {| x_get := Ok ("", ""); x_put := PutOk "v1" |} |}
             "v1" eq_refl eq_refl Hnow Hlen).
Defined.

(** ** Lock, then Unlock *)

(** What an attempt that acquires the lock has stored, and under which
    tag. *)
Lemma acquired_record (mu : Mutex) (expiresIn : time.Duration) (a : attempt)
    (token : Z) (err : option error) :
  result_of (TryLock mu expiresIn a) = (true, token, err) ->
  exists newETag newData,
    TryLock mu expiresIn a
    = {| handle := set_etag mu newETag; result_of := (true, token, None);
         stored := Some newData |}
    /\ 0 < len newData
    /\ exists c, Unmarshal newData = Ok c /\ Fence c = token.
Proof.
  unfold TryLock. rewrite AtomicUpdateObject_tryLock.
  destruct (x_get (a_exchange a)) as [[t d]|code]; [|simpl; discriminate].
  destruct (current d) as [content|e].
  2:{ cbn [returned written captured].
      destruct (errors_Is e errLockHeld || errors_Is e ErrConflict);
        simpl; discriminate. }
  destruct (held content (a_now1 a)); [simpl; discriminate|].
  cbv zeta. destruct (Marshal _) as [newData|e] eqn:HM.
  2:{ cbn [returned written captured].
      destruct (errors_Is e errLockHeld || errors_Is e ErrConflict);
        simpl; discriminate. }
  destruct (x_put (a_exchange a)) as [newETag| | |]; simpl; try discriminate.
  intros H. inversion H; subst.
  exists newETag, newData. split; [reflexivity|].
  destruct (Unmarshal_Marshal
              {| ID := id mu;
                 Expires := Some (time.Add (a_now2 a) expiresIn);
                 Fence := wrap64 (Fence content + 1) |}
              newData (wrap64_ok _) HM) as [HU Hpos].
  split; [exact Hpos|]. eexists. split; [exact HU|reflexivity].
Qed.

(** X11.  [Lock] (or [TryLock]) and then [Unlock], as the callers do:
    when the handle has acquired the lock under a tag, and [Unlock] finds
    the object as the handle left it and its write is accepted, [Unlock]
    returns no error, the handle has no tag any more, and the record left
    behind has no holder and no expiry, so that it is held at no time,
    and carries the token of the acquisition as its fence. *)
Theorem Unlock_after_TryLock (mu : Mutex) (expiresIn : time.Duration)
    (a : attempt) (token : Z) (x : exchange) (rest : list (tick exchange))
    (newData tag' : string) :
  result_of (TryLock mu expiresIn a) = (true, token, None) ->
  stored (TryLock mu expiresIn a) = Some newData ->
  etag (handle (TryLock mu expiresIn a)) <> EmptyString ->
  x_get x = Ok (etag (handle (TryLock mu expiresIn a)), newData) ->
  x_put x = PutOk tag' ->
  exists cleared,
    Unlock (handle (TryLock mu expiresIn a)) (Run x :: rest)
    = Some {| handle := set_etag mu EmptyString; result_of := None;
              stored := Some cleared |}
    /\ current cleared
       = Ok {| ID := EmptyString; Expires := None; Fence := token |}
    /\ forall now,
         held {| ID := EmptyString; Expires := None; Fence := token |} now
         = false.
Proof.
  intros Hr Hs Htag Hget Hput.
  destruct (acquired_record mu expiresIn a token None Hr)
    as [newETag [d [HT [Hpos [c [HU Hf]]]]]].
  rewrite HT in *. cbn [handle stored] in *. inversion Hs; subst d. clear Hs.
  set (mu1 := set_etag mu newETag) in *.
  assert (Hfence : int64_ok token).
  { rewrite <- Hf. exact (Unmarshal_fence _ _ HU). }
  destruct (Marshal_cleared token Hfence) as [cleared [HM [HUc Hposc]]].
  exists cleared. split; [|split].
  - assert (Hn : negb (String.eqb (etag mu1) EmptyString) = true).
    { apply negb_true_iff, String.eqb_neq. exact Htag. }
    unfold Unlock. rewrite Hn. cbn [retry_Do].
    unfold unlockAttempt, AtomicUpdateObject. rewrite Hget.
    rewrite unlockUpdate_cases, String.eqb_refl. cbn [negb].
    rewrite (current_nonempty _ Hpos), HU, Hf, HM, Hput.
    cbn. unfold mu1. destruct mu. reflexivity.
  - rewrite (current_nonempty _ Hposc). exact HUc.
  - intros now. reflexivity.
Qed.

Lemma Unlock_after_TryLock_witness :
  let mu := NewMutex "bucket" "key" "b" in
  let a := {| a_now1 := 1730337078000000000; a_now2 := 1730337078000000000;
              a_exchange := {| x_get := Ok ("", ""); x_put := PutOk "v1" |} |} in
  let newData := json_text "{'id':'b','expires':'2024-10-31T01:11:23Z','fence':1}" in
  let x := {| x_get := Ok ("v1", newData); x_put := PutOk "v2" |} in
  (result_of (TryLock mu 5000000000 a) = (true, 1, None)
   /\ stored (TryLock mu 5000000000 a) = Some newData
   /\ etag (handle (TryLock mu 5000000000 a)) <> EmptyString
   /\ x_get x = Ok (etag (handle (TryLock mu 5000000000 a)), newData)
   /\ x_put x = PutOk "v2")
  /\ exists cleared,
       Unlock (handle (TryLock mu 5000000000 a)) [Run x]
       = Some {| handle := set_etag mu EmptyString; result_of := None;
                 stored := Some cleared |}
       /\ current cleared
          = Ok {| ID := EmptyString; Expires := None; Fence := 1 |}
       /\ forall now,
            held {| ID := EmptyString; Expires := None; Fence := 1 |} now
            = false.
Proof.
  cbv zeta.
  set (mu := NewMutex "bucket" "key" "b").
  set (a := {| a_now1 := 1730337078000000000; a_now2 := 1730337078000000000;
               a_exchange := {| x_get := Ok ("", ""); x_put := PutOk "v1" |} |}).
  set (newData := json_text "{'id':'b','expires':'2024-10-31T01:11:23Z','fence':1}").
  assert (H1 : result_of (TryLock mu 5000000000 a) = (true, 1, None)).
  { vm_compute. reflexivity. }
  assert (H2 : stored (TryLock mu 5000000000 a) = Some newData).
  { vm_compute. reflexivity. }
  assert (H3 : etag (handle (TryLock mu 5000000000 a)) <> EmptyString).
  { vm_compute. discriminate. }
  assert (H4 : x_get {| x_get := Ok ("v1", newData); x_put := PutOk "v2" |}
               = Ok (etag (handle (TryLock mu 5000000000 a)), newData)).
  { vm_compute. reflexivity. }
  split; [repeat split; assumption|].
  exact (Unlock_after_TryLock mu 5000000000 a 1
           {| x_get := Ok ("v1", newData); x_put := PutOk "v2" |} []
           newData "v2" H1 H2 H3 H4 eq_refl).
Defined.

(** ** More on several handles *)

Lemma nth_error_set_nth_same {A : Type} (l : list A) (i : nat) (x y : A) :
  nth_error l i = Some x -> nth_error (set_nth i y l) i = Some y.
Proof.
  intros H. rewrite nth_error_set_nth, Nat.eqb_refl, H. reflexivity.
Qed.

Lemma set_nth_twice {A : Type} (l : list A) (i : nat) (x y : A) :
  set_nth i y (set_nth i x l) = set_nth i y l.
Proof.
  revert i. induction l as [|h t IH]; intros [|i]; simpl; try reflexivity.
  rewrite IH. reflexivity.
Qed.

Section MoreWorldProperties.

Variable tag : nat -> string.
Hypothesis tag_inj : forall m n, tag m = tag n -> m = n.
Hypothesis tag_nonempty : forall n, tag n <> EmptyString.






(** X13.  No two handles carry the same tag, unless it is the empty
    one: the tag test of [Unlock] passes for one handle at most. *)
Theorem handles_carry_distinct_tags (now : time.Time) (gen : nat)
    (data : string) (mus : list Mutex) (evs : list event) (i j : nat)
    (p q : proc) :
  let w := run tag (init now gen data mus) evs in
  nth_error (w_procs w) i = Some p ->
  nth_error (w_procs w) j = Some q ->
  etag (p_mu p) = etag (p_mu q) ->
  etag (p_mu p) <> EmptyString ->
  i = j.
Proof.
  cbv zeta. intros Hi Hj E Hne.
  destruct (run_inv tag tag_inj tag_nonempty evs _
              (init_inv tag now gen data mus)) as [_ Hd].
  destruct (Nat.eq_dec i j) as [Y|N]; [exact Y|].
  exfalso. exact (Hne (Hd i j p q N Hi Hj E)).
Qed.


End MoreWorldProperties.

Lemma strokes_tags_inj (m n : nat) : strokes (S m) = strokes (S n) -> m = n.
Proof.
  intros H. apply strokes_inj in H. inversion H. reflexivity.
Qed.


Lemma handles_carry_distinct_tags_witness :
  let a := NewMutex "bucket" "key" "a" in
  let b := NewMutex "bucket" "key" "b" in
  let w := run (fun n => strokes (S n))
             (init 1730337072000000000 1 "{}" [a; b])
             (tryLock_alone 0 5000000000) in
  let p := {| p_mu := set_etag a "|||"; p_call := NoCall;
              p_lease := Some 1730337077000000000 |} in
  ((forall m n, strokes (S m) = strokes (S n) -> m = n)
   /\ (forall n, strokes (S n) <> EmptyString)
   /\ nth_error (w_procs w) 0 = Some p
   /\ etag (p_mu p) = etag (p_mu p)
   /\ etag (p_mu p) <> EmptyString)
  /\ 0%nat = 0%nat.
Proof.
  cbv zeta.
  assert (Hp : nth_error
                 (w_procs
                    (run (fun n => strokes (S n))
                       (init 1730337072000000000 1 "{}"
                          [NewMutex "bucket" "key" "a";
                           NewMutex "bucket" "key" "b"])
                       (tryLock_alone 0 5000000000))) 0
               = Some {| p_mu := set_etag (NewMutex "bucket" "key" "a") "|||";
                         p_call := NoCall;
                         p_lease := Some 1730337077000000000 |}).
  { vm_compute. reflexivity. }
  assert (Hne : etag (p_mu {| p_mu := set_etag (NewMutex "bucket" "key" "a") "|||";
                              p_call := NoCall;
                              p_lease := Some 1730337077000000000 |})
                <> EmptyString).
  { discriminate. }
  split.
  - split; [exact strokes_tags_inj|]. split; [exact strokes_nonempty|].
    split; [exact Hp|]. split; [reflexivity|exact Hne].
  - exact (handles_carry_distinct_tags (fun n => strokes (S n)) strokes_tags_inj
             strokes_nonempty 1730337072000000000 1 "{}"
             [NewMutex "bucket" "key" "a"; NewMutex "bucket" "key" "b"]
             (tryLock_alone 0 5000000000) 0%nat 0%nat _ _ Hp Hp eq_refl Hne).
Defined.


(** X15.  A lock that is free is taken by whoever asks: from any state
    of the world in which the record is not held at the time of the clock
    (it was never taken, it was released, or its lease has run out and
    its holder is gone), a call of [TryLock] that runs alone and meets no
    failure acquires the lock: the handle holds a lease of the length
    asked for, under the tag of the new revision, and the token is the
    fence of the record plus one. *)
Theorem free_lock_is_taken (tag : nat -> string) (w : world) (i : nat)
    (p : proc) (c : mutexContent) (expiresIn : time.Duration) :
  nth_error (w_procs w) i = Some p ->
  p_call p = NoCall ->
  current (w_data w) = Ok c ->
  held c (w_now w) = false ->
  0 <= w_now w <= 200000000000 * time.Second ->
  int64_ok expiresIn ->
  let w' := run tag w (tryLock_alone i expiresIn) in
  w_gen w' = S (w_gen w)
  /\ w_tokens w' = (w_tokens w ++ [wrap64 (Fence c + 1)])%list
  /\ current (w_data w')
     = Ok {| ID := utf8.coerce (id (p_mu p));
             Expires := Some (w_now w + expiresIn);
             Fence := wrap64 (Fence c + 1) |}
  /\ nth_error (w_procs w') i
     = Some {| p_mu := set_etag (p_mu p) (tag (S (w_gen w)));
               p_call := NoCall;
               p_lease := Some (w_now w + expiresIn) |}.
Proof.
  intros Hi Hc Hcur Hheld Hnow Hlen. cbv zeta.
  destruct (Marshal_new_holder (p_mu p) expiresIn (w_now w)
              (wrap64 (Fence c + 1)) Hnow Hlen (wrap64_ok _))
    as [newData [HM Hback]].
  unfold tryLock_alone, run. cbn [fold_left].
  (* the read *)
  cbn [step]. rewrite Hi, Hc. cbn [read_now].
  (* the two readings of the clock *)
  cbn [step w_procs w_now w_gen w_data w_tokens].
  rewrite (nth_error_set_nth_same _ _ _ _ Hi). cbn [p_call p_mu p_lease].
  rewrite set_nth_twice.
  cbn [step w_procs w_now w_gen w_data w_tokens].
  rewrite (nth_error_set_nth_same _ _ _ _ Hi). cbn [p_call p_mu p_lease].
  rewrite set_nth_twice.
  (* the write *)
  cbn [step w_procs w_now w_gen w_data w_tokens].
  rewrite (nth_error_set_nth_same _ _ _ _ Hi). cbn [p_call p_mu p_lease].
  unfold put_now. cbn [w_gen]. rewrite String.eqb_refl.
  unfold TryLock. rewrite AtomicUpdateObject_tryLock.
  cbn [a_exchange x_get x_put a_now1 a_now2].
  rewrite Hcur, Hheld. cbv zeta. rewrite HM.
  cbn [returned captured written result_of stored handle after_put
       w_gen w_data w_tokens w_procs w_now].
  rewrite set_nth_twice.
  split; [reflexivity|]. split; [reflexivity|]. split; [exact Hback|].
  apply (nth_error_set_nth_same _ _ _ _ Hi).
Qed.

Lemma free_lock_is_taken_witness :
  let a := NewMutex "bucket" "key" "a" in
  let b := NewMutex "bucket" "key" "b" in
  let w := init 1730337078000000000 1
             (json_text "{'id':'a','expires':'2024-10-31T01:11:17Z','fence':3}")
             [a; b] in
  let c := {| ID := "a"; Expires := Some 1730337077000000000; Fence := 3 |} in
  let w' := run (fun n => strokes (S n)) w (tryLock_alone 1 5000000000) in
  (nth_error (w_procs w) 1 = Some (fresh b)
   /\ p_call (fresh b) = NoCall
   /\ current (w_data w) = Ok c
   /\ held c (w_now w) = false
   /\ 0 <= w_now w <= 200000000000 * time.Second
   /\ int64_ok 5000000000)
  /\ w_gen w' = S (w_gen w)
     /\ w_tokens w' = (w_tokens w ++ [wrap64 (Fence c + 1)])%list
     /\ current (w_data w')
        = Ok {| ID := utf8.coerce (id (p_mu (fresh b)));
                Expires := Some (w_now w + 5000000000);
                Fence := wrap64 (Fence c + 1) |}
     /\ nth_error (w_procs w') 1
        = Some {| p_mu := set_etag (p_mu (fresh b)) (strokes (S (S (w_gen w))));
                  p_call := NoCall;
                  p_lease := Some (w_now w + 5000000000) |}.
Proof.
  assert (Hnow : 0 <= 1730337078000000000 <= 200000000000 * time.Second).
  { unfold time.Second. lia. }
  assert (Hlen : int64_ok 5000000000).
  { unfold int64_ok, strconv.MinInt64, strconv.MaxInt64. lia. }
  split.
  - repeat split; try reflexivity; try apply Hnow; apply Hlen.
  - exact (free_lock_is_taken (fun n => strokes (S n))
             (init 1730337078000000000 1
                (json_text "{'id':'a','expires':'2024-10-31T01:11:17Z','fence':3}")
                [NewMutex "bucket" "key" "a"; NewMutex "bucket" "key" "b"])
             1 (fresh (NewMutex "bucket" "key" "b"))
             {| ID := "a"; Expires := Some 1730337077000000000; Fence := 3 |}
             5000000000 eq_refl eq_refl eq_refl eq_refl Hnow Hlen).
Defined.

(** ** The adapters *)

Lemma trimLeftByte_first (s : string) (c : ascii) :
  first_byte (strings.trimLeftByte s c) <> Some c.
Proof.
  induction s as [|a t IH]; simpl; [discriminate|].
  destruct (Ascii.eqb_spec a c) as [E|E]; [exact IH|].
  simpl. intros H. inversion H. contradiction.
Qed.

Lemma trimLeftByte_last (s : string) (c : ascii) :
  last_byte s <> Some c -> last_byte (strings.trimLeftByte s c) <> Some c.
Proof.
  induction s as [|a t IH]; simpl; [discriminate|].
  intros H. destruct (Ascii.eqb a c); [|exact H].
  apply IH. destruct t; [discriminate|exact H].
Qed.

Lemma trimRightByte_last (s : string) (c : ascii) :
  last_byte (strings.trimRightByte s c) <> Some c.
Proof.
  induction s as [|a t IH]; simpl; [discriminate|].
  destruct (strings.trimRightByte t c) as [|b r] eqn:Hr.
  - destruct (Ascii.eqb_spec a c) as [E|E]; simpl; [discriminate|].
    intros H. inversion H. contradiction.
  - exact IH.
Qed.

Lemma trimLeftByte_fixed (s : string) (c : ascii) :
  first_byte s <> Some c -> strings.trimLeftByte s c = s.
Proof.
  destruct s as [|a t]; simpl; [reflexivity|].
  intros H. destruct (Ascii.eqb_spec a c) as [E|E]; [|reflexivity].
  subst. contradiction.
Qed.

Lemma trimRightByte_fixed (s : string) (c : ascii) :
  last_byte s <> Some c -> strings.trimRightByte s c = s.
Proof.
  induction s as [|a t IH]; simpl; [reflexivity|].
  intros H. destruct t as [|b r].
  - simpl. destruct (Ascii.eqb_spec a c) as [E|E]; [|reflexivity].
    subst. contradiction.
  - rewrite (IH H). reflexivity.
Qed.

Lemma trimRightByte_snoc (s : string) (c : ascii) :
  last_byte s <> Some c ->
  strings.trimRightByte (s ++ String c EmptyString) c = s.
Proof.
  induction s as [|a t IH]; intros H.
  - simpl. rewrite Ascii.eqb_refl. reflexivity.
  - cbn [append strings.trimRightByte]. destruct t as [|b r].
    + simpl. rewrite Ascii.eqb_refl.
      destruct (Ascii.eqb_spec a c) as [E|E]; [|reflexivity].
      subst. contradiction.
    + rewrite (IH H). reflexivity.
Qed.

Lemma Trim_unquoted (s : string) : unquoted (strings.Trim s "034").
Proof.
  unfold unquoted, strings.Trim. split.
  - apply trimLeftByte_first.
  - apply trimLeftByte_last, trimRightByte_last.
Qed.

Lemma Trim_fixed (s : string) : unquoted s -> strings.Trim s "034" = s.
Proof.
  intros [H1 H2]. unfold strings.Trim.
  rewrite (trimRightByte_fixed _ _ H2). apply trimLeftByte_fixed. exact H1.
Qed.

Lemma Trim_quoted (s : string) : unquoted s -> strings.Trim (quoted s) "034" = s.
Proof.
  intros [H1 H2]. unfold strings.Trim, quoted.
  cbn [strings.trimRightByte]. rewrite (trimRightByte_snoc _ _ H2).
  destruct s as [|a t]; [reflexivity|].
  change (strings.trimLeftByte (String "034" (String a t)) "034")
    with (if Ascii.eqb "034" "034"
          then strings.trimLeftByte (String a t) "034"
          else String "034" (String a t)).
  rewrite Ascii.eqb_refl.
  apply trimLeftByte_fixed. exact H1.
Qed.

Lemma unquoted_empty : unquoted EmptyString.
Proof. split; discriminate. Qed.

(** X16.  The tags of the S3 adapter carry no quotes: the tag it gives
    to the callback and the tag it returns neither start nor end with a
    double quote, whatever the storage sends; and of an [ETag] that the
    storage sends between double quotes, the callback is given what is
    between them. *)
Theorem s3_tags_are_unquoted (V : Type) (c : s3.Client) (bucket key : string)
    (fn : UpdateObjectFunc V) :
  (forall t d, s3.read c bucket key = Ok (t, d) -> unquoted t)
  /\ (forall t,
        s3.answered (s3.AtomicUpdateObject c bucket key fn) = Returns t ->
        unquoted t)
  /\ (forall t d err,
        unquoted t ->
        s3.GetObject c bucket key
        = (Some {| s3.ETag := Some (quoted t); s3.Body := Ok d |}, err) ->
        s3.get_fails err = None ->
        s3.read c bucket key = Ok (t, d)).
Proof.
  split; [|split].
  - intros t d. unfold s3.read.
    destruct (s3.GetObject c bucket key) as [getResp err].
    destruct (s3.get_fails err); [discriminate|].
    destruct getResp as [r|].
    + destruct (s3.Body r); [|discriminate].
      intros H. inversion H; subst.
      destruct (s3.ETag r); [apply Trim_unquoted|apply unquoted_empty].
    + intros H. inversion H; subst. apply unquoted_empty.
  - intros t. unfold s3.AtomicUpdateObject.
    destruct (s3.GetObject c bucket key) as [getResp err].
    destruct (s3.get_fails err); [discriminate|].
    destruct (match getResp with Some r => s3.Body r | None => Ok "" end);
      [|discriminate].
    destruct (fn _ _) as [[newData|e] v]; [|discriminate].
    cbn [s3.answered].
    destruct (s3.PutObject c _) as [[putResp|] [[code|what]|]];
      try discriminate;
      try (destruct (String.eqb code "PreconditionFailed"); discriminate).
    destruct (s3.NewETag putResp); [|discriminate].
    intros H. inversion H; subst. apply Trim_unquoted.
  - intros t d err Ht Hget Hf. unfold s3.read. rewrite Hget, Hf.
    cbn [s3.Body s3.ETag]. rewrite (Trim_quoted _ Ht). reflexivity.
Qed.

(** X17.  When the callback returns an error, the S3 adapter returns
    that error as it is and sends no request to write: nothing of the
    object changes. *)
Theorem s3_callback_error_sends_nothing (V : Type) (c : s3.Client)
    (bucket key : string) (fn : UpdateObjectFunc V) (t d : string)
    (e : error) :
  s3.read c bucket key = Ok (t, d) ->
  fst (fn t d) = Err e ->
  s3.AtomicUpdateObject c bucket key fn
  = {| s3.answered := Fails e; s3.assigned := Some (snd (fn t d));
       s3.sent := None |}.
Proof.
  unfold s3.read, s3.AtomicUpdateObject.
  destruct (s3.GetObject c bucket key) as [getResp err].
  destruct (s3.get_fails err); [discriminate|].
  destruct getResp as [r|].
  - destruct (s3.Body r) as [data|what]; [|discriminate].
    intros H. inversion H; subst. clear H.
    destruct (fn _ d) as [[newData|e'] v]; simpl; [discriminate|].
    intros H. inversion H. reflexivity.
  - intros H. inversion H; subst. clear H.
    destruct (fn _ _) as [[newData|e'] v]; simpl; [discriminate|].
    intros H. inversion H. reflexivity.
Qed.

Lemma s3_callback_error_sends_nothing_witness :
  let c := {| s3.GetObject := fun _ _ =>
                (Some {| s3.ETag := Some (quoted "v1");
                         s3.Body := Ok (json_text "{'fence':3}") |}, None);
              s3.PutObject := fun _ =>
                (Some {| s3.NewETag := Some (quoted "v2") |}, None) |} in
  let fn := unlockUpdate (set_etag (NewMutex "bucket" "key" "b") "v0") in
  (s3.read c "bucket" "key" = Ok ("v1", json_text "{'fence':3}")
   /\ fst (fn "v1" (json_text "{'fence':3}")) = Err ErrConflict)
  /\ s3.AtomicUpdateObject c "bucket" "key" fn
     = {| s3.answered := Fails ErrConflict;
          s3.assigned := Some (snd (fn "v1" (json_text "{'fence':3}")));
          s3.sent := None |}.
Proof.
  split; [split; reflexivity|].
  exact (s3_callback_error_sends_nothing unit
           {| s3.GetObject := fun _ _ =>
                (Some {| s3.ETag := Some (quoted "v1");
                         s3.Body := Ok (json_text "{'fence':3}") |}, None);
              s3.PutObject := fun _ =>
                (Some {| s3.NewETag := Some (quoted "v2") |}, None) |}
           "bucket" "key"
           (unlockUpdate (set_etag (NewMutex "bucket" "key" "b") "v0"))
           "v1" (json_text "{'fence':3}") ErrConflict eq_refl eq_refl).
Defined.


(** X18.  The S3 adapter takes for an absent object every failure of
    [GetObject] that comes without a response and is not an API error
    with a code other than [NoSuchKey]: the callback runs on the empty
    tag and no bytes, and the bytes it returns are sent without an
    [If-Match] header, so that the write is not conditional. *)
Theorem s3_write_on_absent_object_is_unconditional (V : Type) (c : s3.Client)
    (bucket key : string) (fn : UpdateObjectFunc V) (err : s3.sdkError)
    (newData : string) (v : V) :
  s3.GetObject c bucket key = (None, Some err) ->
  err = s3.APIError "NoSuchKey" \/ (exists what, err = s3.OtherError what) ->
  fn EmptyString EmptyString = (Ok newData, v) ->
  s3.read c bucket key = Ok (EmptyString, EmptyString)
  /\ s3.assigned (s3.AtomicUpdateObject c bucket key fn) = Some v
  /\ s3.sent (s3.AtomicUpdateObject c bucket key fn)
     = Some {| s3.Bucket := bucket; s3.Key := key; s3.PutBody := newData;
               s3.ContentType := "application/json"; s3.IfMatch := None |}.
Proof.
  intros Hget Herr Hfn.
  assert (Hf : s3.get_fails (Some err) = None).
  { destruct Herr as [->|[what ->]]; reflexivity. }
  unfold s3.read, s3.AtomicUpdateObject. rewrite Hget, Hf, Hfn.
  repeat split; reflexivity.
Qed.

Lemma s3_write_on_absent_object_is_unconditional_witness :
  let c := {| s3.GetObject := fun _ _ =>
                (None, Some (s3.OtherError "connection reset by peer"));
              s3.PutObject := fun _ =>
                (Some {| s3.NewETag := Some (quoted "v2") |}, None) |} in
  let fn := tryLockUpdate (NewMutex "bucket" "key" "b") 5000000000
              1730337072000000000 1730337072000000000 in
  let newData :=
    json_text "{'id':'b','expires':'2024-10-31T01:11:17Z','fence':1}" in
  (s3.GetObject c "bucket" "key"
   = (None, Some (s3.OtherError "connection reset by peer"))
   /\ (s3.OtherError "connection reset by peer" = s3.APIError "NoSuchKey"
       \/ exists what, s3.OtherError "connection reset by peer" = s3.OtherError what)
   /\ fn EmptyString EmptyString = (Ok newData, 1))
  /\ s3.read c "bucket" "key" = Ok (EmptyString, EmptyString)
     /\ s3.assigned (s3.AtomicUpdateObject c "bucket" "key" fn) = Some 1
     /\ s3.sent (s3.AtomicUpdateObject c "bucket" "key" fn)
        = Some {| s3.Bucket := "bucket"; s3.Key := "key"; s3.PutBody := newData;
                  s3.ContentType := "application/json"; s3.IfMatch := None |}.
Proof.
  assert (Herr : s3.OtherError "connection reset by peer" = s3.APIError "NoSuchKey"
                 \/ exists what,
                      s3.OtherError "connection reset by peer" = s3.OtherError what).
  { right. eexists. reflexivity. }
  split; [split; [reflexivity|split; [exact Herr|reflexivity]]|].
  exact (s3_write_on_absent_object_is_unconditional Z
           {| s3.GetObject := fun _ _ =>
                (None, Some (s3.OtherError "connection reset by peer"));
              s3.PutObject := fun _ =>
                (Some {| s3.NewETag := Some (quoted "v2") |}, None) |}
           "bucket" "key"
           (tryLockUpdate (NewMutex "bucket" "key" "b") 5000000000
              1730337072000000000 1730337072000000000)
           (s3.OtherError "connection reset by peer")
           (json_text "{'id':'b','expires':'2024-10-31T01:11:17Z','fence':1}")
           1 eq_refl Herr eq_refl).
Defined.


(** The S3 adapter, by what it read and what became of its write. *)
Lemma s3_AtomicUpdateObject_cases (V : Type) (c : s3.Client)
    (bucket key : string) (fn : UpdateObjectFunc V) :
  s3.AtomicUpdateObject c bucket key fn
  = match s3.read c bucket key with
    | Err code =>
      {| s3.answered := Fails (apiError code); s3.assigned := None;
         s3.sent := None |}
    | Ok (t, d) =>
      match fn t d with
      | (Err e, v) =>
        {| s3.answered := Fails e; s3.assigned := Some v; s3.sent := None |}
      | (Ok newData, v) =>
        {| s3.answered := put_answer (s3.write c bucket key t newData);
           s3.assigned := Some v;
           s3.sent := Some {| s3.Bucket := bucket; s3.Key := key;
                              s3.PutBody := newData;
                              s3.ContentType := "application/json";
                              s3.IfMatch := if String.eqb t EmptyString
                                            then None else Some t |} |}
      end
    end.
Proof.
  unfold s3.AtomicUpdateObject, s3.read, s3.write.
  destruct (s3.GetObject c bucket key) as [getResp err].
  destruct (s3.get_fails err) as [e|]; [reflexivity|].
  destruct getResp as [r|].
  - destruct (s3.Body r) as [data|what]; [|reflexivity].
    destruct (fn _ data) as [[newData|e] v]; [|reflexivity].
    f_equal.
    destruct (s3.PutObject c _) as [[putResp|] [[code|what]|]];
      try (destruct (String.eqb code "PreconditionFailed"));
      try (destruct (s3.NewETag putResp)); reflexivity.
  - destruct (fn _ _) as [[newData|e] v]; [|reflexivity].
    f_equal.
    destruct (s3.PutObject c _) as [[putResp|] [[code|what]|]];
      try (destruct (String.eqb code "PreconditionFailed"));
      try (destruct (s3.NewETag putResp)); reflexivity.
Qed.

(** X19.  The S3 adapter is a provider as [TryLock] and [Unlock] are
    verified against: a call that does not panic returns what
    [AtomicUpdateObject] returns on the exchange that reads what the
    adapter read and whose write ends as [PutObject] ended, and the
    callback assigns the same; the request it sends carries the bytes of
    the callback, on the condition of the tag read when there is one. *)
Theorem s3_is_a_provider (V : Type) (c : s3.Client) (bucket key : string)
    (fn : UpdateObjectFunc V) (put : put_outcome) :
  (forall t d newData,
     s3.read c bucket key = Ok (t, d) ->
     fst (fn t d) = Ok newData ->
     s3.write c bucket key t newData = Some put) ->
  let o := AtomicUpdateObject
             {| x_get := s3.read c bucket key; x_put := put |} fn in
  s3.answered (s3.AtomicUpdateObject c bucket key fn) = answer_of (returned o)
  /\ s3.assigned (s3.AtomicUpdateObject c bucket key fn) = captured o
  /\ (forall input,
        s3.sent (s3.AtomicUpdateObject c bucket key fn) = Some input ->
        exists t d,
          s3.read c bucket key = Ok (t, d)
          /\ fst (fn t d) = Ok (s3.PutBody input)
          /\ s3.IfMatch input
             = if String.eqb t EmptyString then None else Some t).
Proof.
  intros Hput. cbv zeta.
  rewrite s3_AtomicUpdateObject_cases.
  unfold AtomicUpdateObject. cbn [x_get x_put].
  destruct (s3.read c bucket key) as [[t d]|code].
  2:{ repeat split; try reflexivity. intros input H. discriminate. }
  destruct (fn t d) as [[newData|e] v] eqn:Hfn.
  2:{ repeat split; try reflexivity. intros input H. discriminate. }
  rewrite (Hput t d newData eq_refl (f_equal fst Hfn)).
  split; [|split].
  - destruct put; reflexivity.
  - destruct put; reflexivity.
  - intros input H. inversion H; subst. cbn.
    exists t, d. rewrite Hfn. auto.
Qed.

Lemma s3_is_a_provider_witness :
  let c := {| s3.GetObject := fun _ _ =>
                (Some {| s3.ETag := Some (quoted "v1");
                         s3.Body := Ok (json_text "{'fence':3}") |}, None);
              s3.PutObject := fun _ =>
                (None, Some (s3.APIError "PreconditionFailed")) |} in
  let fn := tryLockUpdate (NewMutex "bucket" "key" "b") 5000000000
              1730337072000000000 1730337072000000000 in
  let o := AtomicUpdateObject
             {| x_get := s3.read c "bucket" "key";
                x_put := PutPreconditionFailed |} fn in
  (forall t d newData,
     s3.read c "bucket" "key" = Ok (t, d) ->
     fst (fn t d) = Ok newData ->
     s3.write c "bucket" "key" t newData = Some PutPreconditionFailed)
  /\ s3.answered (s3.AtomicUpdateObject c "bucket" "key" fn) = Fails ErrConflict
  /\ s3.answered (s3.AtomicUpdateObject c "bucket" "key" fn)
     = answer_of (returned o)
  /\ s3.assigned (s3.AtomicUpdateObject c "bucket" "key" fn) = captured o
  /\ (forall input,
        s3.sent (s3.AtomicUpdateObject c "bucket" "key" fn) = Some input ->
        exists t d,
          s3.read c "bucket" "key" = Ok (t, d)
          /\ fst (fn t d) = Ok (s3.PutBody input)
          /\ s3.IfMatch input
             = if String.eqb t EmptyString then None else Some t).
Proof.
  cbv zeta.
  assert (Hput : forall t d newData,
             s3.read
               {| s3.GetObject := fun _ _ =>
                    (Some {| s3.ETag := Some (quoted "v1");
                             s3.Body := Ok (json_text "{'fence':3}") |}, None);
                  s3.PutObject := fun _ =>
                    (None, Some (s3.APIError "PreconditionFailed")) |}
               "bucket" "key" = Ok (t, d) ->
             fst (tryLockUpdate (NewMutex "bucket" "key" "b") 5000000000
                    1730337072000000000 1730337072000000000 t d) = Ok newData ->
             s3.write
               {| s3.GetObject := fun _ _ =>
                    (Some {| s3.ETag := Some (quoted "v1");
                             s3.Body := Ok (json_text "{'fence':3}") |}, None);
                  s3.PutObject := fun _ =>
                    (None, Some (s3.APIError "PreconditionFailed")) |}
               "bucket" "key" t newData = Some PutPreconditionFailed).
  { intros t d newData _ _. reflexivity. }
  split; [exact Hput|]. split; [reflexivity|].
  exact (s3_is_a_provider Z
           {| s3.GetObject := fun _ _ =>
                (Some {| s3.ETag := Some (quoted "v1");
                         s3.Body := Ok (json_text "{'fence':3}") |}, None);
              s3.PutObject := fun _ =>
                (None, Some (s3.APIError "PreconditionFailed")) |}
           "bucket" "key"
           (tryLockUpdate (NewMutex "bucket" "key" "b") 5000000000
              1730337072000000000 1730337072000000000)
           PutPreconditionFailed Hput).
Defined.

(** The GCS adapter, by what it read and what became of its write. *)
Lemma gcs_AtomicUpdateObject_cases (V : Type) (c : gcs.Client)
    (fn : UpdateObjectFunc V) :
  gcs.AtomicUpdateObject c fn
  = match gcs.read c with
    | Err code =>
      {| gcs.answered := Fails (apiError code); gcs.assigned := None;
         gcs.committed := None |}
    | Ok (t, d) =>
      match fn t d with
      | (Err e, v) =>
        {| gcs.answered := Fails e; gcs.assigned := Some v;
           gcs.committed := None |}
      | (Ok newData, v) =>
        {| gcs.answered := put_answer (gcs.write c newData);
           gcs.assigned := Some v;
           gcs.committed :=
             match gcs.write c newData with
             | Some PutPreconditionFailed | Some (PutFailed _) => None
             | _ => Some ({| gcs.GenerationMatch := gcs.generation c |}, newData)
             end |}
      end
    end.
Proof.
  unfold gcs.AtomicUpdateObject, gcs.read, gcs.write, gcs.generation.
  destruct (gcs.Attrs c) as [attrs err]. cbn [fst].
  destruct (gcs.fails err) as [e|]; [reflexivity|].
  destruct (gcs.NewReader c) as [reader err'].
  destruct (gcs.fails err') as [e|]; [reflexivity|].
  destruct (match reader with Some r => r | None => Ok "" end) as [data|what];
    [|reflexivity].
  destruct (fn _ data) as [[newData|e] v]; [|reflexivity].
  destruct (gcs.Write c _ newData) as [e|]; [reflexivity|].
  destruct (gcs.Close c _ newData) as [[|code what|what]|]; try reflexivity.
  - destruct (code =? 412); reflexivity.
  - destruct (gcs.AttrsAfter c) as [[newAttrs|] [e|]]; reflexivity.
Qed.

(** X20.  The GCS adapter is a provider as [TryLock] and [Unlock] are
    verified against: a call that does not panic returns what
    [AtomicUpdateObject] returns on the exchange that reads what the
    adapter read and whose write ends as the write of the adapter ended,
    the callback assigns the same, and the bytes stored are those of the
    write that was completed. *)
Theorem gcs_is_a_provider (V : Type) (c : gcs.Client) (fn : UpdateObjectFunc V)
    (put : put_outcome) :
  (forall t d newData,
     gcs.read c = Ok (t, d) ->
     fst (fn t d) = Ok newData ->
     gcs.write c newData = Some put) ->
  let o := AtomicUpdateObject {| x_get := gcs.read c; x_put := put |} fn in
  gcs.answered (gcs.AtomicUpdateObject c fn) = answer_of (returned o)
  /\ gcs.assigned (gcs.AtomicUpdateObject c fn) = captured o
  /\ option_map snd (gcs.committed (gcs.AtomicUpdateObject c fn)) = written o.
Proof.
  intros Hput. cbv zeta.
  rewrite gcs_AtomicUpdateObject_cases.
  unfold AtomicUpdateObject. cbn [x_get x_put].
  destruct (gcs.read c) as [[t d]|code]; [|repeat split; reflexivity].
  destruct (fn t d) as [[newData|e] v] eqn:Hfn; [|repeat split; reflexivity].
  rewrite (Hput t d newData eq_refl (f_equal fst Hfn)).
  destruct put; repeat split; reflexivity.
Qed.

Lemma gcs_is_a_provider_witness :
  let c := {| gcs.Attrs := (Some {| gcs.Generation := 7; gcs.Etag := "CJ7A" |}, None);
              gcs.NewReader := (Some (Ok (json_text "{'fence':3}")), None);
              gcs.Write := fun _ _ => None;
              gcs.Close := fun _ _ => None;
              gcs.AttrsAfter := (None, Some (gcs.OtherError "context canceled")) |} in
  let fn := (tryLockUpdate (NewMutex "bucket" "key" "b") 5000000000
              1730337072000000000 1730337072000000000) in
  let o := AtomicUpdateObject
             {| x_get := gcs.read c;
                x_put := PutOkAttrsFailed "context canceled" |} fn in
  (forall t d newData,
     gcs.read c = Ok (t, d) ->
     fst (fn t d) = Ok newData ->
     gcs.write c newData = Some (PutOkAttrsFailed "context canceled"))
  /\ gcs.answered (gcs.AtomicUpdateObject c fn) = answer_of (returned o)
  /\ gcs.assigned (gcs.AtomicUpdateObject c fn) = captured o
  /\ option_map snd (gcs.committed (gcs.AtomicUpdateObject c fn)) = written o.
Proof.
  cbv zeta.
  assert (Hput : forall t d newData,
             gcs.read {| gcs.Attrs := (Some {| gcs.Generation := 7; gcs.Etag := "CJ7A" |}, None);
              gcs.NewReader := (Some (Ok (json_text "{'fence':3}")), None);
              gcs.Write := fun _ _ => None;
              gcs.Close := fun _ _ => None;
              gcs.AttrsAfter := (None, Some (gcs.OtherError "context canceled")) |} = Ok (t, d) ->
             fst ((tryLockUpdate (NewMutex "bucket" "key" "b") 5000000000
              1730337072000000000 1730337072000000000) t d) = Ok newData ->
             gcs.write {| gcs.Attrs := (Some {| gcs.Generation := 7; gcs.Etag := "CJ7A" |}, None);
              gcs.NewReader := (Some (Ok (json_text "{'fence':3}")), None);
              gcs.Write := fun _ _ => None;
              gcs.Close := fun _ _ => None;
              gcs.AttrsAfter := (None, Some (gcs.OtherError "context canceled")) |} newData
             = Some (PutOkAttrsFailed "context canceled")).
  { intros t d newData _ _. reflexivity. }
  split; [exact Hput|].
  exact (gcs_is_a_provider Z {| gcs.Attrs := (Some {| gcs.Generation := 7; gcs.Etag := "CJ7A" |}, None);
              gcs.NewReader := (Some (Ok (json_text "{'fence':3}")), None);
              gcs.Write := fun _ _ => None;
              gcs.Close := fun _ _ => None;
              gcs.AttrsAfter := (None, Some (gcs.OtherError "context canceled")) |} (tryLockUpdate (NewMutex "bucket" "key" "b") 5000000000
              1730337072000000000 1730337072000000000)
           (PutOkAttrsFailed "context canceled") Hput).
Defined.


(** X21.  The only bytes the GCS adapter writes are those the callback
    returned for what was read, and it writes them on the condition that
    the object is at the generation that [Attrs] read, 0 when the object
    did not exist; when the callback returns an error nothing is
    written. *)
Theorem gcs_write_is_conditional (V : Type) (c : gcs.Client)
    (fn : UpdateObjectFunc V) (conds : gcs.Conditions) (newData : string) :
  gcs.committed (gcs.AtomicUpdateObject c fn) = Some (conds, newData) ->
  gcs.GenerationMatch conds = gcs.generation c
  /\ exists t d, gcs.read c = Ok (t, d) /\ fst (fn t d) = Ok newData.
Proof.
  rewrite gcs_AtomicUpdateObject_cases.
  destruct (gcs.read c) as [[t d]|code]; [|discriminate].
  destruct (fn t d) as [[data|e] v] eqn:Hfn; [|discriminate].
  cbn [gcs.committed].
  intros H.
  assert (H' : Some ({| gcs.GenerationMatch := gcs.generation c |}, data)
               = Some (conds, newData)).
  { destruct (gcs.write c data) as [[| | |]|]; try discriminate; exact H. }
  inversion H'; subst. split; [reflexivity|].
  exists t, d. rewrite Hfn. auto.
Qed.

Lemma gcs_write_is_conditional_witness :
  let c := {| gcs.Attrs := (Some {| gcs.Generation := 7; gcs.Etag := "CJ7A" |}, None);
              gcs.NewReader := (Some (Ok (json_text "{'fence':3}")), None);
              gcs.Write := fun _ _ => None;
              gcs.Close := fun _ _ => None;
              gcs.AttrsAfter := (None, Some (gcs.OtherError "context canceled")) |} in
  let fn := (tryLockUpdate (NewMutex "bucket" "key" "b") 5000000000
              1730337072000000000 1730337072000000000) in
  let newData := (json_text "{'id':'b','expires':'2024-10-31T01:11:17Z','fence':4}") in
  gcs.committed (gcs.AtomicUpdateObject c fn)
  = Some ({| gcs.GenerationMatch := 7 |}, newData)
  /\ gcs.GenerationMatch {| gcs.GenerationMatch := 7 |} = gcs.generation c
  /\ exists t d, gcs.read c = Ok (t, d) /\ fst (fn t d) = Ok newData.
Proof.
  split; [reflexivity|].
  exact (gcs_write_is_conditional Z {| gcs.Attrs := (Some {| gcs.Generation := 7; gcs.Etag := "CJ7A" |}, None);
              gcs.NewReader := (Some (Ok (json_text "{'fence':3}")), None);
              gcs.Write := fun _ _ => None;
              gcs.Close := fun _ _ => None;
              gcs.AttrsAfter := (None, Some (gcs.OtherError "context canceled")) |} (tryLockUpdate (NewMutex "bucket" "key" "b") 5000000000
              1730337072000000000 1730337072000000000)
           {| gcs.GenerationMatch := 7 |} (json_text "{'id':'b','expires':'2024-10-31T01:11:17Z','fence':4}") eq_refl).
Defined.


(** X22.  The GCS adapter can return an error for a write that went
    through: when [writer.Close] has completed the write and the
    attributes of the object cannot be read afterwards, the call returns
    the error of that read, and the new tag is lost. *)
Theorem gcs_fails_after_commit (V : Type) (c : gcs.Client)
    (fn : UpdateObjectFunc V) (conds : gcs.Conditions) (newData : string)
    (attrs : option gcs.ObjectAttrs) (e : gcs.clientError) :
  gcs.committed (gcs.AtomicUpdateObject c fn) = Some (conds, newData) ->
  gcs.AttrsAfter c = (attrs, Some e) ->
  gcs.answered (gcs.AtomicUpdateObject c fn) = Fails (gcs.as_error e).
Proof.
  unfold gcs.AtomicUpdateObject.
  destruct (gcs.Attrs c) as [attrs0 err].
  destruct (gcs.fails err); [discriminate|].
  destruct (gcs.NewReader c) as [reader err'].
  destruct (gcs.fails err'); [discriminate|].
  destruct (match reader with Some r => r | None => Ok "" end); [|discriminate].
  destruct (fn _ _) as [[data|e'] v]; [|discriminate].
  destruct (gcs.Write c _ data); [discriminate|].
  destruct (gcs.Close c _ data) as [[|code what|what]|]; try discriminate.
  - destruct (code =? 412); discriminate.
  - intros _ ->. destruct attrs; reflexivity.
Qed.

Lemma gcs_fails_after_commit_witness :
  let c := {| gcs.Attrs := (Some {| gcs.Generation := 7; gcs.Etag := "CJ7A" |}, None);
              gcs.NewReader := (Some (Ok (json_text "{'fence':3}")), None);
              gcs.Write := fun _ _ => None;
              gcs.Close := fun _ _ => None;
              gcs.AttrsAfter := (None, Some (gcs.OtherError "context canceled")) |} in
  let fn := (tryLockUpdate (NewMutex "bucket" "key" "b") 5000000000
              1730337072000000000 1730337072000000000) in
  let newData := (json_text "{'id':'b','expires':'2024-10-31T01:11:17Z','fence':4}") in
  (gcs.committed (gcs.AtomicUpdateObject c fn)
   = Some ({| gcs.GenerationMatch := 7 |}, newData)
   /\ gcs.AttrsAfter c = (None, Some (gcs.OtherError "context canceled")))
  /\ gcs.answered (gcs.AtomicUpdateObject c fn)
     = Fails (gcs.as_error (gcs.OtherError "context canceled")).
Proof.
  split; [split; reflexivity|].
  exact (gcs_fails_after_commit Z {| gcs.Attrs := (Some {| gcs.Generation := 7; gcs.Etag := "CJ7A" |}, None);
              gcs.NewReader := (Some (Ok (json_text "{'fence':3}")), None);
              gcs.Write := fun _ _ => None;
              gcs.Close := fun _ _ => None;
              gcs.AttrsAfter := (None, Some (gcs.OtherError "context canceled")) |} (tryLockUpdate (NewMutex "bucket" "key" "b") 5000000000
              1730337072000000000 1730337072000000000)
           {| gcs.GenerationMatch := 7 |} (json_text "{'id':'b','expires':'2024-10-31T01:11:17Z','fence':4}")
           None (gcs.OtherError "context canceled") eq_refl eq_refl).
Defined.


(** ** TryLock, when the provider fails after the write *)

(** X23.  A call of [TryLock] that returns an error may have taken the
    lock all the same: when the provider fails after its write went
    through, [TryLock] returns the error with the token -1 and leaves the
    handle without the new tag, and the record stored names the handle as
    holder, so that the lock is held until the lease runs out. *)
Theorem TryLock_error_after_write (mu : Mutex) (expiresIn : time.Duration)
    (a : attempt) (currentETag currentData : string) (content : mutexContent)
    (code : string) :
  x_get (a_exchange a) = Ok (currentETag, currentData) ->
  current currentData = Ok content ->
  held content (a_now1 a) = false ->
  x_put (a_exchange a) = PutOkAttrsFailed code ->
  0 <= a_now2 a <= 200000000000 * time.Second ->
  int64_ok expiresIn ->
  exists newData record,
    TryLock mu expiresIn a
    = {| handle := mu;
         result_of := (false, -1, Some (apiError code));
         stored := Some newData |}
    /\ current newData = Ok record
    /\ ID record = utf8.coerce (id mu)
    /\ Fence record = wrap64 (Fence content + 1)
    /\ forall now, now <= a_now2 a + expiresIn -> held record now = true.
Proof.
  intros Hget Hcur Hheld Hput Hnow Hlen.
  destruct (Marshal_new_holder mu expiresIn (a_now2 a)
              (wrap64 (Fence content + 1)) Hnow Hlen (wrap64_ok _))
    as [newData [HM Hback]].
  exists newData. eexists. split; [|split; [exact Hback|]].
  - unfold TryLock. rewrite AtomicUpdateObject_tryLock, Hget, Hcur, Hheld.
    cbv zeta. rewrite HM, Hput. reflexivity.
  - split; [reflexivity|]. split; [reflexivity|].
    intros now Hle. unfold held, time.After, time.Add. cbn [Expires].
    destruct (Z.ltb_spec (a_now2 a + expiresIn) now); [lia|reflexivity].
Qed.

Lemma TryLock_error_after_write_witness :
  let mu := NewMutex "bucket" "key" "b" in
  let data := json_text "{'fence':3}" in
  let a := {| a_now1 := 1730337072000000000; a_now2 := 1730337072000000000;
              a_exchange := {| x_get := Ok ("CJ7A", data);
                               x_put := PutOkAttrsFailed "context canceled" |} |} in
  let content := {| ID := EmptyString; Expires := None; Fence := 3 |} in
  (x_get (a_exchange a) = Ok ("CJ7A", data)
   /\ current data = Ok content
   /\ held content (a_now1 a) = false
   /\ x_put (a_exchange a) = PutOkAttrsFailed "context canceled"
   /\ 0 <= a_now2 a <= 200000000000 * time.Second
   /\ int64_ok 5000000000)
  /\ exists newData record,
       TryLock mu 5000000000 a
       = {| handle := mu;
            result_of := (false, -1, Some (apiError "context canceled"));
            stored := Some newData |}
       /\ current newData = Ok record
       /\ ID record = utf8.coerce (id mu)
       /\ Fence record = wrap64 (Fence content + 1)
       /\ forall now, now <= a_now2 a + 5000000000 -> held record now = true.
Proof.
  assert (Hnow : 0 <= 1730337072000000000 <= 200000000000 * time.Second).
  { unfold time.Second. lia. }
  assert (Hlen : int64_ok 5000000000).
  { unfold int64_ok, strconv.MinInt64, strconv.MaxInt64. lia. }
  split.
  - repeat split; try reflexivity; try apply Hnow; apply Hlen.
  - exact (TryLock_error_after_write (NewMutex "bucket" "key" "b") 5000000000
             {| a_now1 := 1730337072000000000; a_now2 := 1730337072000000000;
                a_exchange := {| x_get := Ok ("CJ7A", json_text "{'fence':3}");
                                 x_put := PutOkAttrsFailed "context canceled" |} |}
             "CJ7A" (json_text "{'fence':3}")
             {| ID := EmptyString; Expires := None; Fence := 3 |}
             "context canceled" eq_refl eq_refl eq_refl eq_refl Hnow Hlen).
Defined.


(** ** The record, once more *)

(** X24.  What the mutex writes is never taken for an absent object and
    never fails to decode: the encoding of a record is not empty, and it
    decodes to the record with the same expiry and the same fence, and
    with the holder as [encoding/json] writes it (ill-formed UTF-8
    replaced). *)
Theorem written_record_decodes (c : mutexContent) (data : string) :
  int64_ok (Fence c) ->
  Marshal c = Ok data ->
  0 < len data
  /\ current data
     = Ok {| ID := utf8.coerce (ID c); Expires := Expires c; Fence := Fence c |}
  /\ (utf8.ValidString (ID c) = true -> current data = Ok c).
Proof.
  intros Hf HM.
  destruct (Unmarshal_Marshal c data Hf HM) as [HU Hpos].
  split; [exact Hpos|]. rewrite (current_nonempty _ Hpos).
  split; [exact HU|].
  intros Hv. rewrite HU, (coerce_valid _ Hv). destruct c; reflexivity.
Qed.

Lemma written_record_decodes_witness :
  let c := {| ID := "b"; Expires := Some 1730337077000000000; Fence := 4 |} in
  let data := json_text "{'id':'b','expires':'2024-10-31T01:11:17Z','fence':4}" in
  (int64_ok (Fence c) /\ Marshal c = Ok data)
  /\ 0 < len data
     /\ current data
        = Ok {| ID := utf8.coerce (ID c); Expires := Expires c;
                Fence := Fence c |}
     /\ (utf8.ValidString (ID c) = true -> current data = Ok c).
Proof.
  assert (Hf : int64_ok 4).
  { unfold int64_ok, strconv.MinInt64, strconv.MaxInt64. lia. }
  split; [split; [exact Hf|reflexivity]|].
  exact (written_record_decodes
           {| ID := "b"; Expires := Some 1730337077000000000; Fence := 4 |}
           (json_text "{'id':'b','expires':'2024-10-31T01:11:17Z','fence':4}")
           Hf eq_refl).
Defined.

(** X25.  The fence of a record that decodes is an [int64], whatever
    the bytes, so that the token [TryLock] makes of it is the fence plus
    one, except at the largest [int64], where it is the least. *)
Theorem next_token_of_decoded_record (data : string) (content : mutexContent) :
  current data = Ok content ->
  int64_ok (Fence content)
  /\ wrap64 (Fence content + 1)
     = if Fence content =? strconv.MaxInt64 then strconv.MinInt64
       else Fence content + 1.
Proof.
  intros Hcur. pose proof (current_fence _ _ Hcur) as Hf.
  split; [exact Hf|].
  unfold int64_ok, strconv.MinInt64, strconv.MaxInt64 in *.
  destruct (Z.eqb_spec (Fence content) 9223372036854775807) as [E|E].
  - rewrite E. reflexivity.
  - apply wrap64_in_range.
    unfold int64_ok, strconv.MinInt64, strconv.MaxInt64. lia.
Qed.

Lemma next_token_of_decoded_record_witness :
  let data := json_text "{'fence':9223372036854775807}" in
  let content := {| ID := EmptyString; Expires := None;
                    Fence := 9223372036854775807 |} in
  current data = Ok content
  /\ int64_ok (Fence content)
     /\ wrap64 (Fence content + 1)
        = if Fence content =? strconv.MaxInt64 then strconv.MinInt64
          else Fence content + 1.
Proof.
  split; [reflexivity|].
  exact (next_token_of_decoded_record
           (json_text "{'fence':9223372036854775807}")
           {| ID := EmptyString; Expires := None;
              Fence := 9223372036854775807 |} eq_refl).
Defined.
